(** * MonsterQuest: the battle and monster-progression engine

    A shallow embedding of [MonsterSystem] (monster creation, stats,
    experience, evolution, damage and healing) and of [BattleSystem]
    (turn resolution, damage formula, type chart, run attempts), with
    [InventorySystem] (adding and using items) and the map side of
    [GridMovement] (collisions, steps, encounter zones).

    Modelling conventions.
    - A JavaScript number that the data files and the engine keep integral
      (levels, stats, hit points, experience) is a [Z]; an expression that
      divides or multiplies by a fraction is evaluated in [Q] and brought
      back with [Math.floor].  The damage formula, the accuracy and effect
      rolls, the healing amount of an effect, the percentage fields of the
      damage and heal records and the hit points after an evolution are
      evaluated as the code evaluates them, every operation rounded to the
      nearest double ([Double.round]); the other expressions (the stat
      formulas, the experience thresholds and yield, the status damage, the
      catch probability, the escape chance, the enemy's choice of an
      ability) are evaluated exactly.  [NaN] and the infinities are outside
      the model: a division is modelled for a divisor that is not zero.
    - [null] and [undefined] are [None].
    - A method that mutates the monster it receives is a function from the
      instance to the updated instance and the returned record.  The battle
      engine keeps the instances in a store and refers to them by index, so
      that a team entry and the active monster alias the same object.
    - [Math.random()] is a supplied source: its n-th call returns
      [Math_random n].
    - An object used as a table (the data caches, the type chart) is read
      by its own keys.  What [dataManager.get] finds under a key that the
      table lacks and [Object.prototype] has (constructor, toString, ...)
      is modelled by [DataManager.get], which [createMonster],
      [evolveMonster] and the inventory use; the other readers of the
      tables and of the type chart are modelled for keys that do not name
      a member of [Object.prototype].
    - Console output and the notifications sent to the event bus are not
      modelled. *)

From stdpp Require Import gmap strings list pretty sorting.
From Stdlib Require Import ZArith QArith Qround Qminmax Qpower Lia Lqa.

Local Open Scope Z_scope.
Local Coercion inject_Z : Z >-> Q.

(** ** JavaScript helpers *)

Module Math.
Definition floor (x : Q) : Z := Qfloor x.
Definition max (a b : Z) : Z := Z.max a b.
Definition min (a b : Z) : Z := Z.min a b.
Definition pow (b e : Z) : Z := b ^ e.
End Math.

(** The arithmetic of JavaScript numbers, which are IEEE 754 doubles: the
    result of an operation is the exact result rounded to 53 significant
    bits, to the nearest such number and to the one with an even last bit
    when two are equally near.  The exponent is not bounded below (numbers
    under 2^-1022 are rounded like the others), and from 2^53 on, where
    the integers stop being doubles, a value is kept as it is, as the
    integers of the model are. *)
Module Double.

(** The exponent of a positive number: the [e] with 2^e <= q < 2^(e+1). *)
Definition exponent (q : Q) : Z :=
  let e := Z.log2 (Qnum q) - Z.log2 (Z.pos (Qden q)) in
  if Qle_bool (2 ^ e) q then e else e - 1.

(** The nearest integer, the even one of two that are equally near. *)
Definition nearest (x : Q) : Z :=
  let f := Qfloor x in
  match (x - f ?= 1 # 2)%Q with
  | Lt => f
  | Gt => f + 1
  | Eq => if Z.even f then f else f + 1
  end.

Definition round_pos (q : Q) : Q :=
  if Qle_bool (2 ^ 53) q then q
  else
    let e := exponent q in
    Qred (nearest (q * 2 ^ (52 - e)) * 2 ^ (e - 52)).

Definition round (q : Q) : Q :=
  let q := Qred q in
  match Qnum q with
  | Z0 => 0%Q
  | Zpos _ => round_pos q
  | Zneg _ => (- round_pos (- q))%Q
  end.

Definition add (a b : Q) : Q := round (a + b).
Definition sub (a b : Q) : Q := round (a - b).
Definition mul (a b : Q) : Q := round (a * b).
Definition div (a b : Q) : Q := round (a / b).

End Double.

(** [a + b], [a * b] and [a / b] on doubles.  A decimal literal of the
    code that is not a double, such as 0.85, is [Double.round 0.85], the
    double it denotes. *)
Notation "a +~ b" := (Double.add a b) (at level 50, left associativity).
Notation "a *~ b" := (Double.mul a b) (at level 40, left associativity).
Notation "a /~ b" := (Double.div a b) (at level 40, left associativity).

(** The names of the members of [Object.prototype], which every object
    literal inherits: [obj[key]] is not [undefined] for these keys even when
    [obj] has no such property of its own.  Each is a function, except
    [__proto__], which reads as [Object.prototype] itself. *)
Module Object_prototype.
Definition members : list string :=
  [ "constructor"; "__defineGetter__"; "__defineSetter__"; "hasOwnProperty";
    "__lookupGetter__"; "__lookupSetter__"; "isPrototypeOf";
    "propertyIsEnumerable"; "toString"; "valueOf"; "__proto__";
    "toLocaleString" ].

Definition has (key : string) : bool := bool_decide (key ∈ members).

(** The [name] property of the member: the function's name, [undefined]
    for [Object.prototype]. *)
Definition name (key : string) : option string :=
  if String.eqb key "__proto__" then None
  else if String.eqb key "constructor" then Some "Object"
  else Some key.
End Object_prototype.

(** Truthiness of a number, of a string, of a nullable number or string. *)
Definition truthy_num (n : Z) : bool := negb (n =? 0).
Definition truthy_str (s : string) : bool := negb (String.eqb s "").
Definition truthy_onum (n : option Z) : bool :=
  match n with Some n => truthy_num n | None => false end.
Definition truthy_ostr (s : option string) : bool :=
  match s with Some s => truthy_str s | None => false end.

(** [a || b] on numbers. *)
Definition num_or (a : option Z) (b : Z) : Z :=
  match a with Some n => if truthy_num n then n else b | None => b end.

(** An exception value: its [name] and its [message]. *)
Module JsError.
Record t := mk { name : string; message : string }.
End JsError.

(** How a call completes: normally with a value, or abruptly. *)
Inductive outcome (A : Type) : Type :=
| Returned (v : A)
| Thrown (e : JsError.t).
Arguments Returned {A} v.
Arguments Thrown {A} e.

(** State and exceptions. *)
Definition M (S A : Type) : Type := S -> outcome (A * S).

Definition ret {S A} (v : A) : M S A := fun s => Returned (v, s).
Definition bind {S A B} (c : M S A) (k : A -> M S B) : M S B :=
  fun s => match c s with
           | Returned (v, s') => k v s'
           | Thrown e => Thrown e
           end.
Definition throw {S A} (e : JsError.t) : M S A := fun _ => Thrown e.
Definition get_state {S} : M S S := fun s => Returned (s, s).
Definition put_state {S} (s : S) : M S unit := fun _ => Returned (tt, s).
Definition modify {S} (f : S -> S) : M S unit := fun s => Returned (tt, f s).

Notation "x <- c ;; k" := (bind c (fun x => k))
  (at level 100, c at next level, right associativity).
Notation "c ;;; k" := (bind c (fun _ => k))
  (at level 100, right associativity).

Definition TypeError (msg : string) : JsError.t :=
  JsError.mk "TypeError" msg.
Definition ReferenceError (ident : string) : JsError.t :=
  JsError.mk "ReferenceError" (ident +:+ " is not defined").

(** ** constants.js *)

Module GAME_CONFIG.
Definition MAX_PARTY_SIZE : Z := 6.
Definition MAX_MONSTER_LEVEL : Z := 100.
End GAME_CONFIG.

Module ITEM_TYPES.
Definition POTION : string := "potion".
Definition BALL : string := "ball".
Definition KEY : string := "key".
Definition EVOLUTION : string := "evolution".
Definition BATTLE : string := "battle".
End ITEM_TYPES.

(** ** Data records *)

Module Stats.
Record t := mk {
  hp : Z; attack : Z; defense : Z;
  specialAttack : Z; specialDefense : Z; speed : Z }.
End Stats.

Module Shape.
Record t := mk { form : string; mainColor : Z; accentColor : Z }.
End Shape.

Module Evolution.
Record t := mk {
  evolvesTo : option string;
  level : option Z;
  item : option string;
  condition : option string }.
End Evolution.

(** A species file.  [abilityLevels] is an object read with
    [Object.entries]: its entries are kept in insertion order. *)
Module MonsterData.
Record t := mk {
  id : string;
  name : string;
  type : string;
  baseStats : Stats.t;
  abilities : list string;
  abilityLevels : option (list (string * Z));
  evolution : option Evolution.t;
  catchRate : Z;
  expYield : Z;
  growthRate : string;
  shape : option Shape.t }.
End MonsterData.

Module Effect.
Record t := mk {
  type : string;
  target : string;
  stat : option string;
  stages : option Z;
  status : option string;
  percentage : Z;
  chance : option Z }.
End Effect.

Module AbilityData.
Record t := mk {
  id : string;
  name : string;
  type : string;
  category : string;
  power : Z;
  accuracy : Z;
  effects : option (list Effect.t) }.
End AbilityData.

Module ItemEffect.
Record t := mk { amount : option Z; catchRate : option Q }.
End ItemEffect.

Module ItemData.
Record t := mk {
  id : string;
  name : string;
  type : string;
  effect : ItemEffect.t }.
End ItemData.

(** The global [dataManager]: [get(type, id)] for the three tables the
    engine reads.  [get_monsters], [get_abilities] and [get_items] give the
    entry the table holds under the id; [get] gives what the call returns
    for any id. *)
Module DataManager.
Record t := mk {
  _initialized : bool;
  monsters : gmap string MonsterData.t;
  abilities : gmap string AbilityData.t;
  items : gmap string ItemData.t }.

Definition get_monsters (dm : t) (id : string) : option MonsterData.t :=
  if _initialized dm then monsters dm !! id else None.
Definition get_abilities (dm : t) (id : string) : option AbilityData.t :=
  if _initialized dm then abilities dm !! id else None.
Definition get_items (dm : t) (id : string) : option ItemData.t :=
  if _initialized dm then items dm !! id else None.

(** What [get(type, id)] returns, [this._cache[type][id] || null]: an entry
    of the table, a member that the table inherits from
    [Object.prototype], or null. *)
Inductive found (A : Type) : Type :=
| Entry (data : A)
| Inherited
| Null.
Arguments Entry {A} data.
Arguments Inherited {A}.
Arguments Null {A}.

Definition get {A} (dm : t) (table : t -> gmap string A) (id : string)
  : found A :=
  if _initialized dm then
    match table dm !! id with
    | Some data => Entry data
    | None => if Object_prototype.has id then Inherited else Null
    end
  else Null.
End DataManager.

(** A monster instance. *)
Module Monster.
Record t := mk {
  id : string;
  name : string;
  type : string;
  level : Z;
  experience : Z;
  nextLevelExperience : Z;
  baseStats : Stats.t;
  stats : Stats.t;
  currentHp : Z;
  ivs : Stats.t;
  evs : Stats.t;
  abilities : list string;
  status : option string;
  catchRate : Z;
  shape : option Shape.t }.

Definition set_level (v : Z) (m : t) : t :=
  mk (id m) (name m) (type m) v (experience m) (nextLevelExperience m)
     (baseStats m) (stats m) (currentHp m) (ivs m) (evs m) (abilities m)
     (status m) (catchRate m) (shape m).
Definition set_experience (v : Z) (m : t) : t :=
  mk (id m) (name m) (type m) (level m) v (nextLevelExperience m)
     (baseStats m) (stats m) (currentHp m) (ivs m) (evs m) (abilities m)
     (status m) (catchRate m) (shape m).
Definition set_nextLevelExperience (v : Z) (m : t) : t :=
  mk (id m) (name m) (type m) (level m) (experience m) v
     (baseStats m) (stats m) (currentHp m) (ivs m) (evs m) (abilities m)
     (status m) (catchRate m) (shape m).
Definition set_stats (v : Stats.t) (m : t) : t :=
  mk (id m) (name m) (type m) (level m) (experience m)
     (nextLevelExperience m) (baseStats m) v (currentHp m) (ivs m) (evs m)
     (abilities m) (status m) (catchRate m) (shape m).
Definition set_currentHp (v : Z) (m : t) : t :=
  mk (id m) (name m) (type m) (level m) (experience m)
     (nextLevelExperience m) (baseStats m) (stats m) v (ivs m) (evs m)
     (abilities m) (status m) (catchRate m) (shape m).
Definition set_status (v : option string) (m : t) : t :=
  mk (id m) (name m) (type m) (level m) (experience m)
     (nextLevelExperience m) (baseStats m) (stats m) (currentHp m) (ivs m)
     (evs m) (abilities m) v (catchRate m) (shape m).
End Monster.

(** ** Records returned by MonsterSystem *)

Module DamageResult.
Record t := mk {
  damage : Z;
  previousHp : Z;
  currentHp : Z;
  damagePercentage : Z;
  fainted : bool }.
End DamageResult.

Module HealResult.
Record t := mk {
  healAmount : Z;
  previousHp : Z;
  currentHp : Z;
  healPercentage : Z }.
End HealResult.

(** What [awardExperience] returns: [{ leveledUp: false }] alone when the
    species is missing, the full record otherwise. *)
Module AwardResult.
Inductive t :=
| NoData
| Award (leveledUp : bool) (levelsGained : Z) (newAbilities : list string)
        (canEvolve : bool) (evolutionId : option string).

Definition leveledUp (r : t) : bool :=
  match r with NoData => false | Award b _ _ _ _ => b end.
Definition canEvolve (r : t) : bool :=
  match r with NoData => false | Award _ _ _ b _ => b end.
Definition evolutionId (r : t) : option string :=
  match r with NoData => None | Award _ _ _ _ e => e end.
End AwardResult.

Module CreateOptions.
Record t := mk {
  ivs : option Stats.t;
  evs : option Stats.t;
  abilities : option (list string) }.
Definition empty : t := mk None None None.
End CreateOptions.

Module CatchOptions.
Record t := mk { ballBonus : option Q; statusBonus : bool }.
End CatchOptions.

(** [a < b] and [a <= b] on fractions, as booleans. *)
Definition Qltb (a b : Q) : bool := negb (Qle_bool b a).
Definition Qleb (a b : Q) : bool := Qle_bool a b.

(** ** MonsterSystem *)

(** A stable sort by key: [Array.prototype.sort] with the comparator
    [key a - key b]. *)
Fixpoint insert_by {A} (key : A -> Z) (x : A) (l : list A) : list A :=
  match l with
  | [] => [x]
  | y :: l' => if key x <? key y then x :: y :: l' else y :: insert_by key x l'
  end.

Definition sort_by {A} (key : A -> Z) (l : list A) : list A :=
  fold_left (fun acc x => insert_by key x acc) l [].

(** [l.slice(-n)] *)
Definition slice_last {A} (n : nat) (l : list A) : list A :=
  drop (length l - n)%nat l.

(** [obj[key]] on an object kept as its list of entries. *)
Fixpoint entry_lookup (key : string) (entries : list (string * Z)) : option Z :=
  match entries with
  | [] => None
  | (k, v) :: rest => if String.eqb k key then Some v else entry_lookup key rest
  end.

Section MonsterSystem.

Variable dataManager : DataManager.t.
Variable Math_random : nat -> Q.

(** One call of [Math.random()]; the state counts the calls made. *)
Definition Math_random_call : M nat Q :=
  fun n => Returned (Math_random n, S n).

Definition _generateIVs : M nat Stats.t :=
  r_hp <- Math_random_call ;;
  r_attack <- Math_random_call ;;
  r_defense <- Math_random_call ;;
  r_specialAttack <- Math_random_call ;;
  r_specialDefense <- Math_random_call ;;
  r_speed <- Math_random_call ;;
  ret {| Stats.hp := Math.floor (r_hp * 32);
         Stats.attack := Math.floor (r_attack * 32);
         Stats.defense := Math.floor (r_defense * 32);
         Stats.specialAttack := Math.floor (r_specialAttack * 32);
         Stats.specialDefense := Math.floor (r_specialDefense * 32);
         Stats.speed := Math.floor (r_speed * 32) |}.

Definition _generateEVs : Stats.t :=
  {| Stats.hp := 0; Stats.attack := 0; Stats.defense := 0;
     Stats.specialAttack := 0; Stats.specialDefense := 0; Stats.speed := 0 |}.

Definition _calculateStats (baseStats : Stats.t) (level : Z)
           (ivs evs : Stats.t) : Stats.t :=
  let other (stat : Stats.t -> Z) : Z :=
    Math.floor ((2 * stat baseStats + stat ivs
                 + Math.floor (stat evs / 4)) * level / 100 + 5) in
  {| Stats.hp :=
       Math.floor ((2 * Stats.hp baseStats + Stats.hp ivs
                    + Math.floor (Stats.hp evs / 4)) * level / 100)
       + level + 10;
     Stats.attack := other Stats.attack;
     Stats.defense := other Stats.defense;
     Stats.specialAttack := other Stats.specialAttack;
     Stats.specialDefense := other Stats.specialDefense;
     Stats.speed := other Stats.speed |}.

Definition _getAbilitiesForLevel (monsterData : MonsterData.t) (level : Z)
  : list string :=
  let entries := default [] (MonsterData.abilityLevels monsterData) in
  let abilities :=
    map fst (filter (fun e => bool_decide (snd e <= level)) entries) in
  let abilities :=
    sort_by (fun a => num_or (entry_lookup a entries) 0) abilities in
  slice_last 4 abilities.

Definition _getLevelExperience (level : Z) (growthRate : string) : Z :=
  if level <=? 0 then 0
  else if String.eqb growthRate "fast" then
    Math.floor (0.8 * Math.pow level 3)
  else if String.eqb growthRate "medium" then
    Math.floor (Math.pow level 3)
  else if String.eqb growthRate "slow" then
    Math.floor (1.25 * Math.pow level 3)
  else
    Math.floor (Math.pow level 3).

(** Under an id that only names a member of [Object.prototype],
    [monsterData] is that member and [monsterData.baseStats] is
    [undefined]: [_calculateStats] throws when it reads [baseStats.hp]. *)
Definition createMonster (monsterId : string) (level : Z)
           (options : CreateOptions.t) : M nat (option Monster.t) :=
  match DataManager.get dataManager DataManager.monsters monsterId with
  | DataManager.Null => ret None
  | DataManager.Inherited =>
    ivs <- match CreateOptions.ivs options with
           | Some ivs => ret ivs
           | None => _generateIVs
           end ;;
    throw (TypeError "Cannot read properties of undefined (reading 'hp')")
  | DataManager.Entry monsterData =>
    let level := if truthy_num level then level else 1 in
    ivs <- match CreateOptions.ivs options with
           | Some ivs => ret ivs
           | None => _generateIVs
           end ;;
    let evs := default _generateEVs (CreateOptions.evs options) in
    let stats :=
      _calculateStats (MonsterData.baseStats monsterData) level ivs evs in
    let abilities :=
      default (_getAbilitiesForLevel monsterData level)
              (CreateOptions.abilities options) in
    ret (Some {|
      Monster.id := MonsterData.id monsterData;
      Monster.name := MonsterData.name monsterData;
      Monster.type := MonsterData.type monsterData;
      Monster.level := level;
      Monster.experience :=
        _getLevelExperience level (MonsterData.growthRate monsterData);
      Monster.nextLevelExperience :=
        _getLevelExperience (level + 1) (MonsterData.growthRate monsterData);
      Monster.baseStats := MonsterData.baseStats monsterData;
      Monster.stats := stats;
      Monster.currentHp := Stats.hp stats;
      Monster.ivs := ivs;
      Monster.evs := evs;
      Monster.abilities := abilities;
      Monster.status := None;
      Monster.catchRate := MonsterData.catchRate monsterData;
      Monster.shape := MonsterData.shape monsterData |})
  end.

Definition getExperienceYield (monster : Monster.t) : Z :=
  match DataManager.get_monsters dataManager (Monster.id monster) with
  | None => 0
  | Some monsterData =>
    Math.floor (MonsterData.expYield monsterData * Monster.level monster / 7)
  end.

(** The loop of [awardExperience].  Every iteration raises the level by
    one and the loop stops at [MAX_MONSTER_LEVEL], so [iterations] is
    given as the distance to that level. *)
Fixpoint levelUpLoop (iterations : nat) (monsterData : MonsterData.t)
         (monster : Monster.t) (levelUp : bool) (newAbilities : list string)
  : Monster.t * bool * list string :=
  match iterations with
  | O => (monster, levelUp, newAbilities)
  | S iterations =>
    if (Monster.nextLevelExperience monster <=? Monster.experience monster)
       && (Monster.level monster <? GAME_CONFIG.MAX_MONSTER_LEVEL)
    then
      let monster := Monster.set_level (Monster.level monster + 1) monster in
      let levelUp := true in
      let newStats :=
        _calculateStats (Monster.baseStats monster) (Monster.level monster)
                        (Monster.ivs monster) (Monster.evs monster) in
      let hpDifference :=
        Stats.hp newStats - Stats.hp (Monster.stats monster) in
      let monster := Monster.set_stats newStats monster in
      let monster :=
        Monster.set_currentHp (Monster.currentHp monster + hpDifference)
                              monster in
      let newLevel := Monster.level monster in
      let newAbilities :=
        newAbilities ++
        map fst (filter (fun e => bool_decide (snd e = newLevel))
                        (default [] (MonsterData.abilityLevels monsterData))) in
      let monster :=
        Monster.set_nextLevelExperience
          (_getLevelExperience (Monster.level monster + 1)
                               (MonsterData.growthRate monsterData))
          monster in
      levelUpLoop iterations monsterData monster levelUp newAbilities
    else (monster, levelUp, newAbilities)
  end.

Definition awardExperience (monster : Monster.t) (amount : Z)
  : Monster.t * AwardResult.t :=
  match DataManager.get_monsters dataManager (Monster.id monster) with
  | None => (monster, AwardResult.NoData)
  | Some monsterData =>
    let originalLevel := Monster.level monster in
    let monster :=
      Monster.set_experience (Monster.experience monster + amount) monster in
    let '(monster, levelUp, newAbilities) :=
      levelUpLoop
        (Z.to_nat (GAME_CONFIG.MAX_MONSTER_LEVEL - Monster.level monster))
        monsterData monster false [] in
    let evolves :=
      levelUp &&
      match MonsterData.evolution monsterData with
      | Some evolution =>
        truthy_onum (Evolution.level evolution) &&
        bool_decide (default 0 (Evolution.level evolution)
                     <= Monster.level monster)
      | None => false
      end in
    let canEvolve := evolves in
    let evolutionId :=
      if evolves
      then from_option Evolution.evolvesTo None
                       (MonsterData.evolution monsterData)
      else None in
    (monster,
     AwardResult.Award levelUp (Monster.level monster - originalLevel)
                       newAbilities canEvolve evolutionId)
  end.

Definition evolveMonster (monster : Monster.t) : M nat Monster.t :=
  match DataManager.get_monsters dataManager (Monster.id monster) with
  | None => ret monster
  | Some monsterData =>
    match MonsterData.evolution monsterData with
    | None => ret monster
    | Some evolution =>
      if negb (truthy_ostr (Evolution.evolvesTo evolution)) then ret monster
      else
        let evolutionId := default "" (Evolution.evolvesTo evolution) in
        match DataManager.get dataManager DataManager.monsters evolutionId
        with
        | DataManager.Null => ret monster
        | _ =>
          created <- createMonster evolutionId (Monster.level monster)
                       {| CreateOptions.ivs := Some (Monster.ivs monster);
                          CreateOptions.evs := Some (Monster.evs monster);
                          CreateOptions.abilities := None |} ;;
          match created with
          | None => throw (TypeError "Cannot set properties of null")
          | Some evolvedMonster =>
            let evolvedMonster :=
              Monster.set_experience (Monster.experience monster)
                                     evolvedMonster in
            let evolvedMonster :=
              Monster.set_nextLevelExperience
                (Monster.nextLevelExperience monster) evolvedMonster in
            let hpRatio : Q :=
              Monster.currentHp monster /~ Stats.hp (Monster.stats monster) in
            let evolvedMonster :=
              Monster.set_currentHp
                (Math.floor (Stats.hp (Monster.stats evolvedMonster)
                             *~ hpRatio))
                evolvedMonster in
            ret evolvedMonster
          end
        end
    end
  end.

Definition getAbility (abilityId : string) : option AbilityData.t :=
  DataManager.get_abilities dataManager abilityId.

Definition applyDamage (monster : Monster.t) (damage : Z)
  : Monster.t * DamageResult.t :=
  let previousHp := Monster.currentHp monster in
  let monster :=
    Monster.set_currentHp (Math.max 0 (Monster.currentHp monster - damage))
                          monster in
  let fainted := Monster.currentHp monster =? 0 in
  let damagePercentage :=
    Math.floor (damage /~ Stats.hp (Monster.stats monster) *~ 100) in
  (monster,
   {| DamageResult.damage := damage;
      DamageResult.previousHp := previousHp;
      DamageResult.currentHp := Monster.currentHp monster;
      DamageResult.damagePercentage := damagePercentage;
      DamageResult.fainted := fainted |}).

(** [amount] is [None] when the argument is left out. *)
Definition healMonster (monster : Monster.t) (amount : option Z)
  : Monster.t * HealResult.t :=
  let previousHp := Monster.currentHp monster in
  let monster :=
    match amount with
    | None =>
      Monster.set_currentHp (Stats.hp (Monster.stats monster)) monster
    | Some amount =>
      Monster.set_currentHp
        (Math.min (Stats.hp (Monster.stats monster))
                  (Monster.currentHp monster + amount))
        monster
    end in
  let healAmount := Monster.currentHp monster - previousHp in
  let healPercentage :=
    Math.floor (healAmount /~ Stats.hp (Monster.stats monster) *~ 100) in
  (monster,
   {| HealResult.healAmount := healAmount;
      HealResult.previousHp := previousHp;
      HealResult.currentHp := Monster.currentHp monster;
      HealResult.healPercentage := healPercentage |}).

Definition applyStatus (monster : Monster.t) (status : option string)
  : Monster.t * bool :=
  if truthy_ostr (Monster.status monster) then (monster, false)
  else (Monster.set_status status monster, true).

Definition clearStatus (monster : Monster.t)
  : Monster.t * option string :=
  let previousStatus := Monster.status monster in
  (Monster.set_status None monster, previousStatus).

Definition calculateCatchProbability (monster : Monster.t)
           (options : CatchOptions.t) : Q :=
  let ballBonus : Q :=
    match CatchOptions.ballBonus options with
    | Some b => if Qeq_bool b 0 then 1%Q else b
    | None => 1%Q
    end in
  let statusBonus : Q :=
    (if CatchOptions.statusBonus options then 1.5 else 1)%Q in
  let maxHp := Stats.hp (Monster.stats monster) in
  let currentHp := Monster.currentHp monster in
  let catchRate := Monster.catchRate monster in
  let catchProbability : Q :=
    ((3 * maxHp - 2 * currentHp) * catchRate * ballBonus * statusBonus
     / (3 * maxHp))%Q in
  let clampedProbability := Qmin 255 (Qmax 0 catchProbability) in
  (clampedProbability / 255)%Q.

Definition attemptCatch (monster : Monster.t) (options : CatchOptions.t)
  : M nat bool :=
  let probability := calculateCatchProbability monster options in
  r <- Math_random_call ;;
  ret (Qltb r probability).

End MonsterSystem.

(** ** BattleSystem: records *)

(** A reference to a monster object: its index in the store. *)
Definition ref : Type := nat.

Module BattleResult.
Record t := mk {
  winner : option string;
  caught : bool;
  monster : option ref;
  escaped : bool;
  needSwitch : bool;
  canEvolve : bool;
  evolutionData : option (ref * option string) }.

Definition won (who : string) : t :=
  mk (Some who) false None false false false None.
Definition set_evolution (user : ref) (evolutionId : option string) (r : t)
  : t :=
  mk (winner r) (caught r) (monster r) (escaped r) (needSwitch r) true
     (Some (user, evolutionId)).
End BattleResult.

Module BattleState.
Record t := mk {
  active : bool;
  turn : Z;
  playerTeam : list ref;
  enemyTeam : list ref;
  activePlayerMonster : option ref;
  activeEnemyMonster : option ref;
  battleType : string;
  weather : option string;
  field : option string;
  trainer : option string;
  runAttempts : option Z;
  result : option BattleResult.t }.

Definition initial : t :=
  mk false 0 [] [] None None "wild" None None None None None.

Definition set_active (v : bool) (s : t) : t :=
  mk v (turn s) (playerTeam s) (enemyTeam s) (activePlayerMonster s)
     (activeEnemyMonster s) (battleType s) (weather s) (field s)
     (trainer s) (runAttempts s) (result s).
Definition set_turn (v : Z) (s : t) : t :=
  mk (active s) v (playerTeam s) (enemyTeam s) (activePlayerMonster s)
     (activeEnemyMonster s) (battleType s) (weather s) (field s)
     (trainer s) (runAttempts s) (result s).
Definition set_activePlayerMonster (v : option ref) (s : t) : t :=
  mk (active s) (turn s) (playerTeam s) (enemyTeam s) v
     (activeEnemyMonster s) (battleType s) (weather s) (field s)
     (trainer s) (runAttempts s) (result s).
Definition set_activeEnemyMonster (v : option ref) (s : t) : t :=
  mk (active s) (turn s) (playerTeam s) (enemyTeam s)
     (activePlayerMonster s) v (battleType s) (weather s) (field s)
     (trainer s) (runAttempts s) (result s).
Definition set_runAttempts (v : option Z) (s : t) : t :=
  mk (active s) (turn s) (playerTeam s) (enemyTeam s)
     (activePlayerMonster s) (activeEnemyMonster s) (battleType s)
     (weather s) (field s) (trainer s) v (result s).
Definition set_result (v : option BattleResult.t) (s : t) : t :=
  mk (active s) (turn s) (playerTeam s) (enemyTeam s)
     (activePlayerMonster s) (activeEnemyMonster s) (battleType s)
     (weather s) (field s) (trainer s) (runAttempts s) v.
End BattleState.

(** A cell of the type chart literal as the constructor writes it: a
    number, or an identifier to be resolved in the enclosing scope. *)
Inductive ChartCell : Type :=
| Num (q : Q)
| Ident (name : string).

(** The BattleSystem object.  [_typeChart] is an object of objects, read
    by own key. *)
Module BattleSystem.
Record t := mk {
  _typeChart : gmap string (gmap string Q);
  _battleState : BattleState.t }.
Definition set_battleState (v : BattleState.t) (b : t) : t :=
  mk (_typeChart b) v.
End BattleSystem.

(** What the engine runs in: the BattleSystem object, the monster objects
    it refers to, and the number of [Math.random()] calls made so far. *)
Module World.
Record t := mk {
  this : BattleSystem.t;
  heap : list Monster.t;
  calls : nat }.
Definition set_this (v : BattleSystem.t) (w : t) : t :=
  mk v (heap w) (calls w).
Definition set_heap (v : list Monster.t) (w : t) : t :=
  mk (this w) v (calls w).
Definition set_calls (v : nat) (w : t) : t :=
  mk (this w) (heap w) v.
End World.

Inductive EffectResult : Type :=
| StatEffect (target : string) (stat : option string) (stages : option Z)
| StatusEffect (target : string) (status : option string) (applied : bool)
| HealingEffect (target : string) (amount : Z).

Module AbilityResult.
Record t := mk {
  user : string;
  target : string;
  ability : string;
  damage : Z;
  typeEffectiveness : Q;
  effects : list EffectResult;
  damageResult : option DamageResult.t;
  battleEnded : bool;
  battleResult : option BattleResult.t;
  message : string }.
End AbilityResult.

(** The record an action returns, by shape. *)
Inductive ActionResult : Type :=
| Fail (message : string)
| Miss (message : string)
| AbilityHit (r : AbilityResult.t)
| Healed (target : string) (amount : Z) (message : string)
| CatchAttempt (caught : bool) (monster : string)
               (battleResult : option BattleResult.t) (message : string)
| Switched (team previous current message : string)
| Ran (escaped : bool) (battleResult : option BattleResult.t)
      (message : string).

(** [result.success] and [result.battleEnded] ([undefined] is falsy). *)
Definition success (r : ActionResult) : bool :=
  match r with Fail _ => false | _ => true end.

Definition battleEnded (r : ActionResult) : bool :=
  match r with
  | AbilityHit a => AbilityResult.battleEnded a
  | CatchAttempt caught _ _ _ => caught
  | Ran escaped _ _ => escaped
  | _ => false
  end.

(** What [executePlayerAction] returns: the player's record, with the
    enemy's record under [enemyAction] when one was resolved. *)
Module PlayerActionResult.
Record t := mk {
  result : ActionResult;
  enemyAction : option ActionResult }.
End PlayerActionResult.

Module Action.
Record t := mk {
  type : string;
  targetId : option string;
  abilityId : string;
  itemId : string;
  switchIndex : Z }.
End Action.

Inductive EnemyTeamArg : Type :=
| TeamArray (team : list ref)
| SingleMonster (monster : ref).

Module StartOptions.
Record t := mk {
  playerTeam : option (list ref);
  enemyTeam : option EnemyTeamArg;
  battleType : option string;
  trainer : option string }.
End StartOptions.

(** ** BattleSystem: the type chart *)

(** The object literal assigned to [this._typeChart] in the constructor. *)
Definition typeChart_literal : list (string * list (string * ChartCell)) :=
  [
    ("normal", [
      ("normal", Num 1); ("fire", Num 1); ("water", Num 1); ("grass", Num 1); ("electric", Num 1);
      ("ice", Num 1); ("fighting", Num 1); ("poison", Num 1); ("ground", Num 1); ("flying", Num 1);
      ("psychic", Num 1); ("bug", Num 1); ("rock", Num 0.5); ("ghost", Num 0); ("dragon", Num 1) ]);
    ("fire", [
      ("normal", Num 1); ("fire", Num 0.5); ("water", Num 0.5); ("grass", Num 2); ("electric", Num 1);
      ("ice", Num 2); ("fighting", Num 1); ("poison", Num 1); ("ground", Num 1); ("flying", Num 1);
      ("psychic", Num 1); ("bug", Num 2); ("rock", Num 0.5); ("ghost", Num 1); ("dragon", Num 0.5) ]);
    ("water", [
      ("normal", Num 1); ("fire", Num 2); ("water", Num 0.5); ("grass", Num 0.5); ("electric", Num 1);
      ("ice", Num 1); ("fighting", Num 1); ("poison", Num 1); ("ground", Num 2); ("flying", Num 1);
      ("psychic", Num 1); ("bug", Num 1); ("rock", Num 2); ("ghost", Num 1); ("dragon", Num 0.5) ]);
    ("grass", [
      ("normal", Num 1); ("fire", Num 0.5); ("water", Num 2); ("grass", Num 0.5); ("electric", Num 1);
      ("ice", Num 1); ("fighting", Num 1); ("poison", Num 0.5); ("ground", Num 2); ("flying", Num 0.5);
      ("psychic", Num 1); ("bug", Num 0.5); ("rock", Num 2); ("ghost", Num 1); ("dragon", Num 0.5) ]);
    ("electric", [
      ("normal", Num 1); ("fire", Num 1); ("water", Num 2); ("grass", Num 0.5); ("electric", Num 0.5);
      ("ice", Num 1); ("fighting", Num 1); ("poison", Num 1); ("ground", Num 0); ("flying", Num 2);
      ("psychic", Num 1); ("bug", Num 1); ("rock", Num 1); ("ghost", Num 1); ("dragon", Num 0.5) ]);
    ("ice", [
      ("normal", Num 1); ("fire", Num 0.5); ("water", Num 0.5); ("grass", Num 2); ("electric", Num 1);
      ("ice", Num 0.5); ("fighting", Num 1); ("poison", Num 1); ("ground", Num 2); ("flying", Num 2);
      ("psychic", Num 1); ("bug", Num 1); ("rock", Num 1); ("ghost", Num 1); ("dragon", Num 2) ]);
    ("fighting", [
      ("normal", Num 2); ("fire", Num 1); ("water", Ident "A"); ("grass", Num 1); ("electric", Num 1);
      ("ice", Num 2); ("fighting", Num 1); ("poison", Num 0.5); ("ground", Num 1); ("flying", Num 0.5);
      ("psychic", Num 0.5); ("bug", Num 0.5); ("rock", Num 2); ("ghost", Num 0); ("dragon", Num 1) ]);
    ("poison", [
      ("normal", Num 1); ("fire", Num 1); ("water", Num 1); ("grass", Num 2); ("electric", Num 1);
      ("ice", Num 1); ("fighting", Num 1); ("poison", Num 0.5); ("ground", Num 0.5); ("flying", Num 1);
      ("psychic", Num 1); ("bug", Num 1); ("rock", Num 0.5); ("ghost", Num 0.5); ("dragon", Num 1) ]);
    ("ground", [
      ("normal", Num 1); ("fire", Num 2); ("water", Num 1); ("grass", Num 0.5); ("electric", Num 2);
      ("ice", Num 1); ("fighting", Num 1); ("poison", Num 2); ("ground", Num 1); ("flying", Num 0);
      ("psychic", Num 1); ("bug", Num 0.5); ("rock", Num 2); ("ghost", Num 1); ("dragon", Num 1) ]);
    ("flying", [
      ("normal", Num 1); ("fire", Num 1); ("water", Num 1); ("grass", Num 2); ("electric", Num 0.5);
      ("ice", Num 1); ("fighting", Num 2); ("poison", Num 1); ("ground", Num 1); ("flying", Num 1);
      ("psychic", Num 1); ("bug", Num 2); ("rock", Num 0.5); ("ghost", Num 1); ("dragon", Num 1) ]);
    ("psychic", [
      ("normal", Num 1); ("fire", Num 1); ("water", Num 1); ("grass", Num 1); ("electric", Num 1);
      ("ice", Num 1); ("fighting", Num 2); ("poison", Num 2); ("ground", Num 1); ("flying", Num 1);
      ("psychic", Num 0.5); ("bug", Num 1); ("rock", Num 1); ("ghost", Num 1); ("dragon", Num 1) ]);
    ("bug", [
      ("normal", Num 1); ("fire", Num 0.5); ("water", Num 1); ("grass", Num 2); ("electric", Num 1);
      ("ice", Num 1); ("fighting", Num 0.5); ("poison", Num 0.5); ("ground", Num 1); ("flying", Num 0.5);
      ("psychic", Num 2); ("bug", Num 1); ("rock", Num 1); ("ghost", Num 0.5); ("dragon", Num 1) ]);
    ("rock", [
      ("normal", Num 1); ("fire", Num 2); ("water", Num 1); ("grass", Num 1); ("electric", Num 1);
      ("ice", Num 2); ("fighting", Num 0.5); ("poison", Num 1); ("ground", Num 0.5); ("flying", Num 2);
      ("psychic", Num 1); ("bug", Num 2); ("rock", Num 1); ("ghost", Num 1); ("dragon", Num 1) ]);
    ("ghost", [
      ("normal", Num 0); ("fire", Num 1); ("water", Num 1); ("grass", Num 1); ("electric", Num 1);
      ("ice", Num 1); ("fighting", Num 1); ("poison", Num 1); ("ground", Num 1); ("flying", Num 1);
      ("psychic", Num 2); ("bug", Num 1); ("rock", Num 1); ("ghost", Num 2); ("dragon", Num 1) ]);
    ("dragon", [
      ("normal", Num 1); ("fire", Num 1); ("water", Num 1); ("grass", Num 1); ("electric", Num 1);
      ("ice", Num 1); ("fighting", Num 1); ("poison", Num 1); ("ground", Num 1); ("flying", Num 1);
      ("psychic", Num 1); ("bug", Num 1); ("rock", Num 1); ("ghost", Num 1); ("dragon", Num 2) ]) ].

(** Evaluation of a cell in a scope that binds identifiers to numbers: a
    free identifier raises a ReferenceError. *)
Definition eval_cell (scope : gmap string Q) (c : ChartCell) : outcome Q :=
  match c with
  | Num q => Returned q
  | Ident x =>
    match scope !! x with
    | Some q => Returned q
    | None => Thrown (ReferenceError x)
    end
  end.

(** Evaluation of an object literal: the properties in order, a later key
    replacing an earlier one. *)
Fixpoint eval_object {A B} (eval : A -> outcome B)
         (props : list (string * A)) (acc : gmap string B)
  : outcome (gmap string B) :=
  match props with
  | [] => Returned acc
  | (k, a) :: rest =>
    match eval a with
    | Returned b => eval_object eval rest (<[k := b]> acc)
    | Thrown e => Thrown e
    end
  end.

Definition eval_typeChart (scope : gmap string Q)
  : outcome (gmap string (gmap string Q)) :=
  eval_object (fun row => eval_object (eval_cell scope) row ∅)
              typeChart_literal ∅.

(** [new BattleSystem(scene)] *)
Definition new_BattleSystem (scope : gmap string Q) : outcome BattleSystem.t :=
  match eval_typeChart scope with
  | Returned chart =>
    Returned {| BattleSystem._typeChart := chart;
                BattleSystem._battleState := BattleState.initial |}
  | Thrown e => Thrown e
  end.

(** The numbers bound in the scope of the scripts of the page.
    constants.js declares objects only (SCENES, GAME_CONFIG, ENTITY_TYPES,
    TILE_TYPES, MONSTER_TYPES, MONSTER_STATS, ITEM_TYPES, DIRECTIONS, EVENTS,
    COLORS); the other scripts declare classes and [dataManager]. *)
Definition page_scope : gmap string Q := ∅.

(** The chart is read by its own keys: a type name that names a member of
    [Object.prototype] has no multiplier here, while the code finds the
    member under it. *)
Definition _calculateTypeEffectiveness (this : BattleSystem.t)
           (attackType defenderType : string) : Q :=
  match BattleSystem._typeChart this !! attackType with
  | Some row =>
    match row !! defenderType with
    | Some multiplier => multiplier
    | None => 1%Q
    end
  | None => 1%Q
  end.

(** ** BattleSystem: the methods *)

Section BattleSystemMethods.

Variable dataManager : DataManager.t.
Variable Math_random : nat -> Q.

Definition B (A : Type) : Type := M World.t A.

Definition lift_calls {A} (c : M nat A) : B A :=
  fun w => match c (World.calls w) with
           | Returned (v, n) => Returned (v, World.set_calls n w)
           | Thrown e => Thrown e
           end.

Definition random : B Q := lift_calls (Math_random_call Math_random).

(** Reading a property of the object behind a reference. *)
Definition deref (r : ref) : B Monster.t :=
  fun w => match World.heap w !! r with
           | Some m => Returned (m, w)
           | None => Thrown (TypeError "Cannot read properties of undefined")
           end.

(** Reading a property through a reference that may be [null]. *)
Definition nonnull (o : option ref) : B ref :=
  match o with
  | Some r => ret r
  | None => throw (TypeError "Cannot read properties of null")
  end.

Definition store (r : ref) (m : Monster.t) : B unit :=
  modify (fun w => World.set_heap (<[r := m]> (World.heap w)) w).

(** A MonsterSystem method run on the object behind [r]. *)
Definition mutate {A} (r : ref) (method : Monster.t -> Monster.t * A) : B A :=
  m <- deref r ;;
  store r (fst (method m)) ;;;
  ret (snd (method m)).

Definition battleState : B BattleState.t :=
  fun w => Returned (BattleSystem._battleState (World.this w), w).

Definition update_battleState (f : BattleState.t -> BattleState.t) : B unit :=
  modify (fun w =>
    World.set_this
      (BattleSystem.set_battleState
         (f (BattleSystem._battleState (World.this w))) (World.this w)) w).

Definition startBattle (options : StartOptions.t) : B BattleState.t :=
  let playerTeam := default [] (StartOptions.playerTeam options) in
  let enemyTeam :=
    match StartOptions.enemyTeam options with
    | None => []
    | Some (TeamArray team) => team
    | Some (SingleMonster monster) => [monster]
    end in
  let state :=
    {| BattleState.active := true;
       BattleState.turn := 0;
       BattleState.playerTeam := playerTeam;
       BattleState.enemyTeam := enemyTeam;
       BattleState.activePlayerMonster := head playerTeam;
       BattleState.activeEnemyMonster := head enemyTeam;
       BattleState.battleType :=
         match StartOptions.battleType options with
         | Some t => if truthy_str t then t else "wild"
         | None => "wild"
         end;
       BattleState.weather := None;
       BattleState.field := None;
       BattleState.trainer := StartOptions.trainer options;
       BattleState.runAttempts := None;
       BattleState.result := None |} in
  update_battleState (fun _ => state) ;;;
  ret state.

Definition endBattle (result : BattleResult.t) : B BattleState.t :=
  update_battleState (BattleState.set_active false) ;;;
  update_battleState (BattleState.set_result (Some result)) ;;;
  battleState.

Definition getBattleState : B BattleState.t := battleState.

(** The loop of [_getNextMonster]: the first monster of the team that is
    not the active one and has hit points left. *)
Fixpoint first_available (currentActive : option ref) (teamArray : list ref)
  : B (option ref) :=
  match teamArray with
  | [] => ret None
  | monster :: rest =>
    if bool_decide (Some monster = currentActive)
    then first_available currentActive rest
    else
      m <- deref monster ;;
      if 0 <? Monster.currentHp m then ret (Some monster)
      else first_available currentActive rest
  end.

Definition _getNextMonster (team : string) : B (option ref) :=
  s <- battleState ;;
  let teamArray :=
    if String.eqb team "player" then BattleState.playerTeam s
    else BattleState.enemyTeam s in
  let currentActive :=
    if String.eqb team "player" then BattleState.activePlayerMonster s
    else BattleState.activeEnemyMonster s in
  first_available currentActive teamArray.

(** One ability effect: the body of the [forEach] over [ability.effects].
    An effect of another type than stat, status and healing gives no
    record. *)
Definition apply_effect (user target : ref) (effect : Effect.t)
  : B (option EffectResult) :=
  let effectChance := num_or (Effect.chance effect) 100 in
  r <- random ;;
  let effectSuccess := Qleb (r *~ 100) effectChance in
  if effectSuccess then
    let effectTarget :=
      if String.eqb (Effect.target effect) "user" then user else target in
    if String.eqb (Effect.type effect) "stat" then
      statTarget <- deref effectTarget ;;
      ret (Some (StatEffect (Monster.name statTarget) (Effect.stat effect)
                            (Effect.stages effect)))
    else if String.eqb (Effect.type effect) "status" then
      statusApplied <-
        mutate effectTarget (fun m => applyStatus m (Effect.status effect)) ;;
      statusTarget <- deref effectTarget ;;
      ret (Some (StatusEffect (Monster.name statusTarget)
                              (Effect.status effect) statusApplied))
    else if String.eqb (Effect.type effect) "healing" then
      healingTarget <- deref effectTarget ;;
      let healAmount :=
        Math.floor (Stats.hp (Monster.stats healingTarget)
                    *~ (Effect.percentage effect /~ 100)) in
      healResult <-
        mutate effectTarget (fun m => healMonster m (Some healAmount)) ;;
      ret (Some (HealingEffect (Monster.name healingTarget)
                               (HealResult.healAmount healResult)))
    else ret None
  else ret None.

Fixpoint apply_effects (user target : ref) (effects : list Effect.t)
  : B (list EffectResult) :=
  match effects with
  | [] => ret []
  | effect :: rest =>
    effectResult <- apply_effect user target effect ;;
    effectResults <- apply_effects user target rest ;;
    ret (match effectResult with
         | Some r => r :: effectResults
         | None => effectResults
         end)
  end.

(** The damage of a physical or special ability that hit. *)
Definition calculate_damage (ability : AbilityData.t) (user target : ref)
  : B (Z * Q) :=
  userM <- deref user ;;
  targetM <- deref target ;;
  let physical := String.eqb (AbilityData.category ability) "physical" in
  let attackStat :=
    if physical then Stats.attack (Monster.stats userM)
    else Stats.specialAttack (Monster.stats userM) in
  let defenseStat :=
    if physical then Stats.defense (Monster.stats targetM)
    else Stats.specialDefense (Monster.stats targetM) in
  let baseDamage : Q :=
    (2 *~ Monster.level userM /~ 5 +~ 2) *~ AbilityData.power ability
    *~ attackStat /~ defenseStat /~ 50 +~ 2 in
  let stab : Q :=
    (if String.eqb (AbilityData.type ability) (Monster.type userM)
     then 1.5 else 1)%Q in
  w <- get_state ;;
  let typeEffectiveness :=
    _calculateTypeEffectiveness (World.this w) (AbilityData.type ability)
                                (Monster.type targetM) in
  r <- random ;;
  let random : Q := Double.round 0.85 +~ r *~ Double.round 0.15 in
  ret (Math.floor (baseDamage *~ stab *~ typeEffectiveness *~ random),
       typeEffectiveness).

(** The end-of-battle check of [_executeAbility], run when the target
    fainted: gives [battleEnded] and [battleResult]. *)
Definition check_battle_end (user target : ref)
  : B (bool * option BattleResult.t) :=
  s <- battleState ;;
  if bool_decide (Some target = BattleState.activeEnemyMonster s) then
    nextEnemyMonster <- _getNextMonster "enemy" ;;
    match nextEnemyMonster with
    | Some next =>
      update_battleState (BattleState.set_activeEnemyMonster (Some next)) ;;;
      ret (false, None)
    | None =>
      let battleResult := BattleResult.won "player" in
      targetM <- deref target ;;
      let expYield := getExperienceYield dataManager targetM in
      expResult <-
        mutate user (fun m => awardExperience dataManager m expYield) ;;
      let battleResult :=
        if AwardResult.canEvolve expResult
        then BattleResult.set_evolution
               user (AwardResult.evolutionId expResult) battleResult
        else battleResult in
      endBattle battleResult ;;;
      ret (true, Some battleResult)
    end
  else if bool_decide (Some target = BattleState.activePlayerMonster s) then
    nextPlayerMonster <- _getNextMonster "player" ;;
    match nextPlayerMonster with
    | Some _ =>
      ret (false,
           Some (BattleResult.mk None false None false true false None))
    | None =>
      let battleResult := BattleResult.won "enemy" in
      endBattle battleResult ;;;
      ret (true, Some battleResult)
    end
  else ret (false, None).

Definition effectiveness_message (typeEffectiveness : Q) : string :=
  if Qltb 1 typeEffectiveness then " It's super effective!"
  else if Qltb typeEffectiveness 1 && Qltb 0 typeEffectiveness
  then " It's not very effective..."
  else if Qeq_bool typeEffectiveness 0 then " It has no effect!"
  else "".

(** [target] is the enemy's or the player's active monster and may be
    [null]; every path after the accuracy roll reads one of its
    properties, which is where the reference is checked here. *)
Definition _executeAbility (user : ref) (target : option ref)
           (abilityId : string) : B ActionResult :=
  match getAbility dataManager abilityId with
  | None => ret (Fail "Ability not found")
  | Some ability =>
    userM <- deref user ;;
    if negb (bool_decide (abilityId ∈ Monster.abilities userM)) then
      ret (Fail "Monster does not know this ability")
    else
      let accuracy := AbilityData.accuracy ability in
      r <- random ;;
      let hitSuccess := Qleb (r *~ 100) accuracy in
      if negb hitSuccess then
        ret (Miss (Monster.name userM +:+ "'s "
                   +:+ AbilityData.name ability +:+ " missed!"))
      else
        target <- nonnull target ;;
        dmg <-
          (if String.eqb (AbilityData.category ability) "physical"
              || String.eqb (AbilityData.category ability) "special"
           then calculate_damage ability user target
           else ret (0, 1%Q)) ;;
        let damage := fst dmg in
        let typeEffectiveness := snd dmg in
        damageResult <-
          (if 0 <? damage then
             dr <- mutate target (fun m => applyDamage m damage) ;;
             ret (Some dr)
           else ret None) ;;
        effectResults <-
          apply_effects user target
                        (default [] (AbilityData.effects ability)) ;;
        ended <-
          (if from_option DamageResult.fainted false damageResult
           then check_battle_end user target
           else ret (false, None)) ;;
        userM <- deref user ;;
        targetM <- deref target ;;
        ret (AbilityHit
               {| AbilityResult.user := Monster.name userM;
                  AbilityResult.target := Monster.name targetM;
                  AbilityResult.ability := AbilityData.name ability;
                  AbilityResult.damage := damage;
                  AbilityResult.typeEffectiveness := typeEffectiveness;
                  AbilityResult.effects := effectResults;
                  AbilityResult.damageResult := damageResult;
                  AbilityResult.battleEnded := fst ended;
                  AbilityResult.battleResult := snd ended;
                  AbilityResult.message :=
                    Monster.name userM +:+ " used "
                    +:+ AbilityData.name ability +:+ "!"
                    +:+ effectiveness_message typeEffectiveness |})
  end.

(** The search of [_useItem] for the party member with the given id:
    the last match wins. *)
Fixpoint find_target (targetId : string) (team : list ref)
         (target : option ref) : B (option ref) :=
  match team with
  | [] => ret target
  | monster :: rest =>
    m <- deref monster ;;
    find_target targetId rest
                (if String.eqb (Monster.id m) targetId then Some monster
                 else target)
  end.

Definition _useItem (itemId : string) (targetId : option string)
  : B ActionResult :=
  match DataManager.get_items dataManager itemId with
  | None => ret (Fail "Item not found")
  | Some item =>
    s <- battleState ;;
    target <-
      (if truthy_ostr targetId
       then find_target (default "" targetId) (BattleState.playerTeam s) None
       else ret (BattleState.activePlayerMonster s)) ;;
    match target with
    | None => ret (Fail "Target monster not found")
    | Some target =>
      if String.eqb (ItemData.type item) ITEM_TYPES.POTION then
        let healAmount :=
          num_or (ItemEffect.amount (ItemData.effect item)) 20 in
        healResult <-
          mutate target (fun m => healMonster m (Some healAmount)) ;;
        targetM <- deref target ;;
        ret (Healed (Monster.name targetM)
                    (HealResult.healAmount healResult)
                    ("Used " +:+ ItemData.name item +:+ " on "
                     +:+ Monster.name targetM +:+ ". Restored "
                     +:+ pretty (HealResult.healAmount healResult)
                     +:+ " HP!"))
      else if String.eqb (ItemData.type item) ITEM_TYPES.BALL then
        if negb (String.eqb (BattleState.battleType s) "wild") then
          ret (Fail "Can't use this on a trainer's monster!")
        else
          let ballBonus : Q :=
            match ItemEffect.catchRate (ItemData.effect item) with
            | Some b => if Qeq_bool b 0 then 1%Q else b
            | None => 1%Q
            end in
          enemy <- nonnull (BattleState.activeEnemyMonster s) ;;
          enemyM <- deref enemy ;;
          catchResult <-
            lift_calls
              (attemptCatch Math_random enemyM
                 {| CatchOptions.ballBonus := Some ballBonus;
                    CatchOptions.statusBonus :=
                      bool_decide (Monster.status enemyM <> None) |}) ;;
          if catchResult then
            let battleResult :=
              BattleResult.mk (Some "player") true (Some enemy) false false
                              false None in
            endBattle battleResult ;;;
            ret (CatchAttempt true (Monster.name enemyM) (Some battleResult)
                              ("Caught " +:+ Monster.name enemyM +:+ "!"))
          else
            ret (CatchAttempt false (Monster.name enemyM) None
                              (Monster.name enemyM +:+ " broke free!"))
      else ret (Fail "Item cannot be used in battle")
    end
  end.

Definition _switchMonster (team : string) (index : Z) : B ActionResult :=
  s <- battleState ;;
  let player := String.eqb team "player" in
  let teamArray :=
    if player then BattleState.playerTeam s else BattleState.enemyTeam s in
  if (index <? 0) || (Z.of_nat (length teamArray) <=? index) then
    ret (Fail "Invalid monster index")
  else
    let currentActive :=
      if player then BattleState.activePlayerMonster s
      else BattleState.activeEnemyMonster s in
    chosen <- nonnull (teamArray !! Z.to_nat index) ;;
    if bool_decide (currentActive = Some chosen) then
      ret (Fail "Monster is already active")
    else
      chosenM <- deref chosen ;;
      if Monster.currentHp chosenM <=? 0 then
        ret (Fail "Cannot switch to fainted monster")
      else if player then
        update_battleState
          (BattleState.set_activePlayerMonster (Some chosen)) ;;;
        previousMonster <- nonnull currentActive ;;
        previousM <- deref previousMonster ;;
        ret (Switched "player" (Monster.name previousM)
                      (Monster.name chosenM)
                      ("Go, " +:+ Monster.name chosenM +:+ "!"))
      else
        update_battleState
          (BattleState.set_activeEnemyMonster (Some chosen)) ;;;
        previousMonster <- nonnull currentActive ;;
        previousM <- deref previousMonster ;;
        ret (Switched "enemy" (Monster.name previousM)
                      (Monster.name chosenM)
                      ("Enemy sent out " +:+ Monster.name chosenM +:+ "!")).


Definition _attemptRun : B ActionResult :=
  s <- battleState ;;
  if negb (String.eqb (BattleState.battleType s) "wild") then
    ret (Fail "Can't run from a trainer battle!")
  else
    player <- nonnull (BattleState.activePlayerMonster s) ;;
    playerM <- deref player ;;
    let playerSpeed := Stats.speed (Monster.stats playerM) in
    enemy <- nonnull (BattleState.activeEnemyMonster s) ;;
    enemyM <- deref enemy ;;
    let enemySpeed := Stats.speed (Monster.stats enemyM) in
    let runAttempts := num_or (BattleState.runAttempts s) 0 + 1 in
    update_battleState (BattleState.set_runAttempts (Some runAttempts)) ;;;
    let escapeChance :=
      Math.floor (playerSpeed * 128 / enemySpeed + 30 * runAttempts) in
    r <- random ;;
    let randomValue := Math.floor (r * 256) in
    let escaped := randomValue <? escapeChance in
    if escaped then
      let battleResult :=
        BattleResult.mk None false None true false false None in
      endBattle battleResult ;;;
      ret (Ran true (Some battleResult) "Got away safely!")
    else
      ret (Ran false None "Couldn't escape!").

Definition _executeEnemyAction : B ActionResult :=
  s <- battleState ;;
  match BattleState.activeEnemyMonster s with
  | None => ret (Fail "No active enemy monster")
  | Some enemyMonster =>
    enemyM <- deref enemyMonster ;;
    let abilities := Monster.abilities enemyM in
    if (length abilities =? 0)%nat then ret (Fail "Enemy has no abilities")
    else
      r <- random ;;
      let index := Math.floor (r * Z.of_nat (length abilities)) in
      match abilities !! Z.to_nat index with
      | Some randomAbilityId =>
        _executeAbility enemyMonster (BattleState.activePlayerMonster s)
                        randomAbilityId
      | None => ret (Fail "Ability not found")
      end
  end.

(** The body of the [forEach] of [_applyStatusEffects]. *)
Definition apply_status_effect (monster : option ref) : B unit :=
  match monster with
  | None => ret tt
  | Some monster =>
    m <- deref monster ;;
    match Monster.status m with
    | None => ret tt
    | Some status =>
      if String.eqb status "burn" then
        let burnDamage :=
          Math.max 1 (Math.floor (Stats.hp (Monster.stats m) / 8)) in
        mutate monster (fun m => applyDamage m burnDamage) ;;;
        ret tt
      else if String.eqb status "poison" then
        let poisonDamage :=
          Math.max 1 (Math.floor (Stats.hp (Monster.stats m) / 8)) in
        mutate monster (fun m => applyDamage m poisonDamage) ;;;
        ret tt
      else ret tt
    end
  end.

Definition _applyStatusEffects : B unit :=
  s <- battleState ;;
  let activeMonsters :=
    [BattleState.activePlayerMonster s; BattleState.activeEnemyMonster s] in
  (fix each (l : list (option ref)) : B unit :=
     match l with
     | [] => ret tt
     | monster :: rest => apply_status_effect monster ;;; each rest
     end) activeMonsters.

(** The weather cases are empty. *)
Definition _applyWeatherEffects : B unit := ret tt.

Definition _startNewTurn : B unit :=
  update_battleState
    (fun s => BattleState.set_turn (BattleState.turn s + 1) s) ;;;
  _applyStatusEffects ;;;
  _applyWeatherEffects.

Definition executePlayerAction (action : Action.t)
  : B PlayerActionResult.t :=
  s <- battleState ;;
  if negb (BattleState.active s) then
    ret (PlayerActionResult.mk (Fail "Battle is not active") None)
  else
    match BattleState.activePlayerMonster s with
    | None =>
      ret (PlayerActionResult.mk (Fail "No active player monster") None)
    | Some activePlayerMonster =>
      result <-
        (if String.eqb (Action.type action) "ability" then
           _executeAbility activePlayerMonster
                           (BattleState.activeEnemyMonster s)
                           (Action.abilityId action)
         else if String.eqb (Action.type action) "item" then
           _useItem (Action.itemId action) (Action.targetId action)
         else if String.eqb (Action.type action) "switch" then
           _switchMonster "player" (Action.switchIndex action)
         else if String.eqb (Action.type action) "run" then
           _attemptRun
         else ret (Fail "Invalid action type")) ;;
      enemyAction <-
        (if success result && negb (battleEnded result) then
           enemyResult <- _executeEnemyAction ;;
           ret (Some enemyResult)
         else ret None) ;;
      (if success result && negb (battleEnded result) then _startNewTurn
       else ret tt) ;;;
      ret (PlayerActionResult.mk result enemyAction)
    end.

End BattleSystemMethods.

(** * Sample data *)

(** The species and the ability of the documentation's examples, a second
    species for the first to evolve into, a physical ability and two items. *)
Module Sample.
Definition embercub : MonsterData.t :=
  {| MonsterData.id := "monster-001";
     MonsterData.name := "Embercub";
     MonsterData.type := "fire";
     MonsterData.baseStats := Stats.mk 45 60 40 70 50 45;
     MonsterData.abilities :=
       ["ember"; "scratch"; "growl"; "fire-fang"; "flamethrower"];
     MonsterData.abilityLevels :=
       Some [("ember", 1); ("scratch", 1); ("growl", 5); ("fire-fang", 12);
             ("flamethrower", 20)];
     MonsterData.evolution :=
       Some (Evolution.mk (Some "monster-002") (Some 16) None None);
     MonsterData.catchRate := 45;
     MonsterData.expYield := 62;
     MonsterData.growthRate := "medium";
     MonsterData.shape := Some (Shape.mk "circle" 14423100 16729344) |}.

Definition blazebear : MonsterData.t :=
  {| MonsterData.id := "monster-002";
     MonsterData.name := "Blazebear";
     MonsterData.type := "fire";
     MonsterData.baseStats := Stats.mk 65 80 60 90 70 65;
     MonsterData.abilities :=
       ["ember"; "scratch"; "growl"; "fire-fang"; "flamethrower"];
     MonsterData.abilityLevels :=
       Some [("ember", 1); ("scratch", 1); ("growl", 5); ("fire-fang", 12);
             ("flamethrower", 20)];
     MonsterData.evolution := None;
     MonsterData.catchRate := 45;
     MonsterData.expYield := 142;
     MonsterData.growthRate := "medium";
     MonsterData.shape := Some (Shape.mk "square" 14423100 16729344) |}.

Definition ember : AbilityData.t :=
  {| AbilityData.id := "ember";
     AbilityData.name := "Ember";
     AbilityData.type := "fire";
     AbilityData.category := "special";
     AbilityData.power := 40;
     AbilityData.accuracy := 100;
     AbilityData.effects :=
       Some [Effect.mk "status" "target" None None (Some "burn") 0
                       (Some 10)] |}.

Definition scratch : AbilityData.t :=
  {| AbilityData.id := "scratch";
     AbilityData.name := "Scratch";
     AbilityData.type := "normal";
     AbilityData.category := "physical";
     AbilityData.power := 40;
     AbilityData.accuracy := 100;
     AbilityData.effects := None |}.

Definition growl : AbilityData.t :=
  {| AbilityData.id := "growl";
     AbilityData.name := "Growl";
     AbilityData.type := "normal";
     AbilityData.category := "status";
     AbilityData.power := 0;
     AbilityData.accuracy := 100;
     AbilityData.effects :=
       Some [Effect.mk "stat" "target" (Some "attack") (Some (-1)) None 0
                       (Some 100)] |}.

Definition dataManager : DataManager.t :=
  {| DataManager._initialized := true;
     DataManager.monsters :=
       <["monster-001" := embercub]> (<["monster-002" := blazebear]> ∅);
     DataManager.abilities :=
       <["ember" := ember]> (<["scratch" := scratch]>
                             (<["growl" := growl]> ∅));
     DataManager.items := ∅ |}.

(** A source of draws that always returns one half. *)
Definition half (n : nat) : Q := 0.5%Q.

(** An Embercub of the given level with every IV at 10, as
    [createMonster] builds it. *)
Definition embercub_at (level : Z) : Monster.t :=
  match createMonster dataManager half "monster-001" level
          (CreateOptions.mk (Some (Stats.mk 10 10 10 10 10 10)) None None)
          0%nat with
  | Returned (Some m, _) => m
  | _ => Monster.mk "" "" "" 0 0 0 (Stats.mk 0 0 0 0 0 0)
                    (Stats.mk 0 0 0 0 0 0) 0 (Stats.mk 0 0 0 0 0 0)
                    (Stats.mk 0 0 0 0 0 0) [] None 0 None
  end.
End Sample.

(** Worlds for the examples: two Embercubs of level 5 face each other. *)
Module Scenario.
(** The object the constructor builds once [A] is bound to 1. *)
Definition system : BattleSystem.t :=
  match new_BattleSystem {["A" := 1%Q]} with
  | Returned this => this
  | Thrown _ => BattleSystem.mk ∅ BattleState.initial
  end.

Definition with_speed (speed : Z) (m : Monster.t) : Monster.t :=
  Monster.set_stats
    (Stats.mk (Stats.hp (Monster.stats m)) (Stats.attack (Monster.stats m))
              (Stats.defense (Monster.stats m))
              (Stats.specialAttack (Monster.stats m))
              (Stats.specialDefense (Monster.stats m)) speed) m.

(** The world after [startBattle] with the first object of the store as
    the player's team and the second as the enemy. *)
Definition started (battleType : string) (player enemy : Monster.t)
  : World.t :=
  match startBattle
          {| StartOptions.playerTeam := Some [0%nat];
             StartOptions.enemyTeam := Some (SingleMonster 1%nat);
             StartOptions.battleType := Some battleType;
             StartOptions.trainer := None |}
          (World.mk system [player; enemy] 0%nat) with
  | Returned (_, w) => w
  | Thrown _ => World.mk system [] 0%nat
  end.

(** Both monsters have speed 50. *)
Definition even_speed (battleType : string) : World.t :=
  started battleType (with_speed 50 (Sample.embercub_at 5))
          (with_speed 50 (Sample.embercub_at 5)).

(** The player's only monster is down to 1 hit point; the enemy is
    burned. *)
Definition last_stand : World.t :=
  started "wild" (applyDamage (Sample.embercub_at 5) 19).1
          (applyStatus (Sample.embercub_at 5) (Some "burn")).1.

(** The player is at full health; the burned enemy is down to 1 hit
    point. *)
Definition finishing_blow : World.t :=
  started "wild" (Sample.embercub_at 5)
          (applyDamage (applyStatus (Sample.embercub_at 5) (Some "burn")).1
                       19).1.


Definition grass_defender : Monster.t :=
  {| Monster.id := "monster-004";
     Monster.name := "Leafling";
     Monster.type := "grass";
     Monster.level := 10;
     Monster.experience := 1000;
     Monster.nextLevelExperience := 1331;
     Monster.baseStats := Stats.mk 45 40 50 60 70 45;
     Monster.stats := Stats.mk 30 20 20 20 50 20;
     Monster.currentHp := 30;
     Monster.ivs := Stats.mk 10 10 10 10 10 10;
     Monster.evs := Stats.mk 0 0 0 0 0 0;
     Monster.abilities := ["scratch"];
     Monster.status := None;
     Monster.catchRate := 45;
     Monster.shape := None |}.


Definition use_ability (abilityId : string) : Action.t :=
  Action.mk "ability" None abilityId "" 0.
End Scenario.

(** * Properties stated by the specification *)

(** The hit-point invariant of a monster instance. *)
Definition hp_invariant (m : Monster.t) : Prop :=
  0 <= Monster.currentHp m <= Stats.hp (Monster.stats m).

(** The stats of the instance are the ones derived from its base stats,
    level, IVs and EVs, and the HP inputs are not negative. *)
Definition derived_stats (m : Monster.t) : Prop :=
  Monster.stats m
  = _calculateStats (Monster.baseStats m) (Monster.level m) (Monster.ivs m)
                    (Monster.evs m)
  /\ 0 <= Stats.hp (Monster.baseStats m)
  /\ 0 <= Stats.hp (Monster.ivs m)
  /\ 0 <= Stats.hp (Monster.evs m).

(** Every field but [currentHp] is the same in both instances. *)
Definition same_but_currentHp (m m' : Monster.t) : Prop :=
  Monster.id m' = Monster.id m
  /\ Monster.name m' = Monster.name m
  /\ Monster.type m' = Monster.type m
  /\ Monster.level m' = Monster.level m
  /\ Monster.experience m' = Monster.experience m
  /\ Monster.nextLevelExperience m' = Monster.nextLevelExperience m
  /\ Monster.baseStats m' = Monster.baseStats m
  /\ Monster.stats m' = Monster.stats m
  /\ Monster.ivs m' = Monster.ivs m
  /\ Monster.evs m' = Monster.evs m
  /\ Monster.abilities m' = Monster.abilities m
  /\ Monster.status m' = Monster.status m
  /\ Monster.catchRate m' = Monster.catchRate m
  /\ Monster.shape m' = Monster.shape m.

(** [applyDamage] called once for each amount of the list, in order: the
    instance at the end and the record of the last call. *)
Fixpoint applyDamage_each (m : Monster.t) (amounts : list Z)
         (last : option DamageResult.t) : Monster.t * option DamageResult.t :=
  match amounts with
  | [] => (m, last)
  | damage :: rest =>
    applyDamage_each (fst (applyDamage m damage)) rest
                     (Some (snd (applyDamage m damage)))
  end.

(** The guard and the body of the loop of [awardExperience], and the
    abilities collected at a level. *)
Definition loop_guard (m : Monster.t) : bool :=
  (Monster.nextLevelExperience m <=? Monster.experience m)
  && (Monster.level m <? GAME_CONFIG.MAX_MONSTER_LEVEL).

Definition loop_body (data : MonsterData.t) (m : Monster.t) : Monster.t :=
  let newStats :=
    _calculateStats (Monster.baseStats m) (Monster.level m + 1)
                    (Monster.ivs m) (Monster.evs m) in
  Monster.mk (Monster.id m) (Monster.name m) (Monster.type m)
    (Monster.level m + 1) (Monster.experience m)
    (_getLevelExperience (Monster.level m + 1 + 1) (MonsterData.growthRate data))
    (Monster.baseStats m) newStats
    (Monster.currentHp m + (Stats.hp newStats - Stats.hp (Monster.stats m)))
    (Monster.ivs m) (Monster.evs m) (Monster.abilities m) (Monster.status m)
    (Monster.catchRate m) (Monster.shape m).

Definition learned_at (data : MonsterData.t) (newLevel : Z) : list string :=
  map fst (filter (fun e => bool_decide (snd e = newLevel))
                  (default [] (MonsterData.abilityLevels data))).

(** The evolution target of the species of an instance, when it has one:
    the guard at the head of [evolveMonster]. *)
Definition evolution_target (dm : DataManager.t) (m : Monster.t)
  : option string :=
  match DataManager.get_monsters dm (Monster.id m) with
  | Some data =>
    match MonsterData.evolution data with
    | Some evolution =>
      if truthy_ostr (Evolution.evolvesTo evolution)
      then Evolution.evolvesTo evolution
      else None
    | None => None
    end
  | None => None
  end.

(** The multipliers the specification allows in the type chart. *)
Definition chart_multiplier (q : Q) : Prop :=
  q = 0%Q \/ q = 0.5%Q \/ q = 1%Q \/ q = 2%Q.

(** The escape chance as the specification writes it. *)
Definition escape_chance (playerSpeed enemySpeed attemptNumber : Z) : Z :=
  Math.floor (playerSpeed * 128 / enemySpeed + 30 * attemptNumber).

(** The damage as the specification writes it. *)
Definition spec_damage (userLevel power atk def : Z) (stab typeEff r : Q) : Z :=
  Math.floor (((2 * userLevel / 5 + 2) * power * atk / def / 50 + 2)
              * stab * typeEff * r).

(** A call that completes normally, with a result and a final state that
    satisfy [post]. *)
Definition returns {S A} (c : M S A) (s : S) (post : A -> S -> Prop) : Prop :=
  match c s with
  | Returned (v, s') => post v s'
  | Thrown _ => False
  end.

(** Every cell of the literal is one of the four multipliers, or the
    identifier [A]. *)
Definition cell_ok (c : ChartCell) : bool :=
  match c with
  | Num q => bool_decide (Qnum q = 0 /\ Qden q = 1%positive)
             || bool_decide (Qnum q = 5 /\ Qden q = 10%positive)
             || bool_decide (Qnum q = 1 /\ Qden q = 1%positive)
             || bool_decide (Qnum q = 2 /\ Qden q = 1%positive)
  | Ident x => String.eqb x "A"
  end.

(** The references of both teams point into the store. *)
Definition valid (r : ref) (w : World.t) : Prop :=
  (r < length (World.heap w))%nat.

Definition wf (w : World.t) : Prop :=
  let s := BattleSystem._battleState (World.this w) in
  Forall (fun r => valid r w)
         (BattleState.playerTeam s ++ BattleState.enemyTeam s).



(** The [switch] of [executePlayerAction]: the player's own action. *)
Definition player_action (dm : DataManager.t) (rnd : nat -> Q)
           (action : Action.t) (activePlayerMonster : ref)
           (s : BattleState.t) : M World.t ActionResult :=
  if String.eqb (Action.type action) "ability" then
    _executeAbility dm rnd activePlayerMonster
                    (BattleState.activeEnemyMonster s)
                    (Action.abilityId action)
  else if String.eqb (Action.type action) "item" then
    _useItem dm rnd (Action.itemId action) (Action.targetId action)
  else if String.eqb (Action.type action) "switch" then
    _switchMonster "player" (Action.switchIndex action)
  else if String.eqb (Action.type action) "run" then
    _attemptRun rnd
  else ret (Fail "Invalid action type").

(** * Further properties of the code *)

(** The six values of a stats object are not negative. *)
Definition Stats_nonneg (s : Stats.t) : Prop :=
  0 <= Stats.hp s /\ 0 <= Stats.attack s /\ 0 <= Stats.defense s
  /\ 0 <= Stats.specialAttack s /\ 0 <= Stats.specialDefense s
  /\ 0 <= Stats.speed s.

(** The battle has both active monsters, and they and the teams point into
    the store. *)
Definition ready (w : World.t) : Prop :=
  let s := BattleSystem._battleState (World.this w) in
  wf w
  /\ (exists p, BattleState.activePlayerMonster s = Some p /\ valid p w)
  /\ (exists e, BattleState.activeEnemyMonster s = Some e /\ valid e w).


(** The team of a side and its active monster, as [_getNextMonster] and
    [_switchMonster] select them. *)
Definition team_of (team : string) (s : BattleState.t) : list ref :=
  if String.eqb team "player" then BattleState.playerTeam s
  else BattleState.enemyTeam s.

Definition active_of (team : string) (s : BattleState.t) : option ref :=
  if String.eqb team "player" then BattleState.activePlayerMonster s
  else BattleState.activeEnemyMonster s.

(** A monster that [_getNextMonster] passes over: the active one, or one
    without hit points. *)
Definition unavailable (w : World.t) (currentActive : option ref) (r : ref)
  : Prop :=
  Some r = currentActive
  \/ exists m, World.heap w !! r = Some m /\ Monster.currentHp m <= 0.







(** Burn and poison are the two statuses that cost hit points when a turn
    starts. *)
Definition afflicted (m : Monster.t) : bool :=
  match Monster.status m with
  | Some status => String.eqb status "burn" || String.eqb status "poison"
  | None => false
  end.

(** The monster after losing an eighth of its maximum, at least one point,
    [slots] times. *)
Definition after_status (slots : Z) (m : Monster.t) : Monster.t :=
  if afflicted m && (0 <? slots)
  then Monster.set_currentHp
         (Z.max 0 (Monster.currentHp m
                   - slots * Z.max 1 (Stats.hp (Monster.stats m) / 8))) m
  else m.

(** In how many of the two active places the monster stands. *)
Definition slots (s : BattleState.t) (r : ref) : Z :=
  (if bool_decide (BattleState.activePlayerMonster s = Some r) then 1 else 0)
  + (if bool_decide (BattleState.activeEnemyMonster s = Some r) then 1
     else 0).

(** The team members whose species id is [targetId]. *)
Definition candidates (w : World.t) (targetId : string) (team : list ref)
  : list ref :=
  filter (fun r => Monster.id <$> World.heap w !! r = Some targetId) team.

(** ** InventorySystem *)

(** An entry of [_items]. *)
Module InventoryItem.
Record t := mk {
  id : string;
  name : option string;
  quantity : Z;
  type : option string }.
Definition set_quantity (v : Z) (item : t) : t :=
  mk (id item) (name item) v (type item).
End InventoryItem.

Module InventorySystem.
Record t := mk {
  _items : list InventoryItem.t;
  _capacity : Z }.
Definition set_items (v : list InventoryItem.t) (this : t) : t :=
  mk v (_capacity this).
End InventorySystem.

(** The constructor: no items, room for 20 kinds. *)
Definition new_InventorySystem : InventorySystem.t :=
  InventorySystem.mk [] 20.

Module UseResult.
Record t := mk { success : bool; message : string }.
End UseResult.

(** [Array.prototype.findIndex], with [None] for -1.  [find] returns the
    element at that index; a write to a property of the found object is
    a write to the array's element there. *)
Fixpoint findIndex {A} (p : A -> bool) (l : list A) : option nat :=
  match l with
  | [] => None
  | x :: rest => if p x then Some 0%nat else S <$> findIndex p rest
  end.

(** [itemData.name] and [itemData.type] of what the lookup found: of an
    entry of the table, or of a member of [Object.prototype], which has no
    [type]. *)
Definition found_name (itemId : string) (itemData : DataManager.found ItemData.t)
  : option string :=
  match itemData with
  | DataManager.Entry data => Some (ItemData.name data)
  | DataManager.Inherited => Object_prototype.name itemId
  | DataManager.Null => None
  end.

Definition found_type (itemData : DataManager.found ItemData.t)
  : option string :=
  match itemData with
  | DataManager.Entry data => Some (ItemData.type data)
  | _ => None
  end.

Section InventorySystemMethods.

Variable dataManager : DataManager.t.

(** [quantity] is [None] when the argument is left out. *)
Definition addItem (itemId : string) (quantity : option Z)
  : M InventorySystem.t bool :=
  let quantity := default 1 quantity in
  match DataManager.get dataManager DataManager.items itemId with
  | DataManager.Null => ret false
  | itemData =>
    this <- get_state ;;
    let items := InventorySystem._items this in
    match findIndex (fun item => String.eqb (InventoryItem.id item) itemId)
                    items with
    | Some existingItem =>
      put_state
        (InventorySystem.set_items
           (alter (fun item =>
                     InventoryItem.set_quantity
                       (InventoryItem.quantity item + quantity) item)
                  existingItem items) this) ;;;
      ret true
    | None =>
      if InventorySystem._capacity this <=? Z.of_nat (length items)
      then ret false
      else
        put_state
          (InventorySystem.set_items
             (items ++ [{| InventoryItem.id := itemId;
                           InventoryItem.name := found_name itemId itemData;
                           InventoryItem.quantity := quantity;
                           InventoryItem.type := found_type itemData |}])
             this) ;;;
        ret true
    end
  end.

Definition getAllItems : M InventorySystem.t (list InventoryItem.t) :=
  this <- get_state ;;
  ret (InventorySystem._items this).

Definition useItem (itemId : string) (targetId : option string)
  : M InventorySystem.t UseResult.t :=
  this <- get_state ;;
  let items := InventorySystem._items this in
  match findIndex (fun item => String.eqb (InventoryItem.id item) itemId)
                  items with
  | None => ret (UseResult.mk false "Item not found in inventory")
  | Some itemIndex =>
    match DataManager.get dataManager DataManager.items itemId with
    | DataManager.Null => ret (UseResult.mk false "Item data not found")
    | itemData =>
      let items :=
        alter (fun item =>
                 InventoryItem.set_quantity (InventoryItem.quantity item - 1)
                                            item)
              itemIndex items in
      let items :=
        if from_option (fun item => InventoryItem.quantity item <=? 0) false
                       (items !! itemIndex)
        then delete itemIndex items
        else items in
      put_state (InventorySystem.set_items items this) ;;;
      ret (UseResult.mk true
             ("Used " +:+ default "undefined" (found_name itemId itemData)))
    end
  end.

End InventorySystemMethods.

(** How many pieces of an item an entry stands for, and how many the
    inventory holds. *)
Definition piece (itemId : string) (item : InventoryItem.t) : Z :=
  if String.eqb (InventoryItem.id item) itemId
  then InventoryItem.quantity item else 0.

Definition held (itemId : string) (items : list InventoryItem.t) : Z :=
  foldr (fun item n => piece itemId item + n) 0 items.

Definition ids (items : list InventoryItem.t) : list string :=
  InventoryItem.id <$> items.

(** Every kind of item is listed once, with at least one piece, and the
    kinds fit the capacity. *)
Definition tidy (this : InventorySystem.t) : Prop :=
  NoDup (ids (InventorySystem._items this))
  /\ Forall (fun item => 1 <= InventoryItem.quantity item)
            (InventorySystem._items this)
  /\ Z.of_nat (length (InventorySystem._items this))
     <= InventorySystem._capacity this.

(** A call of one of the two methods that change the inventory. *)
Inductive InventoryCall : Type :=
| AddItem (itemId : string) (quantity : option Z)
| UseItem (itemId : string) (targetId : option string).

Definition after_call (dm : DataManager.t) (this : InventorySystem.t)
           (call : InventoryCall) : InventorySystem.t :=
  match match call with
        | AddItem itemId quantity =>
          match addItem dm itemId quantity this with
          | Returned (_, this') => Some this'
          | Thrown _ => None
          end
        | UseItem itemId targetId =>
          match useItem dm itemId targetId this with
          | Returned (_, this') => Some this'
          | Thrown _ => None
          end
        end with
  | Some this' => this'
  | None => this
  end.

Definition sound_call (call : InventoryCall) : Prop :=
  match call with
  | AddItem _ quantity => 1 <= default 1 quantity
  | UseItem _ _ => True
  end.





(** The cell is written as one of the four multipliers, or it is the
    cell fighting/water and is written as the identifier [A]. *)
Definition cell_written (attackType defenderType : string) (c : ChartCell)
  : bool :=
  match c with
  | Num q => cell_ok c
  | Ident x =>
    String.eqb x "A" && String.eqb attackType "fighting"
    && String.eqb defenderType "water"
  end.

(** A party of three against one enemy: the player's second monster has
    fainted. *)
Module Party.
Definition world : World.t :=
  match startBattle
          {| StartOptions.playerTeam := Some [0%nat; 1%nat; 2%nat];
             StartOptions.enemyTeam := Some (TeamArray [3%nat]);
             StartOptions.battleType := Some "wild";
             StartOptions.trainer := None |}
          (World.mk Scenario.system
                    [Sample.embercub_at 5;
                     (applyDamage (Sample.embercub_at 7) 100).1;
                     Sample.embercub_at 9;
                     Sample.embercub_at 5] 0%nat) with
  | Returned (_, w) => w
  | Thrown _ => World.mk Scenario.system [] 0%nat
  end.
End Party.

Module Bag.
Definition potion : ItemData.t :=
  {| ItemData.id := "potion";
     ItemData.name := "Potion";
     ItemData.type := ITEM_TYPES.POTION;
     ItemData.effect := ItemEffect.mk None None |}.

Definition ball : ItemData.t :=
  {| ItemData.id := "ball";
     ItemData.name := "Ball";
     ItemData.type := ITEM_TYPES.BALL;
     ItemData.effect := ItemEffect.mk None (Some 1%Q) |}.

Definition dataManager : DataManager.t :=
  {| DataManager._initialized := true;
     DataManager.monsters := DataManager.monsters Sample.dataManager;
     DataManager.abilities := DataManager.abilities Sample.dataManager;
     DataManager.items := <["potion" := potion]> (<["ball" := ball]> ∅) |}.
End Bag.

(** An inventory after picking up one potion twice. *)
Definition two_potions : InventorySystem.t :=
  foldl (after_call Bag.dataManager) new_InventorySystem
        [AddItem "potion" None; AddItem "potion" None].

(** ** GridMovement *)

Module TILE_TYPES.
Definition FLOOR : Z := 0.
Definition WALL : Z := 1.
Definition GRASS : Z := 2.
Definition WATER : Z := 3.
Definition DOOR : Z := 4.
Definition ENCOUNTER : Z := 5.
End TILE_TYPES.

(** [mapData.tilemap]: the rows of tile types, and the tile types that
    block and that trigger encounters, when the map lists them. *)
Module Tilemap.
Record t := mk {
  grid : option (list (list Z));
  collisions : option (list Z);
  encounters : option (list Z) }.
End Tilemap.

Module MapData.
Record t := mk {
  id : string;
  width : Z;
  height : Z;
  tilemap : option Tilemap.t }.
End MapData.

Module Direction.
Record t := mk { x : Z; y : Z }.
End Direction.

Module DIRECTIONS.
Definition UP : Direction.t := Direction.mk 0 (-1).
Definition DOWN : Direction.t := Direction.mk 0 1.
Definition LEFT : Direction.t := Direction.mk (-1) 0.
Definition RIGHT : Direction.t := Direction.mk 1 0.
End DIRECTIONS.

(** The GridMovement object.  [_collisionMap] is keyed by the string
    x,y of two integers, which is read here as the pair. *)
Module GridMovement.
Record t := mk {
  _collisionMap : gmap (Z * Z) bool;
  _currentMap : option MapData.t }.
Definition set_collisionMap (v : gmap (Z * Z) bool) (this : t) : t :=
  mk v (_currentMap this).
End GridMovement.

Definition _hasCollision (this : GridMovement.t) (x y : Z) : bool :=
  bool_decide (GridMovement._collisionMap this !! (x, y) = Some true).

Definition _setCollision (x y : Z) (hasCollision : bool)
  : M GridMovement.t unit :=
  modify (fun this =>
            GridMovement.set_collisionMap
              (<[(x, y) := hasCollision]> (GridMovement._collisionMap this))
              this).

(** The inner loop of [setMap].  [grid[y][x]] throws when the row is
    missing and is undefined, which no list includes, when the row is too
    short. *)
Fixpoint each_x (collisionTiles : list Z) (grid : list (list Z)) (y : Z)
         (xs : list Z) : M GridMovement.t unit :=
  match xs with
  | [] => ret tt
  | x :: rest =>
    match grid !! Z.to_nat y with
    | None => throw (TypeError "Cannot read properties of undefined")
    | Some row =>
      (match row !! Z.to_nat x with
       | Some tileType =>
         if bool_decide (tileType ∈ collisionTiles)
         then _setCollision x y true
         else ret tt
       | None => ret tt
       end) ;;;
      each_x collisionTiles grid y rest
    end
  end.

Fixpoint each_y (collisionTiles : list Z) (grid : list (list Z))
         (width : Z) (ys : list Z) : M GridMovement.t unit :=
  match ys with
  | [] => ret tt
  | y :: rest =>
    each_x collisionTiles grid y (seqZ 0 width) ;;;
    each_y collisionTiles grid width rest
  end.

(** [setMap(mapData)], with [GAME_CONFIG.DEBUG] on: the closing log line
    reads [mapData.id].  Drawing the debug grid changes the graphics
    object only. *)
Definition setMap (mapData : option MapData.t) : M GridMovement.t unit :=
  put_state (GridMovement.mk ∅ mapData) ;;;
  match mapData with
  | Some mapData =>
    match MapData.tilemap mapData with
    | Some tilemap =>
      match Tilemap.grid tilemap with
      | Some grid =>
        let collisionTiles :=
          default [TILE_TYPES.WALL] (Tilemap.collisions tilemap) in
        each_y collisionTiles grid (MapData.width mapData)
               (seqZ 0 (MapData.height mapData))
      | None => ret tt
      end
    | None => ret tt
    end
  | None => throw (TypeError "Cannot read properties of null")
  end.

Definition canMove (this : GridMovement.t) (x y : Z)
           (direction : Direction.t) : bool :=
  let newX := x + Direction.x direction in
  let newY := y + Direction.y direction in
  if match GridMovement._currentMap this with
     | Some currentMap =>
       (newX <? 0) || (MapData.width currentMap <=? newX)
       || (newY <? 0) || (MapData.height currentMap <=? newY)
     | None => false
     end
  then false
  else if _hasCollision this newX newY then false
  else true.

(** [getTileAt(x, y)]: [None] stands for null and for undefined. *)
Definition getTileAt (this : GridMovement.t) (x y : Z)
  : outcome (option Z) :=
  match GridMovement._currentMap this with
  | None => Returned None
  | Some currentMap =>
    match MapData.tilemap currentMap with
    | None => Returned None
    | Some tilemap =>
      match Tilemap.grid tilemap with
      | None => Returned None
      | Some grid =>
        if (x <? 0) || (MapData.width currentMap <=? x)
           || (y <? 0) || (MapData.height currentMap <=? y)
        then Returned None
        else
          match grid !! Z.to_nat y with
          | None => Thrown (TypeError "Cannot read properties of undefined")
          | Some row => Returned (row !! Z.to_nat x)
          end
      end
    end
  end.

Definition isEncounterZone (this : GridMovement.t) (x y : Z)
  : outcome bool :=
  match getTileAt this x y with
  | Thrown e => Thrown e
  | Returned tileType =>
    if negb (truthy_onum tileType) then Returned false
    else
      let tileType := default 0 tileType in
      match match GridMovement._currentMap this with
            | Some currentMap =>
              match MapData.tilemap currentMap with
              | Some tilemap => Tilemap.encounters tilemap
              | None => None
              end
            | None => None
            end with
      | Some encounters => Returned (bool_decide (tileType ∈ encounters))
      | None => Returned (tileType =? TILE_TYPES.GRASS)
      end
  end.

(** The tile type written at a place of the grid. *)
Definition tile (grid : list (list Z)) (x y : Z) : option Z :=
  match grid !! Z.to_nat y with
  | Some row => row !! Z.to_nat x
  | None => None
  end.

(** The place lies on the map. *)
Definition on_map (mapData : MapData.t) (x y : Z) : Prop :=
  0 <= x < MapData.width mapData /\ 0 <= y < MapData.height mapData.

(** The place lies on the map and its tile is of a blocking type. *)
Definition blocked (mapData : MapData.t) (tilemap : Tilemap.t)
           (grid : list (list Z)) (x y : Z) : Prop :=
  on_map mapData x y
  /\ exists tileType,
      tile grid x y = Some tileType
      /\ tileType ∈ default [TILE_TYPES.WALL] (Tilemap.collisions tilemap).

(** A map of three by two tiles with a wall in the middle of the upper
    row and grass below it. *)
Definition meadow : MapData.t :=
  {| MapData.id := "meadow";
     MapData.width := 3;
     MapData.height := 2;
     MapData.tilemap :=
       Some {| Tilemap.grid := Some [[0; 1; 0]; [0; 2; 0]];
               Tilemap.collisions := None;
               Tilemap.encounters := None |} |}.

(** * Proofs *)

(** * Arithmetic of doubles *)

Lemma pow2_pos (e : Z) : (0 < 2 ^ e)%Q.
Proof. apply Qpower_0_lt. reflexivity. Qed.

Lemma pow2_add (a b : Z) : (2 ^ (a + b) == 2 ^ a * 2 ^ b)%Q.
Proof. apply Qpower_plus. discriminate. Qed.

Lemma pow2_succ (e : Z) : (2 ^ (e + 1) == 2 * 2 ^ e)%Q.
Proof. rewrite pow2_add. change (2 ^ 1)%Q with 2%Q. ring. Qed.

Lemma pow2_le (a b : Z) : a <= b -> (2 ^ a <= 2 ^ b)%Q.
Proof. intros H. apply Qpower_le_compat_l; [exact H | discriminate]. Qed.

Lemma pow2_lt_inv (a b : Z) : (2 ^ a < 2 ^ b)%Q -> a < b.
Proof. intros H. eapply Qpower_lt_compat_l_inv; [exact H | reflexivity]. Qed.

Lemma pow2_Z (k : Z) : 0 <= k -> (inject_Z (2 ^ k) == 2 ^ k)%Q.
Proof. intros H. apply (Zpower_Qpower 2 k H). Qed.

Lemma pow2_cancel (e : Z) : (2 ^ (52 - e) * 2 ^ (e - 52) == 1)%Q.
Proof.
  rewrite <- pow2_add. replace (52 - e + (e - 52)) with 0 by lia. reflexivity.
Qed.

Lemma Q_as_ratio (q : Q) : (q * Z.pos (Qden q) == Qnum q)%Q.
Proof.
  destruct q as [n d]. cbn [Qnum Qden]. unfold Qeq, Qmult, inject_Z. cbn.
  lia.
Qed.

Lemma exponent_spec (q : Q) :
  (0 < q)%Q ->
  (2 ^ Double.exponent q <= q)%Q /\ (q < 2 ^ (Double.exponent q + 1))%Q.
Proof.
  intros Hq. unfold Double.exponent.
  assert (Hn : 0 < Qnum q) by (destruct q; unfold Qlt in Hq; cbn in *; lia).
  set (a := Z.log2 (Qnum q)). set (b := Z.log2 (Z.pos (Qden q))).
  assert (Ha := Z.log2_spec _ Hn). fold a in Ha.
  assert (Hb := Z.log2_spec (Z.pos (Qden q)) eq_refl). fold b in Hb.
  assert (Ha0 : 0 <= a) by apply Z.log2_nonneg.
  assert (Hb0 : 0 <= b) by apply Z.log2_nonneg.
  assert (Hr := Q_as_ratio q).
  assert (Hab : (2 ^ (a - b) * inject_Z (2 ^ b) == inject_Z (2 ^ a))%Q).
  { rewrite !pow2_Z by assumption. rewrite <- pow2_add.
    replace (a - b + b) with a by lia. reflexivity. }
  assert (Pp := pow2_pos (a - b)).
  assert (Hn1 : (inject_Z (2 ^ a) <= inject_Z (Qnum q))%Q)
    by (rewrite <- Zle_Qle; lia).
  assert (Hn2 : (inject_Z (Qnum q) < 2 * inject_Z (2 ^ a))%Q).
  { change 2%Q with (inject_Z 2). rewrite <- inject_Z_mult, <- Zlt_Qlt.
    replace (Z.succ a) with (a + 1) in Ha by lia.
    rewrite Z.pow_add_r in Ha by lia. lia. }
  assert (Hd1 : (inject_Z (2 ^ b) <= inject_Z (Z.pos (Qden q)))%Q)
    by (rewrite <- Zle_Qle; lia).
  assert (Hd2 : (inject_Z (Z.pos (Qden q)) < 2 * inject_Z (2 ^ b))%Q).
  { change 2%Q with (inject_Z 2). rewrite <- inject_Z_mult, <- Zlt_Qlt.
    replace (Z.succ b) with (b + 1) in Hb by lia.
    rewrite Z.pow_add_r in Hb by lia. lia. }
  assert (Hb1 : (0 < inject_Z (2 ^ b))%Q).
  { change 0%Q with (inject_Z 0). rewrite <- Zlt_Qlt. lia. }
  destruct (Qle_bool (2 ^ (a - b)) q) eqn:E.
  - apply Qle_bool_iff in E. split; [exact E|].
    rewrite pow2_succ.
    set (P := (2 ^ (a - b))%Q) in *. set (B := inject_Z (2 ^ b)) in *.
    set (A := inject_Z (2 ^ a)) in *. set (D := inject_Z (Z.pos (Qden q))) in *.
    set (N := inject_Z (Qnum q)) in *.
    apply Qnot_le_lt. intros Hc.
    assert (H1 : (2 * P * D <= q * D)%Q) by nra.
    assert (H2 : (2 * P * B <= 2 * P * D)%Q) by nra.
    nra.
  - assert (E' : ~ (2 ^ (a - b) <= q)%Q) by (rewrite <- Qle_bool_iff; congruence).
    apply Qnot_le_lt in E'.
    replace (a - b - 1 + 1) with (a - b) by lia. split; [|exact E'].
    assert (Hh : (2 ^ (a - b) == 2 * 2 ^ (a - b - 1))%Q).
    { rewrite <- pow2_succ. replace (a - b - 1 + 1) with (a - b) by lia.
      reflexivity. }
    assert (Pq := pow2_pos (a - b - 1)).
    set (P := (2 ^ (a - b))%Q) in *. set (B := inject_Z (2 ^ b)) in *.
    set (A := inject_Z (2 ^ a)) in *. set (D := inject_Z (Z.pos (Qden q))) in *.
    set (N := inject_Z (Qnum q)) in *. set (H := (2 ^ (a - b - 1))%Q) in *.
    apply Qnot_lt_le. intros Hc.
    assert (H1 : (q * D < H * D)%Q) by nra.
    assert (H2 : (H * D < H * (2 * B))%Q) by nra.
    nra.
Qed.

Lemma exponent_unique (q : Q) (e : Z) :
  (2 ^ e <= q)%Q -> (q < 2 ^ (e + 1))%Q -> Double.exponent q = e.
Proof.
  intros H1 H2.
  assert (Hq : (0 < q)%Q) by (eapply Qlt_le_trans; [apply pow2_pos | exact H1]).
  destruct (exponent_spec q Hq) as [H3 H4].
  assert (Double.exponent q < e + 1).
  { apply pow2_lt_inv. eapply Qle_lt_trans; eassumption. }
  assert (e < Double.exponent q + 1).
  { apply pow2_lt_inv. eapply Qle_lt_trans; eassumption. }
  lia.
Qed.

Lemma exponent_comp (q q' : Q) :
  (0 < q)%Q -> (q == q')%Q -> Double.exponent q = Double.exponent q'.
Proof.
  intros Hq Heq. symmetry. 
  destruct (exponent_spec q Hq) as [H3 H4].
  apply exponent_unique; rewrite <- Heq; assumption.
Qed.

Lemma nearest_cases (x : Q) :
  let f := Qfloor x in
  (Double.nearest x = f /\ (x - f <= 1 # 2)%Q)
  \/ (Double.nearest x = f + 1 /\ (1 # 2 <= x - f)%Q).
Proof.
  cbv zeta. unfold Double.nearest.
  destruct (Qcompare_spec (x - Qfloor x) (1 # 2)) as [H|H|H].
  - destruct (Z.even _); [left | right]; (split; [reflexivity|]);
      rewrite H; apply Qle_refl.
  - left. split; [reflexivity | apply Qlt_le_weak; exact H].
  - right. split; [reflexivity | apply Qlt_le_weak; exact H].
Qed.

Lemma floor_bounds (x : Q) :
  (inject_Z (Qfloor x) <= x)%Q /\ (x < inject_Z (Qfloor x) + 1)%Q.
Proof.
  split; [apply Qfloor_le|].
  assert (H := Qlt_floor x). rewrite inject_Z_plus in H. exact H.
Qed.

Lemma nearest_bounds (x : Q) :
  (x - (1 # 2) <= inject_Z (Double.nearest x))%Q
  /\ (inject_Z (Double.nearest x) <= x + (1 # 2))%Q.
Proof.
  destruct (floor_bounds x) as [H1 H2].
  destruct (nearest_cases x) as [[-> H]|[-> H]];
    rewrite ?inject_Z_plus; change (inject_Z 1) with 1%Q; split; lra.
Qed.

Lemma nearest_comp (x y : Q) :
  (x == y)%Q -> Double.nearest x = Double.nearest y.
Proof.
  intros H. unfold Double.nearest. rewrite (Qfloor_comp _ _ H).
  assert (E : (x - inject_Z (Qfloor y) ?= 1 # 2)%Q
              = (y - inject_Z (Qfloor y) ?= 1 # 2)%Q).
  { apply Qcompare_comp; [|reflexivity]. rewrite H. reflexivity. }
  rewrite E. reflexivity.
Qed.

Lemma nearest_Z (z : Z) : Double.nearest (inject_Z z) = z.
Proof.
  unfold Double.nearest. rewrite Qfloor_Z.
  destruct (Qcompare_spec (inject_Z z - inject_Z z) (1 # 2)) as [H|H|H].
  - exfalso. lra.
  - reflexivity.
  - exfalso. lra.
Qed.

Lemma nearest_mono (x y : Q) :
  (x <= y)%Q -> Double.nearest x <= Double.nearest y.
Proof.
  intros Hxy.
  assert (Hf := Qfloor_resp_le _ _ Hxy).
  destruct (Z.eq_dec (Qfloor x) (Qfloor y)) as [E|E].
  - unfold Double.nearest. rewrite E.
    destruct (Qcompare_spec (x - inject_Z (Qfloor y)) (1 # 2)) as [H|H|H];
      destruct (Qcompare_spec (y - inject_Z (Qfloor y)) (1 # 2)) as [H'|H'|H'];
      try destruct (Z.even _); try lia; exfalso; lra.
  - destruct (nearest_cases x) as [[-> _]|[-> _]];
      destruct (nearest_cases y) as [[-> _]|[-> _]]; lia.
Qed.

Lemma round_pos_big (q : Q) : (2 ^ 53 <= q)%Q -> Double.round_pos q = q.
Proof.
  intros H. unfold Double.round_pos.
  apply Qle_bool_iff in H. rewrite H. reflexivity.
Qed.

(** Below 2^53: the significand is an integer of 53 bits. *)
Lemma round_pos_small (q : Q) :
  (0 < q)%Q -> (q < 2 ^ 53)%Q ->
  let e := Double.exponent q in
  let m := Double.nearest (q * 2 ^ (52 - e)) in
  (Double.round_pos q == inject_Z m * 2 ^ (e - 52))%Q
  /\ e <= 52
  /\ (2 ^ 52 <= inject_Z m)%Q /\ (inject_Z m <= 2 ^ 53)%Q.
Proof.
  intros Hq Hsmall e m.
  destruct (exponent_spec q Hq) as [H1 H2]. fold e in H1, H2.
  split.
  { unfold Double.round_pos.
    destruct (Qle_bool (2 ^ 53) q) eqn:E.
    - apply Qle_bool_iff in E. exfalso. lra.
    - apply Qred_correct. }
  split.
  { assert (e < 53); [|lia]. apply pow2_lt_inv.
    eapply Qle_lt_trans; eassumption. }
  assert (HS := pow2_pos (52 - e)).
  assert (H52 : (2 ^ e * 2 ^ (52 - e) == 2 ^ 52)%Q).
  { rewrite <- pow2_add. replace (e + (52 - e)) with 52 by lia. reflexivity. }
  assert (H53 : (2 ^ (e + 1) * 2 ^ (52 - e) == 2 ^ 53)%Q).
  { rewrite <- pow2_add. replace (e + 1 + (52 - e)) with 53 by lia.
    reflexivity. }
  split.
  - change (2 ^ 52)%Q with (inject_Z (2 ^ 52)). rewrite <- Zle_Qle.
    rewrite <- (nearest_Z (2 ^ 52)). apply nearest_mono.
    change (inject_Z (2 ^ 52)) with (2 ^ 52)%Q. rewrite <- H52.
    apply Qmult_le_compat_r; [exact H1 | apply Qlt_le_weak; exact HS].
  - change (2 ^ 53)%Q with (inject_Z (2 ^ 53)). rewrite <- Zle_Qle.
    rewrite <- (nearest_Z (2 ^ 53)). apply nearest_mono.
    change (inject_Z (2 ^ 53)) with (2 ^ 53)%Q. rewrite <- H53.
    apply Qmult_le_compat_r;
      [apply Qlt_le_weak; exact H2 | apply Qlt_le_weak; exact HS].
Qed.

Lemma round_pos_comp (q q' : Q) :
  (0 < q)%Q -> (q == q')%Q -> (Double.round_pos q == Double.round_pos q')%Q.
Proof.
  intros Hq Heq. unfold Double.round_pos.
  assert (E : Qle_bool (2 ^ 53) q = Qle_bool (2 ^ 53) q').
  { destruct (Qle_bool (2 ^ 53) q) eqn:E1; destruct (Qle_bool (2 ^ 53) q') eqn:E2;
      try reflexivity.
    - apply Qle_bool_iff in E1.
      assert (E3 : (2 ^ 53 <= q')%Q) by lra.
      apply Qle_bool_iff in E3. congruence.
    - apply Qle_bool_iff in E2.
      assert (E3 : (2 ^ 53 <= q)%Q) by lra.
      apply Qle_bool_iff in E3. congruence. }
  rewrite <- E. destruct (Qle_bool (2 ^ 53) q); [exact Heq|].
  rewrite !Qred_correct. rewrite <- (exponent_comp q q' Hq Heq).
  rewrite (nearest_comp (q * 2 ^ (52 - Double.exponent q))
                        (q' * 2 ^ (52 - Double.exponent q))).
  - reflexivity.
  - apply Qmult_comp; [exact Heq | reflexivity].
Qed.

Lemma round_pos_le_pow (q : Q) :
  (0 < q)%Q -> (q < 2 ^ 53)%Q ->
  (2 ^ Double.exponent q <= Double.round_pos q)%Q
  /\ (Double.round_pos q <= 2 ^ (Double.exponent q + 1))%Q.
Proof.
  intros Hq Hsmall.
  destruct (round_pos_small q Hq Hsmall) as (Hr & He & Hm1 & Hm2).
  set (e := Double.exponent q) in *.
  set (m := Double.nearest _) in *.
  assert (HT := pow2_pos (e - 52)).
  assert (H52 : (2 ^ 52 * 2 ^ (e - 52) == 2 ^ e)%Q).
  { rewrite <- pow2_add. replace (52 + (e - 52)) with e by lia. reflexivity. }
  assert (H53 : (2 ^ 53 * 2 ^ (e - 52) == 2 ^ (e + 1))%Q).
  { rewrite <- pow2_add. replace (53 + (e - 52)) with (e + 1) by lia.
    reflexivity. }
  rewrite Hr, <- H52, <- H53.
  split; apply Qmult_le_compat_r; try assumption; apply Qlt_le_weak; exact HT.
Qed.

Lemma round_pos_mono (q1 q2 : Q) :
  (0 < q1)%Q -> (q1 <= q2)%Q ->
  (Double.round_pos q1 <= Double.round_pos q2)%Q.
Proof.
  intros Hq1 Hle.
  assert (Hq2 : (0 < q2)%Q) by lra.
  destruct (Qlt_le_dec q2 (2 ^ 53)) as [S2|B2].
  2:{ rewrite (round_pos_big q2 B2).
      destruct (Qlt_le_dec q1 (2 ^ 53)) as [S1|B1].
      - destruct (round_pos_le_pow q1 Hq1 S1) as [_ H].
        destruct (round_pos_small q1 Hq1 S1) as (_ & He & _).
        assert (H' := pow2_le (Double.exponent q1 + 1) 53 ltac:(lia)). lra.
      - rewrite (round_pos_big q1 B1). exact Hle. }
  assert (S1 : (q1 < 2 ^ 53)%Q) by lra.
  destruct (exponent_spec q1 Hq1) as [A1 A2].
  destruct (exponent_spec q2 Hq2) as [B1 B2].
  assert (Hee : Double.exponent q1 <= Double.exponent q2).
  { assert (Double.exponent q1 < Double.exponent q2 + 1); [|lia].
    apply pow2_lt_inv. lra. }
  destruct (Z.eq_dec (Double.exponent q1) (Double.exponent q2)) as [E|E].
  - destruct (round_pos_small q1 Hq1 S1) as (Hr1 & _).
    destruct (round_pos_small q2 Hq2 S2) as (Hr2 & _).
    rewrite Hr1, Hr2, E.
    apply Qmult_le_compat_r; [|apply Qlt_le_weak, pow2_pos].
    rewrite <- Zle_Qle. apply nearest_mono.
    apply Qmult_le_compat_r; [exact Hle | apply Qlt_le_weak, pow2_pos].
  - destruct (round_pos_le_pow q1 Hq1 S1) as [_ H1].
    destruct (round_pos_le_pow q2 Hq2 S2) as [H2 _].
    assert (H' := pow2_le (Double.exponent q1 + 1) (Double.exponent q2)
                          ltac:(lia)).
    lra.
Qed.

(** The relative error of one rounding is at most 2^-53. *)
Lemma round_pos_error (q : Q) :
  (0 < q)%Q ->
  (q * (1 - (1 # 2 ^ 53)) <= Double.round_pos q)%Q
  /\ (Double.round_pos q <= q * (1 + (1 # 2 ^ 53)))%Q.
Proof.
  intros Hq.
  destruct (Qlt_le_dec q (2 ^ 53)) as [S|B].
  2:{ rewrite (round_pos_big q B). split.
      - assert ((0 <= q * (1 # 2 ^ 53))%Q);
          [apply Qmult_le_0_compat; [lra | discriminate] | lra].
      - assert ((0 <= q * (1 # 2 ^ 53))%Q);
          [apply Qmult_le_0_compat; [lra | discriminate] | lra]. }
  destruct (round_pos_small q Hq S) as (Hr & He & _).
  destruct (exponent_spec q Hq) as [A1 _].
  set (e := Double.exponent q) in *.
  destruct (nearest_bounds (q * 2 ^ (52 - e))) as [N1 N2].
  set (m := inject_Z (Double.nearest _)) in *.
  assert (HT := pow2_pos (e - 52)).
  assert (Hc := pow2_cancel e).
  assert (Hh : ((1 # 2) * 2 ^ (e - 52) == 2 ^ e * (1 # 2 ^ 53))%Q).
  { replace (e - 52) with (e + -52) by lia. rewrite pow2_add.
    change (2 ^ (-52))%Q with (/ 2 ^ 52)%Q.
    change (/ 2 ^ 52)%Q with (1 # 2 ^ 52)%Q.
    assert (E : (1 # 2 ^ 52 == 2 * (1 # 2 ^ 53))%Q) by reflexivity.
    rewrite E. ring. }
  rewrite Hr.
  set (S' := (2 ^ (52 - e))%Q) in *. set (T := (2 ^ (e - 52))%Q) in *.
  set (P := (2 ^ e)%Q) in *. set (u := (1 # 2 ^ 53)%Q) in *.
  assert (Hu : (0 < u)%Q) by reflexivity.
  assert (HqT : (q * S' * T == q)%Q).
  { rewrite <- Qmult_assoc, Hc. ring. }
  assert (Hlo : ((q * S' - (1 # 2)) * T <= m * T)%Q)
    by (apply Qmult_le_compat_r; lra).
  assert (Hhi : (m * T <= (q * S' + (1 # 2)) * T)%Q)
    by (apply Qmult_le_compat_r; lra).
  assert (HPu : (P * u <= q * u)%Q) by (apply Qmult_le_compat_r; lra).
  split.
  - lra.
  - lra.
Qed.

Lemma round_pos_Z (z : Z) :
  0 < z -> (Double.round_pos (inject_Z z) == inject_Z z)%Q.
Proof.
  intros Hz.
  assert (Hq : (0 < inject_Z z)%Q).
  { change 0%Q with (inject_Z 0). rewrite <- Zlt_Qlt. exact Hz. }
  destruct (Qlt_le_dec (inject_Z z) (2 ^ 53)) as [S|B].
  2:{ rewrite (round_pos_big _ B). reflexivity. }
  destruct (round_pos_small _ Hq S) as (Hr & He & _).
  set (e := Double.exponent (inject_Z z)) in *.
  rewrite Hr.
  rewrite (nearest_comp _ (inject_Z (z * 2 ^ (52 - e)))).
  - rewrite nearest_Z, inject_Z_mult, pow2_Z by lia.
    rewrite <- Qmult_assoc, pow2_cancel. ring.
  - rewrite inject_Z_mult, pow2_Z by lia. reflexivity.
Qed.

Lemma round_pos_positive (q : Q) : (0 < q)%Q -> (0 < Double.round_pos q)%Q.
Proof.
  intros Hq. destruct (Qlt_le_dec q (2 ^ 53)) as [S|B].
  - destruct (round_pos_le_pow q Hq S) as [H _].
    assert (H' := pow2_pos (Double.exponent q)). lra.
  - rewrite (round_pos_big q B). exact Hq.
Qed.

(** ** [Double.round] *)

Lemma round_comp (q q' : Q) : (q == q')%Q -> Double.round q = Double.round q'.
Proof.
  intros H. unfold Double.round. rewrite (Qred_complete _ _ H). reflexivity.
Qed.

Lemma Qred_sign (q : Q) : (0 < q)%Q -> exists p, Qnum (Qred q) = Z.pos p.
Proof.
  intros Hq. assert (H : (0 < Qred q)%Q) by (rewrite Qred_correct; exact Hq).
  destruct (Qred q) as [[|p|p] d]; unfold Qlt in H; cbn in *; try lia. eauto.
Qed.

Lemma round_positive (q : Q) :
  (0 < q)%Q -> (Double.round q == Double.round_pos q)%Q.
Proof.
  intros Hq. unfold Double.round. destruct (Qred_sign q Hq) as [p ->].
  apply round_pos_comp; [rewrite Qred_correct; exact Hq | apply Qred_correct].
Qed.

Lemma round_negative (q : Q) :
  (q < 0)%Q -> (Double.round q == - Double.round_pos (- q))%Q.
Proof.
  intros Hq. unfold Double.round.
  assert (H : (Qred q < 0)%Q) by (rewrite Qred_correct; exact Hq).
  assert (E := Qred_correct q).
  destruct (Qred q) as [[|n|n] d] eqn:R; unfold Qlt in H; cbn in H; try lia.
  cbn [Qnum]. apply Qopp_comp. apply round_pos_comp; [reflexivity|].
  rewrite E. reflexivity.
Qed.

Lemma round_zero (q : Q) : (q == 0)%Q -> Double.round q = 0%Q.
Proof. intros H. rewrite (round_comp _ _ H). reflexivity. Qed.

Lemma round_nonneg (q : Q) : (0 <= q)%Q -> (0 <= Double.round q)%Q.
Proof.
  intros H. destruct (Qle_lt_or_eq _ _ H) as [Hq|Hq].
  - rewrite (round_positive q Hq). apply Qlt_le_weak, round_pos_positive, Hq.
  - rewrite (round_zero q) by (symmetry; exact Hq). apply Qle_refl.
Qed.

Lemma round_mono (q1 q2 : Q) :
  (0 <= q1)%Q -> (q1 <= q2)%Q -> (Double.round q1 <= Double.round q2)%Q.
Proof.
  intros H1 Hle. destruct (Qle_lt_or_eq _ _ H1) as [Hq|Hq].
  - rewrite (round_positive q1 Hq), (round_positive q2) by lra.
    apply round_pos_mono; assumption.
  - rewrite (round_zero q1) by (symmetry; exact Hq). apply round_nonneg. lra.
Qed.

Lemma round_error (q : Q) :
  (0 <= q)%Q ->
  (q * (1 - (1 # 2 ^ 53)) <= Double.round q)%Q
  /\ (Double.round q <= q * (1 + (1 # 2 ^ 53)))%Q.
Proof.
  intros H. destruct (Qle_lt_or_eq _ _ H) as [Hq|Hq].
  - rewrite (round_positive q Hq). apply round_pos_error, Hq.
  - rewrite (round_zero q) by (symmetry; exact Hq).
    assert (E : (q * (1 # 2 ^ 53) == 0)%Q) by (rewrite <- Hq; ring).
    split; lra.
Qed.

(** An integer is a double (up to 2^53) and is kept as it is. *)
Lemma round_Z (z : Z) : (Double.round (inject_Z z) == inject_Z z)%Q.
Proof.
  destruct z as [|p|p].
  - reflexivity.
  - rewrite round_positive by reflexivity. apply round_pos_Z. lia.
  - rewrite round_negative by reflexivity.
    rewrite (round_pos_comp _ (inject_Z (Z.pos p))) by reflexivity.
    rewrite round_pos_Z by lia. reflexivity.
Qed.

Lemma floor_between (x : Q) (lo hi : Z) :
  (inject_Z lo <= x)%Q -> (x < inject_Z hi + 1)%Q ->
  lo <= Math.floor x <= hi.
Proof.
  intros H1 H2. unfold Math.floor. split.
  - rewrite <- (Qfloor_Z lo). apply Qfloor_resp_le. exact H1.
  - assert (H := Qfloor_le x).
    assert (H3 : (inject_Z (Qfloor x) < inject_Z (hi + 1))%Q).
    { rewrite inject_Z_plus. change (inject_Z 1) with 1%Q. lra. }
    rewrite <- Zlt_Qlt in H3. lia.
Qed.

Lemma ratio_range (cur oldMax : Z) :
  0 < oldMax -> 0 <= cur <= oldMax ->
  (0 <= inject_Z cur / inject_Z oldMax)%Q
  /\ (inject_Z cur / inject_Z oldMax <= 1)%Q.
Proof.
  intros Ho [Hc1 Hc2].
  assert (Ho' : (0 < inject_Z oldMax)%Q).
  { change 0%Q with (inject_Z 0). rewrite <- Zlt_Qlt. exact Ho. }
  assert (Hc1' : (0 <= inject_Z cur)%Q).
  { change 0%Q with (inject_Z 0). rewrite <- Zle_Qle. exact Hc1. }
  assert (Hc2' : (inject_Z cur <= inject_Z oldMax)%Q).
  { rewrite <- Zle_Qle. exact Hc2. }
  split.
  - apply Qle_shift_div_l; [exact Ho'|]. lra.
  - apply Qle_shift_div_r; [exact Ho'|]. lra.
Qed.

Lemma Qmult_le_nonneg_l (a x y : Q) :
  (x <= y)%Q -> (0 <= a)%Q -> (a * x <= a * y)%Q.
Proof.
  intros H Ha. rewrite (Qmult_comm a x), (Qmult_comm a y).
  apply Qmult_le_compat_r; assumption.
Qed.

Lemma round_one : Double.round 1 = 1%Q.
Proof. reflexivity. Qed.

(** Two roundings move the product by less than three parts in 2^53. *)
Lemma two_roundings (a b : Q) :
  (0 <= a)%Q -> (0 <= b)%Q ->
  (a * b - a * b * (3 # 2 ^ 53) <= a *~ Double.round b)%Q
  /\ (a *~ Double.round b <= a * b + a * b * (3 # 2 ^ 53))%Q.
Proof.
  intros Ha Hb. unfold Double.mul.
  destruct (round_error b Hb) as [B1 B2].
  assert (Hrb := round_nonneg b Hb).
  set (rb := Double.round b) in *.
  assert (Hp : (0 <= a * rb)%Q) by (apply Qmult_le_0_compat; assumption).
  destruct (round_error (a * rb) Hp) as [P1 P2].
  set (v := Double.round (a * rb)) in *.
  set (u := (1 # 2 ^ 53)%Q) in *.
  assert (Hu : (u == 1 # 2 ^ 53)%Q) by reflexivity.
  assert (Hab : (0 <= a * b)%Q) by (apply Qmult_le_0_compat; assumption).
  assert (A1 : (a * (b * (1 - u)) <= a * rb)%Q)
    by (apply Qmult_le_nonneg_l; assumption).
  assert (A2 : (a * rb <= a * (b * (1 + u)))%Q)
    by (apply Qmult_le_nonneg_l; assumption).
  assert (C1 : (a * (b * (1 - u)) * (1 - u) <= a * rb * (1 - u))%Q).
  { apply Qmult_le_compat_r; [exact A1|]. rewrite Hu. discriminate. }
  assert (C2 : (a * rb * (1 + u) <= a * (b * (1 + u)) * (1 + u))%Q).
  { apply Qmult_le_compat_r; [exact A2|]. rewrite Hu. discriminate. }
  assert (E3 : (3 # 2 ^ 53 == 3 * u)%Q) by reflexivity.
  assert (U1 : (a * b * (u * u) <= a * b * u)%Q).
  { apply Qmult_le_nonneg_l; [|exact Hab]. rewrite Hu. discriminate. }
  assert (U0 : (0 <= a * b * (u * u))%Q).
  { apply Qmult_le_0_compat; [exact Hab|]. rewrite Hu. discriminate. }
  assert (U2 : (0 <= a * b * u)%Q).
  { apply Qmult_le_0_compat; [exact Hab|]. rewrite Hu. discriminate. }
  rewrite E3. split.
  - assert (E : (a * (b * (1 - u)) * (1 - u)
                 == a * b - 2 * (a * b * u) + a * b * (u * u))%Q) by ring.
    assert (E' : (a * b * (3 * u) == 3 * (a * b * u))%Q) by ring.
    lra.
  - assert (E : (a * (b * (1 + u)) * (1 + u)
                 == a * b + 2 * (a * b * u) + a * b * (u * u))%Q) by ring.
    assert (E' : (a * b * (3 * u) == 3 * (a * b * u))%Q) by ring.
    lra.
Qed.

(** ** The table lookups *)

Lemma get_monsters_Entry dm id data :
  DataManager.get_monsters dm id = Some data ->
  DataManager.get dm DataManager.monsters id = DataManager.Entry data.
Proof.
  unfold DataManager.get_monsters, DataManager.get.
  destruct (DataManager._initialized dm); [|discriminate]. by intros ->.
Qed.

Lemma get_monsters_None dm id :
  DataManager.get_monsters dm id = None ->
  DataManager.get dm DataManager.monsters id
  = (if DataManager._initialized dm && Object_prototype.has id
     then DataManager.Inherited else DataManager.Null).
Proof.
  unfold DataManager.get_monsters, DataManager.get.
  destruct (DataManager._initialized dm); [|reflexivity]. by intros ->.
Qed.

(** * Arithmetic of [Math.floor] *)

Lemma floor_div (n d : Z) : Math.floor (n / d) = n / d.
Proof. unfold Math.floor. symmetry. apply Zdiv_Qdiv. Qed.

Lemma floor_Z (n : Z) : Math.floor n = n.
Proof. apply Qfloor_Z. Qed.

Lemma floor_eq (x y : Q) : (x == y)%Q -> Math.floor x = Math.floor y.
Proof. apply Qfloor_comp. Qed.

Lemma floor_add_Z (x : Q) (k : Z) : Math.floor (x + k) = Math.floor x + k.
Proof.
  unfold Math.floor.
  assert (H1 := Qfloor_le x). assert (H2 := Qlt_floor x).
  assert (H3 := Qfloor_le (x + k)). assert (H4 := Qlt_floor (x + k)).
  rewrite inject_Z_plus in H2, H4.
  assert (Hlow : (inject_Z (Qfloor x + k) < inject_Z (Qfloor (x + k) + 1))%Q).
  { rewrite !inject_Z_plus. 
    apply Qle_lt_trans with (x + k)%Q; [ | exact H4].
    apply Qplus_le_l. exact H1. }
  assert (Hup : (inject_Z (Qfloor (x + k)) < inject_Z (Qfloor x + k + 1))%Q).
  { replace (Qfloor x + k + 1) with ((Qfloor x + 1) + k) by lia.
    rewrite (inject_Z_plus (Qfloor x + 1)). rewrite inject_Z_plus.
    apply Qle_lt_trans with (x + k)%Q; [exact H3 | ].
    apply Qplus_lt_l. exact H2. }
  rewrite <- Zlt_Qlt in Hlow, Hup. lia.
Qed.

Lemma hp_formula (b : Stats.t) (L : Z) (iv ev : Stats.t) :
  Stats.hp (_calculateStats b L iv ev)
  = ((2 * Stats.hp b + Stats.hp iv + Stats.hp ev / 4) * L) / 100 + L + 10.
Proof.
  unfold _calculateStats; cbn [Stats.hp].
  do 2 f_equal.
  change 4%Q with (inject_Z 4). rewrite (floor_div (Stats.hp ev) 4).
  rewrite <- (floor_div (_ * L) 100). apply floor_eq.
  rewrite !inject_Z_mult, !inject_Z_plus, inject_Z_mult. reflexivity.
Qed.

Lemma hp_grows (b : Stats.t) (L : Z) (iv ev : Stats.t) :
  0 <= 2 * Stats.hp b + Stats.hp iv + Stats.hp ev / 4 ->
  Stats.hp (_calculateStats b L iv ev) < Stats.hp (_calculateStats b (L + 1) iv ev).
Proof.
  intros Hc. rewrite !hp_formula.
  set (c := 2 * Stats.hp b + Stats.hp iv + Stats.hp ev / 4) in *.
  assert (c * L / 100 <= c * (L + 1) / 100).
  { apply Z.div_le_mono; lia. }
  lia.
Qed.

Lemma stat_formula (stat : Stats.t -> Z) (b : Stats.t) (L : Z) (iv ev : Stats.t) :
  Math.floor ((2 * stat b + stat iv + Math.floor (stat ev / 4)) * L / 100 + 5)
  = ((2 * stat b + stat iv + stat ev / 4) * L) / 100 + 5.
Proof.
  change 5%Q with (inject_Z 5). rewrite floor_add_Z. f_equal.
  change 4%Q with (inject_Z 4). rewrite (floor_div (stat ev) 4).
  rewrite <- (floor_div (_ * L) 100). apply floor_eq.
  rewrite !inject_Z_mult, !inject_Z_plus, inject_Z_mult. reflexivity.
Qed.


(** * Experience thresholds *)

Lemma fast_threshold (x : Z) : Math.floor (0.8 * x) = (8 * x) / 10.
Proof.
  rewrite <- floor_div. apply floor_eq.
  rewrite inject_Z_mult. unfold Qeq. cbn. lia.
Qed.

Lemma slow_threshold (x : Z) : Math.floor (1.25 * x) = (125 * x) / 100.
Proof.
  rewrite <- floor_div. apply floor_eq.
  rewrite inject_Z_mult. unfold Qeq. cbn. lia.
Qed.

Lemma cube_gap (L : Z) : 1 <= L -> L ^ 3 + 7 <= (L + 1) ^ 3.
Proof. intros H. nia. Qed.

(** [_getLevelExperience] is strictly increasing from level 1 on, for
    every growth rate. *)
Lemma levelExperience_increasing (L : Z) (growthRate : string) :
  1 <= L ->
  _getLevelExperience L growthRate < _getLevelExperience (L + 1) growthRate.
Proof.
  intros HL. unfold _getLevelExperience, Math.pow.
  assert (G := cube_gap L HL).
  destruct (Z.leb_spec L 0); [lia|]. destruct (Z.leb_spec (L + 1) 0); [lia|].
  set (a := L ^ 3) in *. set (b := (L + 1) ^ 3) in *.
  destruct (String.eqb growthRate "fast").
  { rewrite !fast_threshold.
    assert (8 * a / 10 + 1 <= 8 * b / 10); [|lia].
    replace (8 * a / 10 + 1) with ((8 * a + 1 * 10) / 10)
      by (rewrite Z.div_add by lia; reflexivity).
    apply Z.div_le_mono; lia. }
  destruct (String.eqb growthRate "medium").
  { rewrite !floor_Z. lia. }
  destruct (String.eqb growthRate "slow").
  { rewrite !slow_threshold.
    assert (125 * a / 100 + 1 <= 125 * b / 100); [|lia].
    replace (125 * a / 100 + 1) with ((125 * a + 1 * 100) / 100)
      by (rewrite Z.div_add by lia; reflexivity).
    apply Z.div_le_mono; lia. }
  rewrite !floor_Z. lia.
Qed.


(** * The level-up loop *)

Lemma levelUpLoop_step n data m lu na :
  levelUpLoop (S n) data m lu na =
  if loop_guard m
  then levelUpLoop n data (loop_body data m) true
                   (na ++ learned_at data (Monster.level m + 1))
  else (m, lu, na).
Proof. reflexivity. Qed.

Lemma levelUpLoop_invariant (I : Monster.t -> Prop) data :
  (forall m, I m -> loop_guard m = true -> I (loop_body data m)) ->
  forall n m lu na, I m -> I (levelUpLoop n data m lu na).1.1.
Proof.
  intros Hstep n. induction n as [|n IH]; intros m lu na Hm.
  - exact Hm.
  - rewrite levelUpLoop_step. destruct (loop_guard m) eqn:G.
    + apply IH. apply Hstep; assumption.
    + exact Hm.
Qed.

Lemma levelUpLoop_exits data n :
  forall m lu na,
    (Z.to_nat (GAME_CONFIG.MAX_MONSTER_LEVEL - Monster.level m) <= n)%nat ->
    loop_guard (levelUpLoop n data m lu na).1.1 = false.
Proof.
  induction n as [|n IH]; intros m lu na Hn.
  - cbn [levelUpLoop fst]. unfold loop_guard.
    apply andb_false_iff. right. apply Z.ltb_ge. lia.
  - rewrite levelUpLoop_step. destruct (loop_guard m) eqn:G.
    + apply IH. cbn [loop_body Monster.level].
      unfold loop_guard in G. apply andb_true_iff in G as [_ G].
      apply Z.ltb_lt in G. lia.
    + exact G.
Qed.

Lemma levelUpLoop_flag data n :
  forall m lu na,
    (levelUpLoop n data m lu na).1.2
    = lu || (Monster.level m <? Monster.level (levelUpLoop n data m lu na).1.1).
Proof.
  induction n as [|n IH]; intros m lu na.
  - cbn [levelUpLoop fst snd]. rewrite Z.ltb_irrefl. by rewrite orb_false_r.
  - rewrite levelUpLoop_step. destruct (loop_guard m) eqn:G.
    + rewrite IH. cbn [orb].
      assert (H := levelUpLoop_invariant
                     (fun x => Monster.level m < Monster.level x) data).
      symmetry. rewrite orb_comm.
      replace (_ <? _) with true; [done|].
      symmetry. apply Z.ltb_lt. apply H.
      * intros x Hx _. cbn [loop_body Monster.level]. lia.
      * cbn [loop_body Monster.level]. lia.
    + cbn [fst snd]. rewrite Z.ltb_irrefl. by rewrite orb_false_r.
Qed.

(** * MonsterSystem: damage, healing and status *)

Lemma applyDamage_currentHp m damage :
  Monster.currentHp (applyDamage m damage).1
  = Z.max 0 (Monster.currentHp m - damage).
Proof. reflexivity. Qed.

Lemma applyDamage_each_hp amounts :
  forall m last,
    Forall (fun d => 0 <= d) amounts ->
    0 <= Monster.currentHp m ->
    Monster.currentHp (applyDamage_each m amounts last).1
    = Z.max 0 (Monster.currentHp m - foldr Z.add 0 amounts).
Proof.
  induction amounts as [|d ds IH]; intros m last Hpos Hm.
  - cbn. lia.
  - inversion Hpos as [|? ? Hd Hds]; subst.
    cbn [applyDamage_each foldr]. rewrite IH; [|assumption|].
    + rewrite applyDamage_currentHp.
      assert (0 <= foldr Z.add 0 ds).
      { clear -Hds. induction Hds; cbn; lia. }
      lia.
    + rewrite applyDamage_currentHp. lia.
Qed.

Lemma applyDamage_each_last amounts :
  forall m last,
    amounts <> [] ->
    exists r, (applyDamage_each m amounts last).2 = Some r
              /\ DamageResult.fainted r
                 = (Monster.currentHp (applyDamage_each m amounts last).1 =? 0)
              /\ DamageResult.currentHp r
                 = Monster.currentHp (applyDamage_each m amounts last).1.
Proof.
  induction amounts as [|d ds IH]; intros m last Hne; [done|].
  cbn [applyDamage_each]. destruct ds as [|d' ds].
  - cbn [applyDamage_each fst snd]. eexists. split; [reflexivity|].
    split; reflexivity.
  - apply IH. done.
Qed.

Lemma awardExperience_known dm m amount data :
  DataManager.get_monsters dm (Monster.id m) = Some data ->
  (awardExperience dm m amount).1
  = (levelUpLoop (Z.to_nat (GAME_CONFIG.MAX_MONSTER_LEVEL - Monster.level m))
       data (Monster.set_experience (Monster.experience m + amount) m)
       false []).1.1.
Proof.
  intros Hdata. unfold awardExperience. rewrite Hdata.
  cbn [Monster.set_experience Monster.level].
  destruct (levelUpLoop _ _ _ _ _) as [[m' lu] na]. reflexivity.
Qed.

Lemma awardExperience_unknown dm m amount :
  DataManager.get_monsters dm (Monster.id m) = None ->
  awardExperience dm m amount = (m, AwardResult.NoData).
Proof. intros Hdata. unfold awardExperience. by rewrite Hdata. Qed.

Lemma hp_invariant_loop_body data m :
  derived_stats m -> hp_invariant m ->
  derived_stats (loop_body data m) /\ hp_invariant (loop_body data m).
Proof.
  intros (Hs & Hb & Hi & He) [Hlo Hhi]. split.
  - unfold derived_stats. cbn. auto.
  - unfold hp_invariant. cbn [loop_body Monster.currentHp Monster.stats].
    assert (Hg := hp_grows (Monster.baseStats m) (Monster.level m)
                           (Monster.ivs m) (Monster.evs m)).
    rewrite <- Hs in Hg.
    assert (0 <= Stats.hp (Monster.evs m) / 4) by (apply Z.div_pos; lia).
    lia.
Qed.

(** C10: [applyDamage] and [healMonster] change no field of the instance
    other than [currentHp]: id, name, type, level, experience,
    nextLevelExperience, base stats, stats, IVs, EVs, abilities, status,
    catch rate and shape are the ones of the instance they received, for
    every damage and every heal amount (given or left out). *)
Theorem damage_and_heal_frame (m : Monster.t) (damage : Z) (amount : option Z) :
  same_but_currentHp m (applyDamage m damage).1
  /\ same_but_currentHp m (healMonster m amount).1.
Proof.
  split.
  - unfold same_but_currentHp, applyDamage; cbn. repeat split.
  - unfold same_but_currentHp, healMonster. destruct amount; cbn; repeat split.
Qed.

(** C5, as stated, fails: a negative damage raises the hit points above
    the maximum, a negative heal amount lowers them below zero, and
    [awardExperience] lowers them below zero on an instance whose stats
    are not the derived ones. *)
Lemma hp_invariant_broken :
  let m := Sample.embercub_at 5 in
  let m2 := Monster.set_currentHp 1
              (Monster.set_stats (Stats.mk 500 11 9 12 10 10) m) in
  hp_invariant m
  /\ ~ hp_invariant (applyDamage m (-5)).1
  /\ ~ hp_invariant (healMonster m (Some (-30))).1
  /\ hp_invariant m2
  /\ ~ hp_invariant (awardExperience Sample.dataManager m2 1000).1.
Proof.
  cbv zeta. unfold hp_invariant.
  vm_compute. intuition congruence.
Qed.

(** C5 (amended): for an instance with 0 <= currentHp <= stats.hp,
    [applyDamage] never drives currentHp below 0 whatever the amount;
    non-negative damages that add up to the maximum or more leave
    currentHp at exactly 0 with fainted = true in the last record; and the
    invariant is kept by [applyDamage] for a non-negative damage, by
    [healMonster] for a non-negative amount or none, by [applyStatus] and
    [clearStatus] always, and by [awardExperience] when the stats of the
    instance are the derived ones. *)
Theorem hp_invariant_preserved (dm : DataManager.t) (m : Monster.t) :
  hp_invariant m ->
  (forall damage, 0 <= Monster.currentHp (applyDamage m damage).1)
  /\ (forall amounts,
         amounts <> [] -> Forall (fun d => 0 <= d) amounts ->
         Stats.hp (Monster.stats m) <= foldr Z.add 0 amounts ->
         Monster.currentHp (applyDamage_each m amounts None).1 = 0
         /\ exists r, (applyDamage_each m amounts None).2 = Some r
                      /\ DamageResult.fainted r = true
                      /\ DamageResult.currentHp r = 0)
  /\ (forall damage, 0 <= damage -> hp_invariant (applyDamage m damage).1)
  /\ (forall amount, 0 <= amount ->
                     hp_invariant (healMonster m (Some amount)).1)
  /\ hp_invariant (healMonster m None).1
  /\ (forall status, hp_invariant (applyStatus m status).1)
  /\ hp_invariant (clearStatus m).1
  /\ (forall amount, derived_stats m ->
                     hp_invariant (awardExperience dm m amount).1).
Proof.
  intros [Hlo Hhi].
  split; [|split; [|split; [|split; [|split; [|split; [|split]]]]]].
  - intros damage. rewrite applyDamage_currentHp. lia.
  - intros amounts Hne Hpos Hsum.
    assert (Hzero : Monster.currentHp (applyDamage_each m amounts None).1 = 0).
    { rewrite applyDamage_each_hp by assumption. lia. }
    split; [exact Hzero|].
    destruct (applyDamage_each_last amounts m None Hne) as (r & Hr & Hf & Hc).
    exists r. rewrite Hf, Hc, Hzero. auto.
  - intros damage Hd. unfold hp_invariant.
    rewrite applyDamage_currentHp. cbn. lia.
  - intros amount Ha. unfold hp_invariant, healMonster, Math.min. cbn. lia.
  - unfold hp_invariant, healMonster. cbn. lia.
  - intros status. unfold hp_invariant, applyStatus.
    destruct (truthy_ostr _); cbn; lia.
  - unfold hp_invariant, clearStatus. cbn. lia.
  - intros amount Hd.
    destruct (DataManager.get_monsters dm (Monster.id m)) as [data|] eqn:E.
    + rewrite (awardExperience_known _ _ _ _ E).
      apply (levelUpLoop_invariant
               (fun x => derived_stats x /\ hp_invariant x) data).
      * intros x [H1 H2] _. by apply hp_invariant_loop_body.
      * split; [exact Hd | split; assumption].
    + rewrite awardExperience_unknown by assumption. split; assumption.
Qed.

Lemma hp_invariant_preserved_witness :
  let m := Sample.embercub_at 5 in
  hp_invariant m
  /\ Monster.currentHp (applyDamage_each m [8; 8; 8] None).1 = 0
  /\ hp_invariant (applyDamage m 7).1
  /\ hp_invariant (healMonster (applyDamage m 7).1 (Some 3)).1
  /\ hp_invariant (awardExperience Sample.dataManager m 500).1.
Proof.
  assert (Hm : hp_invariant (Sample.embercub_at 5)).
  { unfold hp_invariant. vm_compute. split; discriminate. }
  assert (Hd : derived_stats (Sample.embercub_at 5)).
  { unfold derived_stats. vm_compute. repeat split; discriminate. }
  destruct (hp_invariant_preserved Sample.dataManager _ Hm)
    as (_ & Hrep & Hdmg & _ & _ & _ & _ & Hexp).
  assert (H7 : hp_invariant (applyDamage (Sample.embercub_at 5) 7).1).
  { apply Hdmg. lia. }
  destruct (hp_invariant_preserved Sample.dataManager _ H7)
    as (_ & _ & _ & Hheal & _).
  cbv zeta. split; [exact Hm|]. split.
  - apply Hrep.
    + discriminate.
    + repeat constructor; lia.
    + vm_compute. discriminate.
  - split; [exact H7|]. split.
    + apply Hheal. lia.
    + apply Hexp. exact Hd.
Defined.

(** C6, as stated, fails: an instance whose species the data lacks is
    returned untouched, whatever its counters say.  A Leafling of level 10
    with 2000 points of experience and a threshold of 1331 has the same
    counters after the call: the threshold does not exceed the experience
    and the level is not capped. *)
Lemma awardExperience_unknown_species_untouched :
  let m := Monster.set_experience 2000 Scenario.grass_defender in
  let m' := (awardExperience Sample.dataManager m 50).1 in
  DataManager.get_monsters Sample.dataManager (Monster.id m) = None
  /\ m' = m
  /\ Monster.level m' = 10
  /\ Monster.experience m' = 2000
  /\ Monster.nextLevelExperience m' = 1331
  /\ ~ (Monster.experience m' < Monster.nextLevelExperience m'
        \/ GAME_CONFIG.MAX_MONSTER_LEVEL <= Monster.level m').
Proof.
  cbv zeta. do 5 (split; [reflexivity|]).
  vm_compute. intros [H|H]; [discriminate | apply H; reflexivity].
Qed.

(** C6 (amended): [awardExperience] never lowers the level, and a level
    that started at or below MAX_MONSTER_LEVEL never exceeds it.  For an
    instance whose species the data knows, the amount, whatever its sign,
    is added to the experience, and the call ends with nextLevelExperience
    above the experience unless the level has reached MAX_MONSTER_LEVEL.  An
    instance whose species the data lacks is returned as it was, with the
    record [{ leveledUp: false }] (its species id taken not to name a member
    of [Object.prototype]). *)
Theorem awardExperience_monotonic (dm : DataManager.t) (m : Monster.t)
        (amount : Z) :
  let m' := (awardExperience dm m amount).1 in
  Monster.level m <= Monster.level m'
  /\ (Monster.level m <= GAME_CONFIG.MAX_MONSTER_LEVEL ->
      Monster.level m' <= GAME_CONFIG.MAX_MONSTER_LEVEL)
  /\ (is_Some (DataManager.get_monsters dm (Monster.id m)) ->
      Monster.experience m' = Monster.experience m + amount
      /\ (Monster.experience m' < Monster.nextLevelExperience m'
          \/ GAME_CONFIG.MAX_MONSTER_LEVEL <= Monster.level m'))
  /\ (DataManager.get_monsters dm (Monster.id m) = None ->
      Object_prototype.has (Monster.id m) = false ->
      awardExperience dm m amount = (m, AwardResult.NoData)).
Proof.
  intros m'. subst m'.
  destruct (DataManager.get_monsters dm (Monster.id m)) as [data|] eqn:Hdata.
  2: { rewrite awardExperience_unknown by exact Hdata. cbn [fst].
       split; [lia|]. split; [auto|]. split; [intros [? [=]] | auto]. }
  rewrite (awardExperience_known _ _ _ _ Hdata).
  set (start := Monster.set_experience (Monster.experience m + amount) m).
  set (n := Z.to_nat (GAME_CONFIG.MAX_MONSTER_LEVEL - Monster.level m)).
  split; [|split; [|split; [|discriminate]]].
  - apply (levelUpLoop_invariant
             (fun x => Monster.level m <= Monster.level x) data).
    + intros x Hx _. cbn [loop_body Monster.level]. lia.
    + cbn. lia.
  - intros Hcap.
    apply (levelUpLoop_invariant
             (fun x => Monster.level x <= GAME_CONFIG.MAX_MONSTER_LEVEL) data).
    + intros x Hx G. unfold loop_guard in G.
      apply andb_true_iff in G as [_ G]. apply Z.ltb_lt in G.
      cbn [loop_body Monster.level]. lia.
    + exact Hcap.
  - intros _. split.
    + apply (levelUpLoop_invariant
               (fun x => Monster.experience x = Monster.experience m + amount)
               data).
      * intros x Hx _. exact Hx.
      * reflexivity.
    + assert (G := levelUpLoop_exits data n start false []).
      unfold loop_guard in G. rewrite andb_false_iff in G.
      destruct G as [G|G]; [reflexivity| |].
      * left. apply Z.leb_gt in G. exact G.
      * right. apply Z.ltb_ge in G. exact G.
Qed.

Lemma awardExperience_monotonic_witness :
  let m := Sample.embercub_at 5 in
  let m' := (awardExperience Sample.dataManager m 900).1 in
  Monster.level m = 5 /\ Monster.level m' = 10
  /\ Monster.level m <= Monster.level m'
  /\ Monster.experience m' = Monster.experience m + 900
  /\ Monster.experience m' < Monster.nextLevelExperience m'.
Proof.
  cbv zeta.
  destruct (awardExperience_monotonic Sample.dataManager
              (Sample.embercub_at 5) 900) as (Hl & _ & Hknown & _).
  destruct Hknown as [He Hx]; [vm_compute; eauto|].
  split; [reflexivity|]. split; [reflexivity|]. split; [exact Hl|].
  split; [exact He|].
  destruct Hx as [Hx|Hx]; [exact Hx|].
  exfalso. revert Hx. vm_compute. intros Hx. apply Hx. reflexivity.
Defined.

Lemma awardExperience_record dm m amount data :
  DataManager.get_monsters dm (Monster.id m) = Some data ->
  exists levelsGained newAbilities,
    let m' := (awardExperience dm m amount).1 in
    let evolves :=
      (Monster.level m <? Monster.level m') &&
      match MonsterData.evolution data with
      | Some evolution =>
        truthy_onum (Evolution.level evolution) &&
        bool_decide (default 0 (Evolution.level evolution) <= Monster.level m')
      | None => false
      end in
    (awardExperience dm m amount).2
    = AwardResult.Award
        (Monster.level m <? Monster.level m') levelsGained newAbilities evolves
        (if evolves
         then from_option Evolution.evolvesTo None (MonsterData.evolution data)
         else None).
Proof.
  intros Hdata. unfold awardExperience. rewrite Hdata.
  set (start := Monster.set_experience (Monster.experience m + amount) m).
  change (Monster.level start) with (Monster.level m).
  assert (F := levelUpLoop_flag data
                 (Z.to_nat (GAME_CONFIG.MAX_MONSTER_LEVEL - Monster.level m))
                 start false []).
  destruct (levelUpLoop _ _ _ _ _) as [[m' lu] na].
  cbn [fst snd] in *. cbn [orb] in F.
  change (Monster.level start) with (Monster.level m) in F.
  subst lu. eauto.
Qed.

(** C7, as stated, fails: an Embercub of level 20, whose species evolves at
    level 16, gains ten points without reaching level 21, and the record
    reports no evolution. *)
Lemma canEvolve_false_without_level_up :
  let m := Sample.embercub_at 20 in
  let after := awardExperience Sample.dataManager m 10 in
  MonsterData.evolution Sample.embercub
  = Some (Evolution.mk (Some "monster-002") (Some 16) None None)
  /\ Monster.level after.1 = 20
  /\ AwardResult.canEvolve after.2 = false
  /\ AwardResult.evolutionId after.2 = None.
Proof. vm_compute. repeat split. Qed.

(** C7 (amended): when the species has an evolution rule with a non-zero
    level threshold, the record of [awardExperience] reports canEvolve =
    true together with the target species id if the call raised the level
    and the level reached is at or above the threshold; a call that did not
    raise the level reports canEvolve = false. *)
Theorem awardExperience_canEvolve (dm : DataManager.t) (m : Monster.t)
        (amount : Z) (data : MonsterData.t) (evolution : Evolution.t)
        (threshold : Z) :
  DataManager.get_monsters dm (Monster.id m) = Some data ->
  MonsterData.evolution data = Some evolution ->
  Evolution.level evolution = Some threshold ->
  threshold <> 0 ->
  let after := awardExperience dm m amount in
  (Monster.level m < Monster.level after.1 ->
   threshold <= Monster.level after.1 ->
   AwardResult.leveledUp after.2 = true
   /\ AwardResult.canEvolve after.2 = true
   /\ AwardResult.evolutionId after.2 = Evolution.evolvesTo evolution)
  /\ (Monster.level after.1 <= Monster.level m ->
      AwardResult.canEvolve after.2 = false
      /\ AwardResult.evolutionId after.2 = None).
Proof.
  intros Hdata Hevo Hlevel Hnz after. subst after.
  destruct (awardExperience_record dm m amount data Hdata)
    as (gained & learned & Hrec).
  cbv zeta in Hrec. rewrite Hrec, Hevo, Hlevel. clear Hrec.
  cbn [AwardResult.leveledUp AwardResult.canEvolve AwardResult.evolutionId
       truthy_onum default from_option].
  assert (Ht : truthy_num threshold = true).
  { unfold truthy_num. apply negb_true_iff. apply Z.eqb_neq. exact Hnz. }
  rewrite Ht. split.
  - intros Hup Hreach.
    apply Z.ltb_lt in Hup. rewrite Hup.
    rewrite bool_decide_eq_true_2 by exact Hreach. auto.
  - intros Hsame.
    replace (_ <? _) with false; [auto|].
    symmetry. apply Z.ltb_ge. exact Hsame.
Qed.

Lemma awardExperience_canEvolve_witness :
  let m := Sample.embercub_at 15 in
  let after := awardExperience Sample.dataManager m 1000 in
  Monster.level after.1 = 16
  /\ AwardResult.canEvolve after.2 = true
  /\ AwardResult.evolutionId after.2 = Some "monster-002".
Proof.
  cbv zeta.
  destruct (awardExperience_canEvolve Sample.dataManager
              (Sample.embercub_at 15) 1000 Sample.embercub
              (Evolution.mk (Some "monster-002") (Some 16) None None) 16)
    as [Hup _]; try reflexivity.
  - discriminate.
  - destruct Hup as (_ & Hc & Hi).
    + vm_compute. reflexivity.
    + vm_compute. discriminate.
    + split; [reflexivity|]. split; [exact Hc | exact Hi].
Defined.

(** C4, as stated, fails: for a species id that is not in the data,
    [createMonster] completes normally and returns null; nothing is
    thrown. *)
Lemma createMonster_unknown_returns_null :
  createMonster Sample.dataManager Sample.half "monster-999" 5
                CreateOptions.empty 0%nat
  = Returned (None, 0%nat)
  /\ ~ (exists e, createMonster Sample.dataManager Sample.half "monster-999" 5
                                CreateOptions.empty 0%nat = Thrown e).
Proof.
  split; [reflexivity|]. intros [e He]. vm_compute in He. discriminate.
Qed.

(** An id that only names a member of [Object.prototype] passes the
    null guard: the call throws. *)
Example createMonster_constructor_throws :
  createMonster Sample.dataManager Sample.half "constructor" 5
                CreateOptions.empty 0%nat
  = Thrown (TypeError "Cannot read properties of undefined (reading 'hp')").
Proof. reflexivity. Qed.

(** C4 (amended): for a known species id [createMonster] returns an
    instance of that species at the requested level (level 1 when the level
    is 0), at full hit points and without status.  For an id that the data
    lacks it raises no NotFoundError: it returns null, which no instance
    equals, and consumes no random draw, unless the id names a member of
    [Object.prototype] (constructor, toString, ...), which passes the null
    guard and makes the call throw a TypeError. *)
Theorem createMonster_outcome (dm : DataManager.t) (rnd : nat -> Q)
        (monsterId : string) (level : Z) (options : CreateOptions.t)
        (n : nat) :
  match DataManager.get_monsters dm monsterId with
  | Some data =>
    exists m n',
      createMonster dm rnd monsterId level options n = Returned (Some m, n')
      /\ Monster.id m = MonsterData.id data
      /\ Monster.name m = MonsterData.name data
      /\ Monster.type m = MonsterData.type data
      /\ Monster.level m = (if truthy_num level then level else 1)
      /\ Monster.stats m
         = _calculateStats (MonsterData.baseStats data) (Monster.level m)
                           (Monster.ivs m) (Monster.evs m)
      /\ Monster.currentHp m = Stats.hp (Monster.stats m)
      /\ Monster.status m = None
  | None =>
    if DataManager._initialized dm && Object_prototype.has monsterId
    then exists e,
           createMonster dm rnd monsterId level options n = Thrown e
           /\ JsError.name e = "TypeError"
    else createMonster dm rnd monsterId level options n = Returned (None, n)
  end.
Proof.
  unfold createMonster.
  destruct (DataManager.get_monsters dm monsterId) as [data|] eqn:Hdata.
  - rewrite (get_monsters_Entry _ _ _ Hdata).
    destruct (CreateOptions.ivs options) as [ivs|].
    + eexists _, _. split; [reflexivity|]. cbn. repeat split.
    + eexists _, _. split; [reflexivity|]. cbn. repeat split.
  - rewrite (get_monsters_None _ _ Hdata).
    destruct (_ && _); [|reflexivity].
    destruct (CreateOptions.ivs options) as [ivs|];
      eexists; (split; [reflexivity|reflexivity]).
Qed.

(** An instance built by [createMonster] at a level of 1 or more, from
    a species with a non-negative HP base stat and IVs and EVs that are not
    negative, has the derived stats, full hit points, and an experience
    below the threshold of the next level. *)
Lemma createMonster_well_formed dm rnd monsterId level ivs evs abilities n data :
  DataManager.get_monsters dm monsterId = Some data ->
  1 <= level ->
  0 <= Stats.hp (MonsterData.baseStats data) ->
  0 <= Stats.hp ivs -> 0 <= Stats.hp evs ->
  exists m,
    createMonster dm rnd monsterId level
                  (CreateOptions.mk (Some ivs) (Some evs) abilities) n
    = Returned (Some m, n)
    /\ derived_stats m /\ hp_invariant m
    /\ Monster.experience m < Monster.nextLevelExperience m.
Proof.
  intros Hdata Hlevel Hb Hi He. unfold createMonster.
  rewrite (get_monsters_Entry _ _ _ Hdata).
  assert (Ht : truthy_num level = true).
  { unfold truthy_num. apply negb_true_iff. apply Z.eqb_neq. lia. }
  rewrite Ht. eexists. split; [reflexivity|].
  split; [|split].
  - unfold derived_stats. cbn. auto.
  - unfold hp_invariant.
    cbn [Monster.currentHp Monster.stats CreateOptions.ivs CreateOptions.evs
         from_option id].
    rewrite hp_formula.
    assert (0 <= Stats.hp evs / 4) by (apply Z.div_pos; lia).
    assert (0 <= (2 * Stats.hp (MonsterData.baseStats data) + Stats.hp ivs
                  + Stats.hp evs / 4) * level / 100).
    { apply Z.div_pos; [|lia]. apply Z.mul_nonneg_nonneg; lia. }
    lia.
  - cbn [Monster.experience Monster.nextLevelExperience].
    apply levelExperience_increasing. exact Hlevel.
Qed.

(** * Evolution *)

(** The hit points after an evolution lie between 0 and the new maximum. *)
Lemma evolved_hp_range (newMax cur oldMax : Z) :
  0 <= newMax -> 0 < oldMax -> 0 <= cur <= oldMax ->
  0 <= Math.floor (newMax *~ (cur /~ oldMax)) <= newMax.
Proof.
  intros Hn Ho Hc. destruct (ratio_range cur oldMax Ho Hc) as [R0 R1].
  unfold Double.mul, Double.div.
  set (ratio := Double.round (inject_Z cur / inject_Z oldMax)).
  assert (H0 : (0 <= ratio)%Q) by (apply round_nonneg; exact R0).
  assert (H1 : (ratio <= 1)%Q).
  { rewrite <- round_one. apply round_mono; assumption. }
  assert (Hn' : (0 <= inject_Z newMax)%Q).
  { change 0%Q with (inject_Z 0). rewrite <- Zle_Qle. exact Hn. }
  assert (P0 : (0 <= inject_Z newMax * ratio)%Q)
    by (apply Qmult_le_0_compat; assumption).
  assert (P1 : (inject_Z newMax * ratio <= inject_Z newMax)%Q) by nra.
  apply floor_between.
  - apply round_nonneg. exact P0.
  - assert (H := round_mono _ _ P0 P1). rewrite round_Z in H. lra.
Qed.

Lemma evolved_hp_zero (newMax cur oldMax : Z) :
  cur = 0 -> Math.floor (newMax *~ (cur /~ oldMax)) = 0.
Proof.
  intros ->. unfold Double.mul, Double.div.
  rewrite (round_zero (inject_Z 0 / inject_Z oldMax))
    by (unfold Qdiv; ring).
  rewrite (round_zero (inject_Z newMax * 0)) by ring.
  reflexivity.
Qed.

Lemma evolved_hp_full (newMax oldMax : Z) :
  oldMax <> 0 -> Math.floor (newMax *~ (oldMax /~ oldMax)) = newMax.
Proof.
  intros Ho. unfold Double.mul, Double.div.
  assert (E : (inject_Z oldMax / inject_Z oldMax == 1)%Q).
  { apply Qmult_inv_r. intros H. apply Ho.
    change 0%Q with (inject_Z 0) in H. rewrite inject_Z_injective in H.
    exact H. }
  rewrite (round_comp _ _ E), round_one.
  rewrite (round_comp (inject_Z newMax * 1) (inject_Z newMax)) by ring.
  unfold Math.floor. rewrite (Qfloor_comp _ _ (round_Z newMax)).
  apply Qfloor_Z.
Qed.

(** The hit points after an evolution are the exact floor(newMax * cur /
    oldMax) or one less, and one less only when the exact value is an
    integer. *)
Lemma evolved_hp_near (newMax cur oldMax : Z) :
  0 <= newMax -> 0 < oldMax -> 0 <= cur <= oldMax ->
  newMax * oldMax <= 2 ^ 51 ->
  let h := Math.floor (newMax *~ (cur /~ oldMax)) in
  (newMax * cur) / oldMax - 1 <= h <= (newMax * cur) / oldMax
  /\ ((newMax * cur) mod oldMax <> 0 -> h = (newMax * cur) / oldMax).
Proof.
  intros Hn Ho Hc Hsmall. cbv zeta.
  destruct (ratio_range cur oldMax Ho Hc) as [R0 R1].
  assert (Hn' : (0 <= inject_Z newMax)%Q).
  { change 0%Q with (inject_Z 0). rewrite <- Zle_Qle. exact Hn. }
  assert (Ho' : (0 < inject_Z oldMax)%Q).
  { change 0%Q with (inject_Z 0). rewrite <- Zlt_Qlt. exact Ho. }
  destruct (two_roundings (inject_Z newMax) (inject_Z cur / inject_Z oldMax)
                          Hn' R0) as [T1 T2].
  change (Double.round (inject_Z cur / inject_Z oldMax))
    with (inject_Z cur /~ inject_Z oldMax) in T1, T2.
  set (v := inject_Z newMax *~ (inject_Z cur /~ inject_Z oldMax)) in *.
  set (k := (newMax * cur) / oldMax).
  set (r := (newMax * cur) mod oldMax).
  assert (D : newMax * cur = oldMax * k + r) by (apply Z.div_mod; lia).
  assert (Hr : 0 <= r < oldMax) by (apply Z.mod_pos_bound; exact Ho).
  (* the exact value, times oldMax *)
  set (x := (inject_Z newMax * (inject_Z cur / inject_Z oldMax))%Q) in *.
  assert (Hx : (x * inject_Z oldMax == inject_Z oldMax * inject_Z k + inject_Z r)%Q).
  { rewrite <- inject_Z_mult, <- inject_Z_plus, <- D, inject_Z_mult.
    unfold x. field. lra. }
  assert (Hxn : (x <= inject_Z newMax)%Q).
  { unfold x. rewrite <- (Qmult_1_r (inject_Z newMax)) at 2.
    apply Qmult_le_nonneg_l; assumption. }
  assert (Hx0 : (0 <= x)%Q) by (apply Qmult_le_0_compat; assumption).
  assert (Hno : (inject_Z newMax * inject_Z oldMax <= 2 ^ 51)%Q).
  { rewrite <- inject_Z_mult. change (2 ^ 51)%Q with (inject_Z (2 ^ 51)).
    rewrite <- Zle_Qle. exact Hsmall. }
  (* the error, times oldMax, is below one *)
  assert (He : (x * (3 # 2 ^ 53) * inject_Z oldMax < 1)%Q).
  { assert (E : (x * (3 # 2 ^ 53) * inject_Z oldMax
                 == (x * inject_Z oldMax) * (3 # 2 ^ 53))%Q) by ring.
    assert (H1 : (x * inject_Z oldMax <= inject_Z newMax * inject_Z oldMax)%Q).
    { apply Qmult_le_compat_r; [exact Hxn | lra]. }
    assert (H2 : ((x * inject_Z oldMax) * (3 # 2 ^ 53)
                  <= 2 ^ 51 * (3 # 2 ^ 53))%Q).
    { apply Qmult_le_compat_r; [lra | discriminate]. }
    assert (H3 : (2 ^ 51 * (3 # 2 ^ 53) < 1)%Q) by reflexivity.
    lra. }
  assert (V1 : ((x - x * (3 # 2 ^ 53)) * inject_Z oldMax
                <= v * inject_Z oldMax)%Q).
  { apply Qmult_le_compat_r; lra. }
  assert (V2 : (v * inject_Z oldMax
                <= (x + x * (3 # 2 ^ 53)) * inject_Z oldMax)%Q).
  { apply Qmult_le_compat_r; lra. }
  assert (W1 : (inject_Z oldMax * inject_Z k + inject_Z r - 1
                < v * inject_Z oldMax)%Q).
  { assert (E : ((x - x * (3 # 2 ^ 53)) * inject_Z oldMax
                 == x * inject_Z oldMax
                    - x * (3 # 2 ^ 53) * inject_Z oldMax)%Q) by ring.
    lra. }
  assert (W2 : (v * inject_Z oldMax
                < inject_Z oldMax * inject_Z k + inject_Z r + 1)%Q).
  { assert (E : ((x + x * (3 # 2 ^ 53)) * inject_Z oldMax
                 == x * inject_Z oldMax
                    + x * (3 # 2 ^ 53) * inject_Z oldMax)%Q) by ring.
    lra. }
  assert (Hr1 : (0 <= inject_Z r)%Q).
  { change 0%Q with (inject_Z 0). rewrite <- Zle_Qle. lia. }
  assert (Hr2 : (inject_Z r + 1 <= inject_Z oldMax)%Q).
  { change 1%Q with (inject_Z 1). rewrite <- inject_Z_plus, <- Zle_Qle. lia. }
  assert (Ho1 : (1 <= inject_Z oldMax)%Q).
  { change 1%Q with (inject_Z 1). rewrite <- Zle_Qle. lia. }
  assert (Up : (v < inject_Z k + 1)%Q).
  { apply Qnot_le_lt. intros C.
    assert ((inject_Z k + 1) * inject_Z oldMax <= v * inject_Z oldMax)%Q
      by (apply Qmult_le_compat_r; lra).
    lra. }
  assert (Lo : (inject_Z (k - 1) <= v)%Q).
  { unfold Zminus. rewrite inject_Z_plus. change (inject_Z (- (1))) with (-1)%Q.
    apply Qnot_lt_le. intros C.
    assert (v * inject_Z oldMax <= (inject_Z k + -1) * inject_Z oldMax)%Q
      by (apply Qmult_le_compat_r; lra).
    lra. }
  split.
  - apply floor_between; assumption.
  - intros Hr0.
    assert (Hr3 : (1 <= inject_Z r)%Q).
    { change 1%Q with (inject_Z 1). rewrite <- Zle_Qle. fold r in Hr0. lia. }
    assert (Lo' : (inject_Z k <= v)%Q).
    { apply Qnot_lt_le. intros C.
      assert (v * inject_Z oldMax <= inject_Z k * inject_Z oldMax)%Q
        by (apply Qmult_le_compat_r; lra).
      lra. }
    destruct (floor_between v k k Lo' Up). lia.
Qed.

Lemma evolveMonster_no_target dm rnd m n :
  evolution_target dm m = None -> evolveMonster dm rnd m n = Returned (m, n).
Proof.
  unfold evolution_target, evolveMonster.
  destruct (DataManager.get_monsters dm (Monster.id m)) as [data|];
    [|reflexivity].
  destruct (MonsterData.evolution data) as [evolution|]; [|reflexivity].
  destruct (truthy_ostr (Evolution.evolvesTo evolution)) eqn:T;
    [|reflexivity].
  destruct (Evolution.evolvesTo evolution); discriminate.
Qed.

Lemma evolveMonster_target dm rnd m n targetId :
  evolution_target dm m = Some targetId ->
  DataManager._initialized dm = true
  /\ evolveMonster dm rnd m n
     = match DataManager.get dm DataManager.monsters targetId with
       | DataManager.Null => ret m
       | _ =>
         bind (createMonster dm rnd targetId (Monster.level m)
                 {| CreateOptions.ivs := Some (Monster.ivs m);
                    CreateOptions.evs := Some (Monster.evs m);
                    CreateOptions.abilities := None |})
              (fun created =>
                 match created with
                 | None => throw (TypeError "Cannot set properties of null")
                 | Some e =>
                   ret (Monster.set_currentHp
                          (Math.floor
                             (Stats.hp (Monster.stats e)
                              *~ (Monster.currentHp m
                                  /~ Stats.hp (Monster.stats m))))
                          (Monster.set_nextLevelExperience
                             (Monster.nextLevelExperience m)
                             (Monster.set_experience (Monster.experience m)
                                                     e)))
                 end)
       end n.
Proof.
  unfold evolution_target, evolveMonster, DataManager.get_monsters.
  destruct (DataManager._initialized dm) eqn:Hi; [|discriminate].
  destruct (DataManager.monsters dm !! Monster.id m) as [data|];
    [|discriminate].
  destruct (MonsterData.evolution data) as [evolution|]; [|discriminate].
  destruct (truthy_ostr (Evolution.evolvesTo evolution)) eqn:T;
    [|discriminate].
  intros ->. split; [reflexivity|]. cbn [negb from_option]. unfold id.
  destruct (DataManager.get dm DataManager.monsters targetId); reflexivity.
Qed.

Lemma evolveMonster_created dm rnd m n targetId target :
  evolution_target dm m = Some targetId ->
  DataManager.get_monsters dm targetId = Some target ->
  Monster.level m <> 0 ->
  exists e,
    evolveMonster dm rnd m n = Returned (e, n)
    /\ Monster.id e = MonsterData.id target
    /\ Monster.name e = MonsterData.name target
    /\ Monster.type e = MonsterData.type target
    /\ Monster.level e = Monster.level m
    /\ Monster.ivs e = Monster.ivs m
    /\ Monster.evs e = Monster.evs m
    /\ Monster.experience e = Monster.experience m
    /\ Monster.nextLevelExperience e = Monster.nextLevelExperience m
    /\ Monster.stats e
       = _calculateStats (MonsterData.baseStats target) (Monster.level m)
                         (Monster.ivs m) (Monster.evs m)
    /\ Monster.currentHp e
       = Math.floor (Stats.hp (Monster.stats e)
                     *~ (Monster.currentHp m /~ Stats.hp (Monster.stats m)))
    /\ Monster.abilities e = _getAbilitiesForLevel target (Monster.level m)
    /\ Monster.status e = None
    /\ Monster.catchRate e = MonsterData.catchRate target
    /\ Monster.baseStats e = MonsterData.baseStats target.
Proof.
  intros Htarget Hknown Hlevel.
  destruct (evolveMonster_target dm rnd m n targetId Htarget) as [_ ->].
  rewrite (get_monsters_Entry _ _ _ Hknown).
  unfold createMonster, bind, ret. rewrite (get_monsters_Entry _ _ _ Hknown).
  cbn [CreateOptions.ivs CreateOptions.evs CreateOptions.abilities
       from_option id].
  assert (Ht : truthy_num (Monster.level m) = true).
  { unfold truthy_num. apply negb_true_iff. apply Z.eqb_neq. exact Hlevel. }
  rewrite Ht. eexists. split; [reflexivity|].
  cbn [Monster.set_currentHp Monster.set_nextLevelExperience
       Monster.set_experience Monster.id Monster.name Monster.type
       Monster.level Monster.ivs Monster.evs Monster.experience
       Monster.nextLevelExperience Monster.stats Monster.currentHp
       Monster.abilities Monster.status Monster.catchRate Monster.baseStats].
  repeat split.
Qed.

(** The data of the samples without the second species: the Embercub's
    evolution target is missing. *)
Lemma evolveMonster_target_missing_example :
  let dm := DataManager.mk true {["monster-001" := Sample.embercub]} ∅ ∅ in
  evolution_target dm (Sample.embercub_at 16) = Some "monster-002"
  /\ evolveMonster dm Sample.half (Sample.embercub_at 16) 0%nat
     = Returned (Sample.embercub_at 16, 0%nat).
Proof. split; reflexivity. Qed.

(** C8, as stated, fails: an Embercub of level 83 with 48 of its 176 hit
    points evolves into a Blazebear of 209 hit points at most.
    floor(209 * 48 / 176) is 57, but the code divides first, the quotient
    48/176 is rounded to a double, and 209 times that double is below 57:
    the new instance has 56 hit points. *)
Lemma evolveMonster_hp_below_exact :
  let m := (applyDamage (Sample.embercub_at 83) 128).1 in
  Monster.currentHp m = 48 /\ Stats.hp (Monster.stats m) = 176
  /\ Math.floor (209 * 48 / 176) = 57
  /\ returns (evolveMonster Sample.dataManager Sample.half m) 0%nat
       (fun e _ =>
          Monster.id e = "monster-002"
          /\ Stats.hp (Monster.stats e) = 209
          /\ Monster.currentHp e = 56).
Proof. vm_compute. repeat split. Qed.

(** C8 (amended): when the species of the instance has no evolution
    target, or has one that the data lacks, [evolveMonster] returns the
    instance it received, unchanged (a missing target whose id names a
    member of [Object.prototype] makes [createMonster], and so the call,
    throw a TypeError).  When the data knows the target, the call returns a
    new instance of the target species at the same level, with the same IVs
    and EVs and the stats derived for the target, carries experience and
    nextLevelExperience over, and sets currentHp to floor(newMaxHp *
    (oldCurrentHp / oldMaxHp)), the quotient and the product each rounded to
    a double.  For an instance with 0 <= currentHp <= stats.hp and
    newMaxHp * oldMaxHp <= 2^51 this is floor(newMaxHp * oldCurrentHp /
    oldMaxHp) or one less, and one less only when oldMaxHp divides
    newMaxHp * oldCurrentHp.  No random draw is consumed. *)
Theorem evolveMonster_spec (dm : DataManager.t) (rnd : nat -> Q)
        (m : Monster.t) (n : nat) :
  (evolution_target dm m = None -> evolveMonster dm rnd m n = Returned (m, n))
  /\ (forall targetId,
         evolution_target dm m = Some targetId ->
         DataManager.get_monsters dm targetId = None ->
         if Object_prototype.has targetId
         then exists err,
                evolveMonster dm rnd m n = Thrown err
                /\ JsError.name err = "TypeError"
         else evolveMonster dm rnd m n = Returned (m, n))
  /\ (forall targetId target,
         evolution_target dm m = Some targetId ->
         DataManager.get_monsters dm targetId = Some target ->
         Monster.level m <> 0 ->
         0 < Stats.hp (Monster.stats m) ->
         exists e,
           evolveMonster dm rnd m n = Returned (e, n)
           /\ Monster.id e = MonsterData.id target
           /\ Monster.name e = MonsterData.name target
           /\ Monster.type e = MonsterData.type target
           /\ Monster.level e = Monster.level m
           /\ Monster.ivs e = Monster.ivs m
           /\ Monster.evs e = Monster.evs m
           /\ Monster.experience e = Monster.experience m
           /\ Monster.nextLevelExperience e = Monster.nextLevelExperience m
           /\ Monster.stats e
              = _calculateStats (MonsterData.baseStats target)
                                (Monster.level m) (Monster.ivs m)
                                (Monster.evs m)
           /\ Monster.currentHp e
              = Math.floor (Stats.hp (Monster.stats e)
                            *~ (Monster.currentHp m
                                /~ Stats.hp (Monster.stats m)))
           /\ (hp_invariant m ->
               0 <= Stats.hp (Monster.stats e) ->
               Stats.hp (Monster.stats e) * Stats.hp (Monster.stats m)
               <= 2 ^ 51 ->
               let exact :=
                 Stats.hp (Monster.stats e) * Monster.currentHp m
                 / Stats.hp (Monster.stats m) in
               exact - 1 <= Monster.currentHp e <= exact
               /\ ((Stats.hp (Monster.stats e) * Monster.currentHp m)
                     mod Stats.hp (Monster.stats m) <> 0 ->
                   Monster.currentHp e = exact))).
Proof.
  split; [apply evolveMonster_no_target|]. split.
  - intros targetId Htarget Hmissing.
    destruct (evolveMonster_target dm rnd m n targetId Htarget) as [Hi ->].
    rewrite (get_monsters_None _ _ Hmissing), Hi. cbn [andb].
    destruct (Object_prototype.has targetId) eqn:Hhas; [|reflexivity].
    unfold createMonster, bind.
    rewrite (get_monsters_None _ _ Hmissing), Hi, Hhas. cbn [andb].
    eexists. split; reflexivity.
  - intros targetId target Htarget Hknown Hlevel Hhp.
    destruct (evolveMonster_created dm rnd m n targetId target Htarget Hknown
                                    Hlevel)
      as (e & Hrun & Hid & Hname & Htype & Hlv & Hivs & Hevs & Hexp & Hnext
          & Hstats & Hcur & _).
    exists e. do 10 (split; [assumption|]). split; [exact Hcur|].
    intros Hinv Hnew Hsmall. rewrite Hcur.
    apply evolved_hp_near; assumption.
Qed.

Lemma evolveMonster_spec_witness :
  let m := (applyDamage (Sample.embercub_at 16) 13).1 in
  exists e,
    evolveMonster Sample.dataManager Sample.half m 0%nat = Returned (e, 0%nat)
    /\ Monster.id e = "monster-002"
    /\ Monster.level e = 16
    /\ Monster.currentHp m = 29 /\ Stats.hp (Monster.stats m) = 42
    /\ Monster.currentHp e = 33 /\ Stats.hp (Monster.stats e) = 48.
Proof.
  cbv zeta.
  destruct (evolveMonster_spec Sample.dataManager Sample.half
              (applyDamage (Sample.embercub_at 16) 13).1 0%nat)
    as (_ & _ & H).
  destruct (H "monster-002" Sample.blazebear) as (e & He & Hid & _ & _ & Hl
                                                  & _ & _ & _ & _ & Hs & Hc & _).
  - reflexivity.
  - reflexivity.
  - vm_compute. discriminate.
  - vm_compute. reflexivity.
  - exists e. split; [exact He|]. split; [exact Hid|]. split; [exact Hl|].
    split; [reflexivity|]. split; [reflexivity|].
    rewrite Hc, Hs. split; vm_compute; reflexivity.
Defined.

(** * The type chart *)

Lemma eval_object_lookup {A B} (eval : A -> outcome B) props :
  forall acc m k b,
    eval_object eval props acc = Returned m ->
    m !! k = Some b ->
    acc !! k = Some b \/ exists a, In (k, a) props /\ eval a = Returned b.
Proof.
  induction props as [|[k' a] rest IH]; intros acc m k b Heval Hk.
  - injection Heval as <-. auto.
  - cbn [eval_object] in Heval. destruct (eval a) as [b'|e] eqn:Ea; [|done].
    destruct (IH _ _ _ _ Heval Hk) as [Hacc|(a' & Hin & Ha')].
    + destruct (decide (k' = k)) as [->|Hne].
      * rewrite lookup_insert_eq in Hacc. injection Hacc as ->.
        right. exists a. split; [left; reflexivity | exact Ea].
      * rewrite lookup_insert_ne in Hacc by exact Hne. auto.
    + right. exists a'. split; [right; exact Hin | exact Ha'].
Qed.

Lemma eval_object_total {A B} (eval : A -> outcome B) props :
  Forall (fun p => exists b, eval p.2 = Returned b) props ->
  forall acc, exists m, eval_object eval props acc = Returned m.
Proof.
  induction 1 as [|[k a] rest [b Hb] _ IH]; intros acc.
  - eexists. reflexivity.
  - cbn [eval_object]. cbn [snd] in Hb. rewrite Hb. apply IH.
Qed.

Lemma typeChart_literal_cells :
  forallb (fun row => forallb (fun cell => cell_ok cell.2) row.2)
          typeChart_literal = true.
Proof. vm_compute. reflexivity. Qed.

Lemma cell_ok_value scope c q :
  cell_ok c = true -> eval_cell scope c = Returned q ->
  chart_multiplier q \/ scope !! "A" = Some q.
Proof.
  destruct c as [[n d]|x]; cbn [cell_ok eval_cell].
  - intros H [= <-]. left. unfold chart_multiplier.
    rewrite !orb_true_iff, !bool_decide_eq_true in H. cbn in H.
    destruct H as [[[[-> ->]|[-> ->]]|[-> ->]]|[-> ->]]; auto.
  - intros H. apply String.eqb_eq in H. subst x.
    destruct (scope !! "A") as [v|]; [|done]. intros [= <-]. auto.
Qed.

(** What holds of the table apart from the free identifier: in a scope
    that binds [A], the constructor completes and every cell holds one of
    the four multipliers or the value of [A]. *)
Lemma typeChart_in_scope scope v :
  scope !! "A" = Some v ->
  exists this,
    new_BattleSystem scope = Returned this
    /\ forall attackType defenderType,
        let q := _calculateTypeEffectiveness this attackType defenderType in
        chart_multiplier q \/ q = v.
Proof.
  intros HA. unfold new_BattleSystem, eval_typeChart.
  assert (Hcells := typeChart_literal_cells). rewrite forallb_forall in Hcells.
  destruct (eval_object_total
              (fun row => eval_object (eval_cell scope) row ∅)
              typeChart_literal) with (acc := (∅ : gmap string (gmap string Q)))
    as [chart Hchart].
  { apply Forall_forall. intros [k row] Hin. cbn [snd].
    apply eval_object_total. apply Forall_forall. intros [k' cell] Hin'.
    apply list_elem_of_In in Hin, Hin'.
    specialize (Hcells _ Hin). cbn [snd] in Hcells.
    rewrite forallb_forall in Hcells. specialize (Hcells _ Hin').
    cbn [snd] in *. destruct cell as [q|x]; cbn.
    - eauto.
    - apply String.eqb_eq in Hcells. subst x. rewrite HA. eauto. }
  rewrite Hchart. eexists. split; [reflexivity|].
  intros attackType defenderType. unfold _calculateTypeEffectiveness.
  cbn [BattleSystem._typeChart].
  destruct (chart !! attackType) as [row|] eqn:Hrow;
    [|left; unfold chart_multiplier; auto].
  destruct (row !! defenderType) as [q|] eqn:Hq;
    [|left; unfold chart_multiplier; auto].
  destruct (eval_object_lookup _ _ _ _ _ _ Hchart Hrow)
    as [Hempty|(cells & Hin & Hcellsv)].
  { rewrite lookup_empty in Hempty. done. }
  destruct (eval_object_lookup _ _ _ _ _ _ Hcellsv Hq)
    as [Hempty|(cell & Hin' & Hcell)].
  { rewrite lookup_empty in Hempty. done. }
  specialize (Hcells _ Hin). cbn [snd] in Hcells.
  rewrite forallb_forall in Hcells. specialize (Hcells _ Hin').
  cbn [snd] in Hcells.
  destruct (cell_ok_value scope cell q Hcells Hcell) as [H|H]; [auto|].
  right. congruence.
Qed.

(** The lookup itself never throws, and a pair that the chart does not
    define gives exactly 1. *)
Lemma typeEffectiveness_default this attackType defenderType :
  (BattleSystem._typeChart this !! attackType = None
   \/ exists row, BattleSystem._typeChart this !! attackType = Some row
                  /\ row !! defenderType = None) ->
  _calculateTypeEffectiveness this attackType defenderType = 1%Q.
Proof.
  unfold _calculateTypeEffectiveness.
  intros [-> | (row & -> & ->)]; reflexivity.
Qed.

(** C1: the claim needs the chart to exist.  The literal that the
    constructor assigns to [_typeChart] writes the cell fighting/water as
    the identifier [A], which no script of the page binds: evaluating
    [new BattleSystem(scene)] throws a ReferenceError, so no lookup, for
    fighting against water or any other pair, returns a multiplier. *)
Theorem typeChart_construction_throws :
  In ("fighting", "water", Ident "A")
     (flat_map (fun row => map (fun cell => (row.1, cell.1, cell.2)) row.2)
               typeChart_literal)
  /\ new_BattleSystem page_scope = Thrown (ReferenceError "A").
Proof.
  split.
  - vm_compute. tauto.
  - vm_compute. reflexivity.
Qed.

(** * Reasoning about calls *)

Lemma returns_weaken {S A} (c : M S A) (s : S) (post post' : A -> S -> Prop) :
  returns c s post -> (forall v s', post v s' -> post' v s') ->
  returns c s post'.
Proof.
  unfold returns. destruct (c s) as [[v s']|e]; [|done]. intros H Himp. auto.
Qed.

Lemma returns_bind {S A B} (c : M S A) (k : A -> M S B) (s : S)
      (post : B -> S -> Prop) :
  returns c s (fun v s' => returns (k v) s' post) ->
  returns (bind c k) s post.
Proof.
  unfold returns, bind. destruct (c s) as [[v s']|e]; auto.
Qed.

Lemma returns_ret {S A} (v : A) (s : S) (post : A -> S -> Prop) :
  post v s -> returns (ret v) s post.
Proof. auto. Qed.







Lemma deref_returns r w m :
  World.heap w !! r = Some m -> deref r w = Returned (m, w).
Proof. unfold deref. by intros ->. Qed.

Lemma valid_lookup r w : valid r w -> exists m, World.heap w !! r = Some m.
Proof. intros H. apply lookup_lt_is_Some_2 in H. exact H. Qed.

Lemma returns_deref r w (post : Monster.t -> World.t -> Prop) :
  valid r w ->
  (forall m, World.heap w !! r = Some m -> post m w) ->
  returns (deref r) w post.
Proof.
  intros Hr Hpost. destruct (valid_lookup r w Hr) as [m Hm].
  unfold returns. rewrite (deref_returns _ _ _ Hm). auto.
Qed.


Lemma mutate_returns {A} r (method : Monster.t -> Monster.t * A) w m :
  World.heap w !! r = Some m ->
  mutate r method w
  = Returned ((method m).2,
              World.set_heap (<[r := (method m).1]> (World.heap w)) w).
Proof.
  intros Hm. unfold mutate, bind. rewrite (deref_returns _ _ _ Hm). reflexivity.
Qed.












(** * Running away *)

Lemma floor_scaled_range (r : Q) (k : Z) :
  (0 <= r)%Q -> (r < 1)%Q -> 0 < k -> 0 <= Math.floor (r * k) <= k - 1.
Proof.
  intros H0 H1 Hk. unfold Math.floor.
  assert (Hk' : (inject_Z 0 < inject_Z k)%Q) by (rewrite <- Zlt_Qlt; exact Hk).
  change (inject_Z 0) with 0%Q in Hk'.
  split.
  - change 0 with (Qfloor 0). apply Qfloor_resp_le.
    apply Qmult_le_0_compat; [exact H0 | apply Qlt_le_weak; exact Hk'].
  - assert (L := Qfloor_le (r * k)).
    assert (U : (r * k < k)%Q).
    { rewrite <- (Qmult_1_l k) at 2. apply Qmult_lt_r; assumption. }
    assert (T : (inject_Z (Qfloor (r * k)) < inject_Z k)%Q).
    { eapply Qle_lt_trans; eassumption. }
    rewrite <- Zlt_Qlt in T. lia.
Qed.

(** C9: in a wild battle with both active monsters present and an enemy
    speed other than 0, [_attemptRun]
    raises the run-attempt counter by one (from 0 when unset) whatever the
    outcome, computes escapeChance = floor(playerSpeed * 128 / enemySpeed
    + 30 * attempt) with the raised counter, draws floor(random * 256), which
    lies in [0, 255], and escapes, ending the battle, exactly when the draw is
    strictly below escapeChance; in a battle of another type it returns a
    failure record and changes nothing, and so does [executePlayerAction]
    for a run action. *)
Theorem attemptRun_spec (dm : DataManager.t) (rnd : nat -> Q) (w : World.t) :
  let s := BattleSystem._battleState (World.this w) in
  (BattleState.battleType s <> "wild" ->
   _attemptRun rnd w = Returned (Fail "Can't run from a trainer battle!", w)
   /\ (forall action player,
          BattleState.active s = true ->
          BattleState.activePlayerMonster s = Some player ->
          Action.type action = "run" ->
          executePlayerAction dm rnd action w
          = Returned (PlayerActionResult.mk
                        (Fail "Can't run from a trainer battle!") None, w)))
  /\ (forall player enemy playerM enemyM,
         BattleState.battleType s = "wild" ->
         BattleState.activePlayerMonster s = Some player ->
         BattleState.activeEnemyMonster s = Some enemy ->
         World.heap w !! player = Some playerM ->
         World.heap w !! enemy = Some enemyM ->
         Stats.speed (Monster.stats enemyM) <> 0 ->
         let attempt := num_or (BattleState.runAttempts s) 0 + 1 in
         let escapeChance :=
           escape_chance (Stats.speed (Monster.stats playerM))
                         (Stats.speed (Monster.stats enemyM)) attempt in
         let draw := Math.floor (rnd (World.calls w) * 256) in
         returns (_attemptRun rnd) w (fun r w' =>
           let s' := BattleSystem._battleState (World.this w') in
           BattleState.runAttempts s' = Some attempt
           /\ World.heap w' = World.heap w
           /\ World.calls w' = S (World.calls w)
           /\ r = (if draw <? escapeChance
                   then Ran true
                            (Some (BattleResult.mk None false None true false
                                                   false None))
                            "Got away safely!"
                   else Ran false None "Couldn't escape!")
           /\ success r = true
           /\ battleEnded r = (draw <? escapeChance)
           /\ BattleState.active s'
              = (if draw <? escapeChance then false else BattleState.active s)
           /\ ((0 <= rnd (World.calls w))%Q -> (rnd (World.calls w) < 1)%Q ->
               0 <= draw <= 255))).
Proof.
  intros s. split.
  - intros Htype.
    assert (Hrun : _attemptRun rnd w
                   = Returned (Fail "Can't run from a trainer battle!", w)).
    { unfold _attemptRun, bind, battleState. fold s.
      destruct (String.eqb_spec (BattleState.battleType s) "wild"); [done|].
      reflexivity. }
    split; [exact Hrun|].
    intros action player Hactive Hplayer Haction.
    unfold executePlayerAction, bind, battleState. fold s.
    rewrite Hactive, Hplayer, Haction. cbn [negb String.eqb Ascii.eqb Bool.eqb].
    rewrite Hrun. reflexivity.
  - intros player enemy playerM enemyM Htype Hplayer Henemy HplayerM HenemyM
           _ attempt escapeChance draw.
    unfold returns, _attemptRun, bind, battleState. fold s.
    rewrite Htype, Hplayer, Henemy.
    cbn [negb String.eqb Ascii.eqb Bool.eqb nonnull ret].
    unfold deref. rewrite HplayerM, HenemyM.
    cbn [update_battleState modify random lift_calls Math_random_call
         World.calls World.set_this World.this World.heap World.set_calls
         BattleSystem.set_battleState BattleSystem._battleState
         BattleState.runAttempts BattleState.set_runAttempts].
    fold s. fold attempt. fold (escape_chance
                                  (Stats.speed (Monster.stats playerM))
                                  (Stats.speed (Monster.stats enemyM)) attempt).
    fold escapeChance. fold draw.
    destruct (draw <? escapeChance) eqn:E.
    + cbn. do 7 (split; [reflexivity|]).
      intros R0 R1. apply (floor_scaled_range _ 256 R0 R1). lia.
    + cbn. do 7 (split; [reflexivity|]).
      intros R0 R1. apply (floor_scaled_range _ 256 R0 R1). lia.
Qed.

Lemma attemptRun_spec_witness :
  escape_chance 50 50 1 = 158
  /\ returns (_attemptRun (fun _ => 157 # 256)%Q) (Scenario.even_speed "wild")
             (fun r w' =>
                battleEnded r = true
                /\ BattleState.runAttempts
                     (BattleSystem._battleState (World.this w')) = Some 1)
  /\ returns (_attemptRun (fun _ => 158 # 256)%Q) (Scenario.even_speed "wild")
             (fun r w' =>
                battleEnded r = false
                /\ BattleState.runAttempts
                     (BattleSystem._battleState (World.this w')) = Some 1)
  /\ _attemptRun Sample.half (Scenario.even_speed "trainer")
     = Returned (Fail "Can't run from a trainer battle!",
                 Scenario.even_speed "trainer").
Proof.
  split; [reflexivity|]. split; [|split].
  - destruct (attemptRun_spec Sample.dataManager (fun _ => 157 # 256)%Q
                (Scenario.even_speed "wild")) as [_ H].
    eapply returns_weaken.
    + apply (H 0%nat 1%nat); try reflexivity. vm_compute. discriminate.
    + cbv beta zeta. intros r w' (Hruns & _ & _ & _ & _ & Hend & _).
      split; [exact Hend | exact Hruns].
  - destruct (attemptRun_spec Sample.dataManager (fun _ => 158 # 256)%Q
                (Scenario.even_speed "wild")) as [_ H].
    eapply returns_weaken.
    + apply (H 0%nat 1%nat); try reflexivity. vm_compute. discriminate.
    + cbv beta zeta. intros r w' (Hruns & _ & _ & _ & _ & Hend & _).
      split; [exact Hend | exact Hruns].
  - destruct (attemptRun_spec Sample.dataManager Sample.half
                (Scenario.even_speed "trainer")) as [H _].
    apply H. vm_compute. discriminate.
Defined.

(** * Turns *)

(** What [executePlayerAction] does in an active battle, for every action:
    the enemy acts and a new turn starts exactly when the player's own
    record is a success that did not end the battle; the enemy's record
    plays no part in the second test. *)
Lemma executePlayerAction_turn dm rnd action w player :
  let s := BattleSystem._battleState (World.this w) in
  BattleState.active s = true ->
  BattleState.activePlayerMonster s = Some player ->
  executePlayerAction dm rnd action w
  = bind (player_action dm rnd action player s)
         (fun result =>
            if success result && negb (battleEnded result)
            then bind (_executeEnemyAction dm rnd)
                      (fun enemyResult =>
                         bind _startNewTurn
                              (fun _ => ret (PlayerActionResult.mk
                                               result (Some enemyResult))))
            else ret (PlayerActionResult.mk result None)) w.
Proof.
  intros s Hactive Hplayer.
  unfold executePlayerAction, bind, battleState. fold s.
  rewrite Hactive, Hplayer. cbn [negb]. fold (player_action dm rnd action player s).
  destruct (player_action dm rnd action player s w) as [[result w1]|e];
    [|reflexivity].
  destruct (success result && negb (battleEnded result)); [|reflexivity].
  destruct (_executeEnemyAction dm rnd w1) as [[enemyResult w2]|e];
    reflexivity.
Qed.

(** C3: the claim holds of the intent the code states ("Start new turn if
    battle continues") but not of the code: the second test reads the
    player's record again, not the enemy's.  The player's last monster,
    at 1 hit point, scratches a burned enemy; the enemy's reply makes it
    faint and ends the battle (active = false, winner enemy); the turn
    counter still goes from 0 to 1 and the burn takes 2 more hit points
    from the enemy, 15 after the player's hit, 13 at the end. *)
Theorem new_turn_after_enemy_ended_battle :
  BattleState.turn (BattleSystem._battleState (World.this Scenario.last_stand))
  = 0
  /\ returns
       (executePlayerAction Sample.dataManager Sample.half
                            (Scenario.use_ability "scratch"))
       Scenario.last_stand
       (fun r w' =>
          let s' := BattleSystem._battleState (World.this w') in
          success (PlayerActionResult.result r) = true
          /\ battleEnded (PlayerActionResult.result r) = false
          /\ (exists hit,
                 PlayerActionResult.result r = AbilityHit hit
                 /\ (DamageResult.currentHp
                       <$> AbilityResult.damageResult hit) = Some 15)
          /\ (battleEnded <$> PlayerActionResult.enemyAction r) = Some true
          /\ BattleState.active s' = false
          /\ BattleState.result s' = Some (BattleResult.won "enemy")
          /\ BattleState.turn s' = 1
          /\ (Monster.currentHp <$> World.heap w' !! 1%nat) = Some 13).
Proof.
  split; [reflexivity|].
  vm_compute. repeat split. eexists. split; reflexivity.
Qed.

(** * The damage of an ability *)






Example spec_damage_example : spec_damage 10 40 70 50 1.5 2 1 = 26.
Proof. reflexivity. Qed.

(** The same code when the player's own action ends the battle: no enemy
    action is resolved and no turn is started. *)
Example no_new_turn_after_player_ended_battle :
  returns
    (executePlayerAction Sample.dataManager Sample.half
                         (Scenario.use_ability "scratch"))
    Scenario.finishing_blow
    (fun r w' =>
       let s' := BattleSystem._battleState (World.this w') in
       battleEnded (PlayerActionResult.result r) = true
       /\ PlayerActionResult.enemyAction r = None
       /\ BattleState.active s' = false
       /\ BattleState.turn s' = 0
       /\ (Monster.currentHp <$> World.heap w' !! 1%nat) = Some 0).
Proof. vm_compute. repeat split. Qed.

(** * Derived stats *)

(** X1: For base stats, IVs and EVs that are not negative and a level that
    is not negative, the derived HP is at least level + 10 and every other
    derived stat is at least 5; no derived stat goes down when the level goes
    up. *)
Theorem calculateStats_bounds (b : Stats.t) (L L' : Z) (iv ev : Stats.t) :
  Stats_nonneg b -> Stats_nonneg iv -> Stats_nonneg ev ->
  0 <= L -> L <= L' ->
  let s := _calculateStats b L iv ev in
  let s' := _calculateStats b L' iv ev in
  (L + 10 <= Stats.hp s /\ 5 <= Stats.attack s /\ 5 <= Stats.defense s
   /\ 5 <= Stats.specialAttack s /\ 5 <= Stats.specialDefense s
   /\ 5 <= Stats.speed s)
  /\ (Stats.hp s <= Stats.hp s' /\ Stats.attack s <= Stats.attack s'
      /\ Stats.defense s <= Stats.defense s'
      /\ Stats.specialAttack s <= Stats.specialAttack s'
      /\ Stats.specialDefense s <= Stats.specialDefense s'
      /\ Stats.speed s <= Stats.speed s').
Proof.
  intros (b1 & b2 & b3 & b4 & b5 & b6) (i1 & i2 & i3 & i4 & i5 & i6)
         (e1 & e2 & e3 & e4 & e5 & e6) HL HL' s s'.
  assert (Hc : forall x y z, 0 <= x -> 0 <= y -> 0 <= z ->
                 0 <= (2 * x + y + z / 4) * L / 100
                 /\ (2 * x + y + z / 4) * L / 100
                    <= (2 * x + y + z / 4) * L' / 100).
  { intros x y z Hx Hy Hz.
    assert (0 <= z / 4) by (apply Z.div_pos; lia).
    split.
    - apply Z.div_pos; [|lia]. apply Z.mul_nonneg_nonneg; lia.
    - apply Z.div_le_mono; [lia|]. apply Z.mul_le_mono_nonneg_l; lia. }
  subst s s'. rewrite !hp_formula.
  unfold _calculateStats.
  cbn [Stats.attack Stats.defense Stats.specialAttack Stats.specialDefense
       Stats.speed].
  rewrite !stat_formula.
  pose proof (Hc _ _ _ b1 i1 e1). pose proof (Hc _ _ _ b2 i2 e2).
  pose proof (Hc _ _ _ b3 i3 e3). pose proof (Hc _ _ _ b4 i4 e4).
  pose proof (Hc _ _ _ b5 i5 e5). pose proof (Hc _ _ _ b6 i6 e6).
  lia.
Qed.

Lemma calculateStats_bounds_witness :
  let s := _calculateStats (Stats.mk 45 60 40 70 50 45) 5
                           (Stats.mk 10 10 10 10 10 10) (Stats.mk 0 0 0 0 0 0) in
  15 <= Stats.hp s /\ 5 <= Stats.speed s.
Proof.
  destruct (calculateStats_bounds (Stats.mk 45 60 40 70 50 45) 5 6
              (Stats.mk 10 10 10 10 10 10) (Stats.mk 0 0 0 0 0 0))
    as [(H1 & _ & _ & _ & _ & H6) _];
    try (unfold Stats_nonneg; cbn; lia); try lia.
  cbv zeta. split; [exact H1 | exact H6].
Defined.

(** * Experience thresholds, continued *)

(** X2: The experience needed for a level is 0 up to level 0, grows strictly
    from level 1 on for every growth rate, is the medium curve for a growth
    rate that is none of fast, medium and slow, and the fast curve never
    asks for more than the medium one, nor the medium one for more than the
    slow one. *)
Theorem levelExperience_curve (L : Z) (growthRate : string) :
  (L <= 0 -> _getLevelExperience L growthRate = 0)
  /\ (1 <= L ->
      _getLevelExperience L growthRate
      < _getLevelExperience (L + 1) growthRate)
  /\ (growthRate <> "fast" -> growthRate <> "slow" ->
      _getLevelExperience L growthRate = _getLevelExperience L "medium")
  /\ _getLevelExperience L "fast" <= _getLevelExperience L "medium"
     <= _getLevelExperience L "slow".
Proof.
  split; [|split; [|split]].
  - intros HL. unfold _getLevelExperience.
    destruct (Z.leb_spec L 0); [reflexivity | lia].
  - apply levelExperience_increasing.
  - intros Hf Hs. unfold _getLevelExperience.
    destruct (L <=? 0); [reflexivity|].
    destruct (String.eqb_spec growthRate "fast"); [done|].
    destruct (String.eqb_spec growthRate "medium"); [subst; reflexivity|].
    destruct (String.eqb_spec growthRate "slow"); [done|]. reflexivity.
  - unfold _getLevelExperience, Math.pow. cbn [String.eqb Ascii.eqb Bool.eqb].
    destruct (Z.leb_spec L 0); [lia|].
    rewrite fast_threshold, slow_threshold, floor_Z.
    assert (0 < L ^ 3) by (apply Z.pow_pos_nonneg; lia).
    set (x := L ^ 3) in *.
    split.
    + apply Z.div_le_upper_bound; lia.
    + apply Z.div_le_lower_bound; lia.
Qed.

Lemma levelExperience_curve_witness :
  _getLevelExperience 0 "slow" = 0
  /\ _getLevelExperience 10 "fast" < _getLevelExperience 11 "fast"
  /\ _getLevelExperience 10 "erratic" = 1000.
Proof.
  destruct (levelExperience_curve 0 "slow") as (H0 & _).
  destruct (levelExperience_curve 10 "fast") as (_ & H1 & _).
  destruct (levelExperience_curve 10 "erratic") as (_ & _ & H2 & _).
  split; [apply H0; lia|]. split; [apply H1; lia|].
  rewrite H2 by discriminate. reflexivity.
Defined.

(** * Individual values *)

(** X3: With draws in [0, 1), [_generateIVs] makes exactly six draws and every
    IV it returns lies between 0 and 31. *)
Theorem generateIVs_range (rnd : nat -> Q) (n : nat) :
  (forall k, (0 <= rnd k)%Q /\ (rnd k < 1)%Q) ->
  exists ivs,
    _generateIVs rnd n = Returned (ivs, (n + 6)%nat)
    /\ 0 <= Stats.hp ivs <= 31 /\ 0 <= Stats.attack ivs <= 31
    /\ 0 <= Stats.defense ivs <= 31 /\ 0 <= Stats.specialAttack ivs <= 31
    /\ 0 <= Stats.specialDefense ivs <= 31 /\ 0 <= Stats.speed ivs <= 31.
Proof.
  intros Hrnd. eexists. split.
  - unfold _generateIVs, bind, Math_random_call, ret.
    replace (n + 6)%nat with (S (S (S (S (S (S n)))))) by lia. reflexivity.
  - cbn [Stats.hp Stats.attack Stats.defense Stats.specialAttack
         Stats.specialDefense Stats.speed].
    assert (H : forall k, 0 <= Math.floor (rnd k * 32) <= 31).
    { intros k. destruct (Hrnd k) as [H0 H1].
      change 32%Q with (inject_Z 32).
      pose proof (floor_scaled_range (rnd k) 32 H0 H1). lia. }
    repeat split; apply H.
Qed.

Lemma generateIVs_range_witness :
  exists ivs, _generateIVs Sample.half 0%nat = Returned (ivs, 6%nat)
              /\ Stats.hp ivs <= 31.
Proof.
  destruct (generateIVs_range Sample.half 0%nat) as (ivs & H & Hhp & _).
  - intros k. unfold Sample.half. split; [discriminate | reflexivity].
  - exists ivs. split; [exact H | lia].
Defined.

(** * Healing and status *)

(** X4: On an instance with 0 <= currentHp <= stats.hp, [healMonster] with a
    non-negative amount restores the smaller of the amount and the missing
    hit points and reports exactly that as healAmount; with no amount it
    restores all the missing hit points.  It does so for a fainted
    instance too. *)
Theorem healMonster_amount (m : Monster.t) (amount : Z) :
  hp_invariant m -> 0 <= amount ->
  let missing := Stats.hp (Monster.stats m) - Monster.currentHp m in
  let healed := healMonster m (Some amount) in
  let full := healMonster m None in
  HealResult.healAmount healed.2 = Z.min amount missing
  /\ Monster.currentHp healed.1 = Monster.currentHp m + Z.min amount missing
  /\ HealResult.previousHp healed.2 = Monster.currentHp m
  /\ HealResult.currentHp healed.2 = Monster.currentHp healed.1
  /\ HealResult.healAmount full.2 = missing
  /\ Monster.currentHp full.1 = Stats.hp (Monster.stats m).
Proof.
  intros [Hlo Hhi] Ha. unfold healMonster, Math.min. cbn.
  repeat split; lia.
Qed.

Lemma healMonster_amount_witness :
  let m := (applyDamage (Sample.embercub_at 5) 20).1 in
  Monster.currentHp m = 0
  /\ Monster.currentHp (healMonster m (Some 8)).1 = 8
  /\ HealResult.healAmount (healMonster m (Some 50)).2 = 20.
Proof.
  cbv zeta.
  assert (Hm : hp_invariant (applyDamage (Sample.embercub_at 5) 20).1).
  { unfold hp_invariant. vm_compute. split; discriminate. }
  destruct (healMonster_amount _ 8 Hm) as (_ & H8 & _); [lia|].
  destruct (healMonster_amount _ 50 Hm) as (H50 & _); [lia|].
  split; [reflexivity|]. split.
  - rewrite H8. reflexivity.
  - rewrite H50. reflexivity.
Defined.

(** X5: The status slot holds one status: on an instance without status,
    [applyStatus] with a non-empty status sets it and returns true; a second
    [applyStatus] returns false and leaves the first status in place;
    [clearStatus] returns the status and empties the slot, after which a
    status can be applied again. *)
Theorem status_slot (m : Monster.t) (first second : string) :
  truthy_ostr (Monster.status m) = false -> first <> "" ->
  let m1 := (applyStatus m (Some first)).1 in
  let m2 := (applyStatus m1 (Some second)).1 in
  let m3 := (clearStatus m2).1 in
  (applyStatus m (Some first)).2 = true
  /\ Monster.status m1 = Some first
  /\ (applyStatus m1 (Some second)).2 = false
  /\ m2 = m1
  /\ (clearStatus m2).2 = Some first
  /\ Monster.status m3 = None
  /\ (applyStatus m3 (Some second)).2 = true
  /\ Monster.status (applyStatus m3 (Some second)).1 = Some second.
Proof.
  intros Hnone Hfirst. cbv zeta.
  assert (H1 : applyStatus m (Some first)
               = (Monster.set_status (Some first) m, true)).
  { unfold applyStatus. rewrite Hnone. reflexivity. }
  rewrite H1. cbn [fst snd].
  assert (Ht : truthy_str first = true).
  { unfold truthy_str. apply negb_true_iff.
    destruct (String.eqb_spec first ""); [done | reflexivity]. }
  assert (H2 : applyStatus (Monster.set_status (Some first) m) (Some second)
               = (Monster.set_status (Some first) m, false)).
  { unfold applyStatus. cbn [Monster.set_status Monster.status truthy_ostr].
    rewrite Ht. reflexivity. }
  rewrite H2. cbn [fst snd]. repeat split.
Qed.

Lemma status_slot_witness :
  let m := Sample.embercub_at 5 in
  (applyStatus (applyStatus m (Some "burn")).1 (Some "poison")).2 = false
  /\ Monster.status (applyStatus (applyStatus m (Some "burn")).1
                                 (Some "poison")).1 = Some "burn".
Proof.
  destruct (status_slot (Sample.embercub_at 5) "burn" "poison")
    as (_ & H1 & H2 & H3 & _); [reflexivity | discriminate |].
  cbv zeta. split; [exact H2|]. rewrite H3. exact H1.
Defined.

(** * Abilities known at a level *)

Lemma insert_by_perm {A} (key : A -> Z) (x : A) (l : list A) :
  insert_by key x l ≡ₚ x :: l.
Proof.
  induction l as [|y l IH]; [reflexivity|]. cbn [insert_by].
  destruct (key x <? key y); [reflexivity|].
  rewrite IH. apply Permutation_swap.
Qed.

Lemma insert_by_sorted {A} (key : A -> Z) (x : A) (l : list A) :
  StronglySorted (fun a b => key a <= key b) l ->
  StronglySorted (fun a b => key a <= key b) (insert_by key x l).
Proof.
  induction l as [|y l IH]; intros Hs.
  - repeat constructor.
  - cbn [insert_by]. apply StronglySorted_cons in Hs as [Hy Hl].
    destruct (Z.ltb_spec (key x) (key y)) as [Hlt|Hge].
    + apply StronglySorted_cons. split.
      * constructor; [lia|].
        eapply Forall_impl; [exact Hy|]. intros z Hz. cbv beta in Hz. lia.
      * apply StronglySorted_cons. auto.
    + apply StronglySorted_cons. split; [|auto].
      rewrite insert_by_perm. constructor; [lia | exact Hy].
Qed.

Lemma sort_by_spec {A} (key : A -> Z) (l : list A) :
  sort_by key l ≡ₚ l
  /\ StronglySorted (fun a b => key a <= key b) (sort_by key l).
Proof.
  unfold sort_by.
  assert (H : forall acc,
             StronglySorted (fun a b => key a <= key b) acc ->
             fold_left (fun acc x => insert_by key x acc) l acc ≡ₚ l ++ acc
             /\ StronglySorted (fun a b => key a <= key b)
                  (fold_left (fun acc x => insert_by key x acc) l acc)).
  { induction l as [|x l IH]; intros acc Hacc.
    - split; [reflexivity | exact Hacc].
    - cbn [fold_left].
      destruct (IH (insert_by key x acc)) as [Hp Hs];
        [apply insert_by_sorted; exact Hacc|].
      split; [|exact Hs].
      rewrite Hp, insert_by_perm. cbn.
      symmetry. apply Permutation_middle. }
  destruct (H []) as [Hp Hs]; [constructor|].
  rewrite app_nil_r in Hp. auto.
Qed.

(** X6: [_getAbilitiesForLevel] returns at most four abilities, each unlocked at
    the level or below, ordered by ascending unlock level; an unlocked
    ability that is left out unlocks no later than every ability kept; and
    when at most four abilities are unlocked all of them are kept. *)
Theorem getAbilitiesForLevel_spec (data : MonsterData.t) (level : Z) :
  let entries := default [] (MonsterData.abilityLevels data) in
  let key := fun a => num_or (entry_lookup a entries) 0 in
  let unlocked :=
    map fst (filter (fun e => bool_decide (snd e <= level)) entries) in
  let result := _getAbilitiesForLevel data level in
  (length result <= 4)%nat
  /\ (forall a, a ∈ result ->
                exists req, (a, req) ∈ entries /\ req <= level)
  /\ StronglySorted (fun a b => key a <= key b) result
  /\ (forall a b, a ∈ unlocked -> a ∉ result -> b ∈ result ->
                  key a <= key b)
  /\ ((length unlocked <= 4)%nat -> result ≡ₚ unlocked).
Proof.
  intros entries key unlocked result.
  destruct (sort_by_spec key unlocked) as [Hperm Hsorted].
  assert (Hresult : result
                    = drop (length (sort_by key unlocked) - 4)
                           (sort_by key unlocked)) by reflexivity.
  set (sorted := sort_by key unlocked) in *.
  set (k := (length sorted - 4)%nat) in *.
  assert (Hsplit : sorted = take k sorted ++ result).
  { rewrite Hresult. symmetry. apply take_drop. }
  assert (Hin : forall a, a ∈ result -> a ∈ unlocked).
  { intros a Ha. rewrite <- Hperm, Hsplit. apply elem_of_app. auto. }
  split; [|split; [|split; [|split]]].
  - rewrite Hresult, length_drop. lia.
  - intros a Ha. apply Hin in Ha. subst unlocked.
    apply list_elem_of_In, in_map_iff in Ha as ([a' req] & <- & He).
    apply list_elem_of_In, list_elem_of_filter in He as [Hreq He].
    exists req. split; [exact He|].
    apply bool_decide_unpack in Hreq. exact Hreq.
  - rewrite Hsplit in Hsorted.
    eapply StronglySorted_app_1_r. exact Hsorted.
  - intros a b Ha Hna Hb.
    rewrite Hsplit in Hsorted.
    apply (StronglySorted_app_1_elem_of _ _ _ _ _ Hsorted); [|exact Hb].
    rewrite <- Hperm, Hsplit in Ha. apply elem_of_app in Ha as [Ha|Ha];
      [exact Ha | contradiction].
  - intros Hfew. rewrite Hresult.
    assert (Hlen : length sorted = length unlocked)
      by (apply Permutation_length; exact Hperm).
    replace k with 0%nat by lia. rewrite drop_0. exact Hperm.
Qed.

Lemma getAbilitiesForLevel_spec_witness :
  _getAbilitiesForLevel Sample.embercub 20
  = ["scratch"; "growl"; "fire-fang"; "flamethrower"]
  /\ (forall b, b ∈ _getAbilitiesForLevel Sample.embercub 20 ->
                1 <= num_or (entry_lookup b
                               (default [] (MonsterData.abilityLevels
                                              Sample.embercub))) 0)
  /\ _getAbilitiesForLevel Sample.embercub 5
     ≡ₚ ["ember"; "scratch"; "growl"].
Proof.
  destruct (getAbilitiesForLevel_spec Sample.embercub 20)
    as (_ & _ & _ & Htop & _).
  destruct (getAbilitiesForLevel_spec Sample.embercub 5)
    as (_ & _ & _ & _ & Hall).
  split; [reflexivity|]. split.
  - intros b Hb. apply (Htop "ember" b); [| |exact Hb].
    + apply list_elem_of_In. vm_compute. tauto.
    + intros Hin. apply list_elem_of_In in Hin. vm_compute in Hin.
      intuition discriminate.
  - apply Hall. vm_compute. lia.
Defined.

(** * Catching *)

Lemma clamp_range (x : Q) :
  (0 <= Qmin 255 (Qmax 0 x) / 255)%Q /\ (Qmin 255 (Qmax 0 x) / 255 <= 1)%Q.
Proof.
  split.
  - apply Qle_shift_div_l; [reflexivity|]. rewrite Qmult_0_l.
    apply Q.min_glb; [discriminate | apply Q.le_max_l].
  - apply Qle_shift_div_r; [reflexivity|]. rewrite Qmult_1_l.
    apply Q.le_min_l.
Qed.

Lemma clamp_mono (x y : Q) :
  (x <= y)%Q -> (Qmin 255 (Qmax 0 x) / 255 <= Qmin 255 (Qmax 0 y) / 255)%Q.
Proof.
  intros H. unfold Qdiv. apply Qmult_le_compat_r; [|discriminate].
  apply Q.min_le_compat_l. apply Q.max_le_compat_l. exact H.
Qed.

(** X7: For a maximum HP other than 0 the catch probability lies in [0, 1].
    For a positive maximum HP, a catch rate that is not negative and a ball
    bonus that is not negative, it does not go up when the current HP goes
    up, and the status bonus does not lower it as long as the current HP is
    at most one and a half times the maximum. *)
Theorem catchProbability_range (m : Monster.t) (options : CatchOptions.t) :
  (Stats.hp (Monster.stats m) <> 0 ->
   (0 <= calculateCatchProbability m options)%Q
   /\ (calculateCatchProbability m options <= 1)%Q)
  /\ (0 < Stats.hp (Monster.stats m) -> 0 <= Monster.catchRate m ->
      from_option (fun b => (0 <= b)%Q) True (CatchOptions.ballBonus options) ->
      (forall hp1 hp2,
          hp1 <= hp2 ->
          (calculateCatchProbability (Monster.set_currentHp hp2 m) options
           <= calculateCatchProbability (Monster.set_currentHp hp1 m) options)%Q)
      /\ (2 * Monster.currentHp m <= 3 * Stats.hp (Monster.stats m) ->
          (calculateCatchProbability m
             (CatchOptions.mk (CatchOptions.ballBonus options) false)
           <= calculateCatchProbability m
                (CatchOptions.mk (CatchOptions.ballBonus options) true))%Q)).
Proof.
  split; [intros _; apply clamp_range|].
  intros Hmax Hrate Hball.
  set (ball := match CatchOptions.ballBonus options with
               | Some b => if Qeq_bool b 0 then 1%Q else b
               | None => 1%Q
               end).
  assert (Hb : (0 <= ball)%Q).
  { subst ball. destruct (CatchOptions.ballBonus options) as [b|];
      [|discriminate]. destruct (Qeq_bool b 0); [discriminate | exact Hball]. }
  assert (Hr : (0 <= inject_Z (Monster.catchRate m))%Q).
  { change 0%Q with (inject_Z 0). rewrite <- Zle_Qle. exact Hrate. }
  assert (Hd : (0 <= / (3 * inject_Z (Stats.hp (Monster.stats m))))%Q).
  { apply Qinv_le_0_compat.
    change 3%Q with (inject_Z 3). rewrite <- inject_Z_mult.
    change 0%Q with (inject_Z 0). rewrite <- Zle_Qle. lia. }
  split.
  - intros hp1 hp2 Hle. unfold calculateCatchProbability.
    cbn [Monster.set_currentHp Monster.stats Monster.currentHp
         Monster.catchRate]. fold ball.
    apply clamp_mono. unfold Qdiv.
    apply Qmult_le_compat_r; [|exact Hd].
    apply Qmult_le_compat_r;
      [|destruct (CatchOptions.statusBonus options); discriminate].
    apply Qmult_le_compat_r; [|exact Hb].
    apply Qmult_le_compat_r; [|exact Hr].
    assert (H : (inject_Z hp1 <= inject_Z hp2)%Q) by (rewrite <- Zle_Qle; lia).
    lra.
  - intros Hhp. unfold calculateCatchProbability.
    cbn [CatchOptions.ballBonus CatchOptions.statusBonus]. fold ball.
    apply clamp_mono. unfold Qdiv.
    apply Qmult_le_compat_r; [|exact Hd].
    set (base := ((3 * inject_Z (Stats.hp (Monster.stats m))
                   - 2 * inject_Z (Monster.currentHp m))
                  * inject_Z (Monster.catchRate m) * ball)%Q).
    assert (Hbase : (0 <= base)%Q).
    { subst base. apply Qmult_le_0_compat; [|exact Hb].
      apply Qmult_le_0_compat; [|exact Hr].
      assert (H : (inject_Z (2 * Monster.currentHp m)
                   <= inject_Z (3 * Stats.hp (Monster.stats m)))%Q)
        by (rewrite <- Zle_Qle; lia).
      rewrite !inject_Z_mult in H.
      change (inject_Z 2) with 2%Q in H. change (inject_Z 3) with 3%Q in H.
      lra. }
    lra.
Qed.

Lemma catchProbability_range_witness :
  let m := Sample.embercub_at 5 in
  (calculateCatchProbability (Monster.set_currentHp 20 m)
                             (CatchOptions.mk None false)
   <= calculateCatchProbability (Monster.set_currentHp 1 m)
                                (CatchOptions.mk None false))%Q
  /\ (calculateCatchProbability m (CatchOptions.mk None true) <= 1)%Q.
Proof.
  cbv zeta.
  destruct (catchProbability_range (Sample.embercub_at 5)
              (CatchOptions.mk None false)) as [_ H].
  destruct (catchProbability_range (Sample.embercub_at 5)
              (CatchOptions.mk None true)) as [H1 _].
  destruct H1 as [_ H1]; [vm_compute; discriminate|].
  destruct H as [Hmono _].
  - vm_compute. reflexivity.
  - vm_compute. discriminate.
  - exact I.
  - split; [apply Hmono; lia | exact H1].
Defined.



(** * Experience, continued *)

Lemma learned_at_elem (data : MonsterData.t) (newLevel : Z) (a : string) :
  a ∈ learned_at data newLevel
  <-> (a, newLevel) ∈ default [] (MonsterData.abilityLevels data).
Proof.
  unfold learned_at. rewrite list_elem_of_In, in_map_iff. split.
  - intros ([a' req] & <- & He).
    apply list_elem_of_In, list_elem_of_filter in He as [Hreq He].
    apply bool_decide_unpack in Hreq. cbn [fst snd] in *. by subst.
  - intros He. exists (a, newLevel). split; [reflexivity|].
    apply list_elem_of_In, list_elem_of_filter. split; [|exact He].
    apply bool_decide_pack. reflexivity.
Qed.

Lemma levelUpLoop_level data n m lu na :
  Monster.level m <= Monster.level (levelUpLoop n data m lu na).1.1.
Proof.
  apply (levelUpLoop_invariant
           (fun x => Monster.level m <= Monster.level x) data).
  - intros x Hx _. cbn [loop_body Monster.level]. lia.
  - lia.
Qed.

Lemma levelUpLoop_learned data n :
  forall m lu na a,
    a ∈ (levelUpLoop n data m lu na).2
    <-> a ∈ na
        \/ exists req,
             (a, req) ∈ default [] (MonsterData.abilityLevels data)
             /\ Monster.level m < req
                <= Monster.level (levelUpLoop n data m lu na).1.1.
Proof.
  induction n as [|n IH]; intros m lu na a.
  - cbn [levelUpLoop fst snd]. split; [auto|].
    intros [H|(req & _ & H)]; [exact H | lia].
  - rewrite levelUpLoop_step. destruct (loop_guard m) eqn:G.
    + rewrite IH, elem_of_app, learned_at_elem.
      assert (Hl := levelUpLoop_level data n (loop_body data m) true
                      (na ++ learned_at data (Monster.level m + 1))).
      cbn [loop_body Monster.level] in *.
      split.
      * intros [[H|H]|(req & He & Hr)]; [auto| |].
        -- right. exists (Monster.level m + 1). split; [exact H | lia].
        -- right. exists req. split; [exact He | lia].
      * intros [H|(req & He & Hr)]; [auto|].
        destruct (decide (req = Monster.level m + 1)) as [->|Hne].
        -- left. right. exact He.
        -- right. exists req. split; [exact He | lia].
    + cbn [fst snd]. split; [auto|].
      intros [H|(req & _ & H)]; [exact H | lia].
Qed.

Lemma awardExperience_learned dm m amount data :
  DataManager.get_monsters dm (Monster.id m) = Some data ->
  exists leveledUp canEvolve evolutionId newAbilities,
    (awardExperience dm m amount).2
    = AwardResult.Award leveledUp
        (Monster.level (awardExperience dm m amount).1 - Monster.level m)
        newAbilities canEvolve evolutionId
    /\ forall a,
        a ∈ newAbilities
        <-> exists req,
              (a, req) ∈ default [] (MonsterData.abilityLevels data)
              /\ Monster.level m < req
                 <= Monster.level (awardExperience dm m amount).1.
Proof.
  intros Hdata. unfold awardExperience. rewrite Hdata.
  set (start := Monster.set_experience (Monster.experience m + amount) m).
  change (Monster.level start) with (Monster.level m).
  assert (L := levelUpLoop_learned data
                 (Z.to_nat (GAME_CONFIG.MAX_MONSTER_LEVEL - Monster.level m))
                 start false []).
  destruct (levelUpLoop _ _ _ _ _) as [[m' lu] na].
  cbn [fst snd] in *. eexists _, _, _, na. split; [reflexivity|].
  intros a. rewrite L. change (Monster.level start) with (Monster.level m).
  split.
  - intros [H|H]; [|exact H]. by apply elem_of_nil in H.
  - auto.
Qed.

(** X9: [awardExperience] reports as newAbilities exactly the abilities whose
    unlock level lies above the level before the call and at or below the
    level after it, and as levelsGained the difference of the two levels;
    it does not add them to the abilities of the instance, which stay as
    they were. *)
Theorem awardExperience_newAbilities (dm : DataManager.t) (m : Monster.t)
        (amount : Z) (data : MonsterData.t) :
  DataManager.get_monsters dm (Monster.id m) = Some data ->
  let after := awardExperience dm m amount in
  Monster.abilities after.1 = Monster.abilities m
  /\ exists leveledUp canEvolve evolutionId newAbilities,
      after.2 = AwardResult.Award leveledUp
                  (Monster.level after.1 - Monster.level m)
                  newAbilities canEvolve evolutionId
      /\ forall a,
          a ∈ newAbilities
          <-> exists req,
                (a, req) ∈ default [] (MonsterData.abilityLevels data)
                /\ Monster.level m < req <= Monster.level after.1.
Proof.
  intros Hdata after. subst after. split.
  - rewrite (awardExperience_known _ _ _ _ Hdata).
    apply (levelUpLoop_invariant
             (fun x => Monster.abilities x = Monster.abilities m) data).
    + intros x Hx _. exact Hx.
    + reflexivity.
  - apply awardExperience_learned. exact Hdata.
Qed.

Lemma awardExperience_newAbilities_witness :
  let after := awardExperience Sample.dataManager (Sample.embercub_at 11) 1000 in
  Monster.level after.1 = 13
  /\ Monster.abilities after.1 = ["ember"; "scratch"; "growl"]
  /\ after.2 = AwardResult.Award true 2 ["fire-fang"] false None.
Proof.
  cbv zeta.
  destruct (awardExperience_newAbilities Sample.dataManager
              (Sample.embercub_at 11) 1000 Sample.embercub) as [Ha _];
    [reflexivity|].
  split; [reflexivity|]. split; [rewrite Ha; reflexivity | reflexivity].
Defined.

(** X10: [awardExperience] keeps the hit points that are missing: stats.hp minus
    currentHp is the same before and after, however many levels are gained.
    Identity, base stats, IVs, EVs, status and catch rate are untouched, and
    stats that were the derived ones still are. *)
Theorem awardExperience_frame (dm : DataManager.t) (m : Monster.t)
        (amount : Z) :
  let m' := (awardExperience dm m amount).1 in
  Stats.hp (Monster.stats m') - Monster.currentHp m'
  = Stats.hp (Monster.stats m) - Monster.currentHp m
  /\ Monster.id m' = Monster.id m
  /\ Monster.name m' = Monster.name m
  /\ Monster.type m' = Monster.type m
  /\ Monster.baseStats m' = Monster.baseStats m
  /\ Monster.ivs m' = Monster.ivs m
  /\ Monster.evs m' = Monster.evs m
  /\ Monster.status m' = Monster.status m
  /\ Monster.catchRate m' = Monster.catchRate m
  /\ (Monster.stats m
      = _calculateStats (Monster.baseStats m) (Monster.level m)
                        (Monster.ivs m) (Monster.evs m) ->
      Monster.stats m'
      = _calculateStats (Monster.baseStats m') (Monster.level m')
                        (Monster.ivs m') (Monster.evs m')).
Proof.
  intros m'. subst m'.
  destruct (DataManager.get_monsters dm (Monster.id m)) as [data|] eqn:Hdata.
  2: { rewrite awardExperience_unknown by exact Hdata. cbn [fst].
       repeat split; auto. }
  rewrite (awardExperience_known _ _ _ _ Hdata).
  set (start := Monster.set_experience (Monster.experience m + amount) m).
  apply (levelUpLoop_invariant
           (fun x =>
              Stats.hp (Monster.stats x) - Monster.currentHp x
              = Stats.hp (Monster.stats m) - Monster.currentHp m
              /\ Monster.id x = Monster.id m
              /\ Monster.name x = Monster.name m
              /\ Monster.type x = Monster.type m
              /\ Monster.baseStats x = Monster.baseStats m
              /\ Monster.ivs x = Monster.ivs m
              /\ Monster.evs x = Monster.evs m
              /\ Monster.status x = Monster.status m
              /\ Monster.catchRate x = Monster.catchRate m
              /\ (Monster.stats m
                  = _calculateStats (Monster.baseStats m) (Monster.level m)
                                    (Monster.ivs m) (Monster.evs m) ->
                  Monster.stats x
                  = _calculateStats (Monster.baseStats x) (Monster.level x)
                                    (Monster.ivs x) (Monster.evs x))) data).
  - intros x (H1 & H2 & H3 & H4 & H5 & H6 & H7 & H8 & H9 & H10) _.
    cbn [loop_body Monster.stats Monster.currentHp Monster.id Monster.name
         Monster.type Monster.baseStats Monster.ivs Monster.evs Monster.status
         Monster.catchRate Monster.level].
    repeat split; try assumption. lia.
  - subst start. cbn. repeat split. auto.
Qed.

Lemma awardExperience_frame_witness :
  let m := (applyDamage (Sample.embercub_at 5) 7).1 in
  let m' := (awardExperience Sample.dataManager m 900).1 in
  Monster.level m' = 10
  /\ Stats.hp (Monster.stats m) - Monster.currentHp m = 7
  /\ Stats.hp (Monster.stats m') - Monster.currentHp m' = 7
  /\ Monster.stats m'
     = _calculateStats (Monster.baseStats m') 10 (Monster.ivs m')
                       (Monster.evs m').
Proof.
  cbv zeta.
  destruct (awardExperience_frame Sample.dataManager
              (applyDamage (Sample.embercub_at 5) 7).1 900)
    as (Hd & _ & _ & _ & _ & _ & _ & _ & _ & Hs).
  split; [reflexivity|]. split; [reflexivity|]. split.
  - rewrite Hd. reflexivity.
  - rewrite Hs; reflexivity.
Defined.

(** X11: When nextLevelExperience is the threshold of the next level on the
    species' growth curve and the experience after adding the amount is at
    least the threshold of the current level, [awardExperience] leaves the
    instance at the level that its experience stands for: the threshold of
    the level reached is at or below the experience, nextLevelExperience is
    the threshold of the level after it, and below MAX_MONSTER_LEVEL the
    experience is under that threshold. *)
Theorem awardExperience_level (dm : DataManager.t) (m : Monster.t)
        (amount : Z) (data : MonsterData.t) :
  DataManager.get_monsters dm (Monster.id m) = Some data ->
  let curve := fun L => _getLevelExperience L (MonsterData.growthRate data) in
  Monster.nextLevelExperience m = curve (Monster.level m + 1) ->
  curve (Monster.level m) <= Monster.experience m + amount ->
  let m' := (awardExperience dm m amount).1 in
  curve (Monster.level m') <= Monster.experience m'
  /\ Monster.nextLevelExperience m' = curve (Monster.level m' + 1)
  /\ (Monster.level m' < GAME_CONFIG.MAX_MONSTER_LEVEL ->
      Monster.experience m' < curve (Monster.level m' + 1)).
Proof.
  intros Hdata curve Hnext Hexp m'. subst m'.
  rewrite (awardExperience_known _ _ _ _ Hdata).
  set (start := Monster.set_experience (Monster.experience m + amount) m).
  set (n := Z.to_nat (GAME_CONFIG.MAX_MONSTER_LEVEL - Monster.level m)).
  assert (I : curve (Monster.level (levelUpLoop n data start false []).1.1)
              <= Monster.experience (levelUpLoop n data start false []).1.1
              /\ Monster.nextLevelExperience
                   (levelUpLoop n data start false []).1.1
                 = curve (Monster.level
                            (levelUpLoop n data start false []).1.1 + 1)).
  { apply (levelUpLoop_invariant
             (fun x => curve (Monster.level x) <= Monster.experience x
                       /\ Monster.nextLevelExperience x
                          = curve (Monster.level x + 1)) data).
    - intros x [H1 H2] G. unfold loop_guard in G.
      apply andb_true_iff in G as [G _]. apply Z.leb_le in G.
      cbn [loop_body Monster.level Monster.experience
           Monster.nextLevelExperience].
      split; [rewrite <- H2; exact G | reflexivity].
    - split; [exact Hexp | exact Hnext]. }
  destruct I as [I1 I2]. split; [exact I1|]. split; [exact I2|].
  intros Hcap.
  assert (G := levelUpLoop_exits data n start false []).
  unfold loop_guard in G. rewrite andb_false_iff in G.
  destruct G as [G|G]; [reflexivity| |].
  - apply Z.leb_gt in G. rewrite <- I2. exact G.
  - apply Z.ltb_ge in G. lia.
Qed.

Lemma awardExperience_level_witness :
  let m' := (awardExperience Sample.dataManager (Sample.embercub_at 5) 900).1 in
  Monster.level m' = 10
  /\ _getLevelExperience 10 "medium" <= Monster.experience m'
  /\ Monster.experience m' < _getLevelExperience 11 "medium".
Proof.
  cbv zeta.
  destruct (awardExperience_level Sample.dataManager (Sample.embercub_at 5)
              900 Sample.embercub) as (H1 & _ & H3).
  - reflexivity.
  - reflexivity.
  - vm_compute. discriminate.
  - split; [reflexivity|]. split; [exact H1|]. apply H3. vm_compute.
    reflexivity.
Defined.

(** * Evolution, continued *)

(** X12: Evolution keeps 0 <= currentHp <= stats.hp on the new instance: a
    fainted instance evolves into a fainted one and one at full health into
    one at full health.  The new instance has no status, whatever the old
    one had, and its abilities are the ones the target species gives at that
    level, not the ones the old instance knew. *)
Theorem evolveMonster_hp (dm : DataManager.t) (rnd : nat -> Q) (m : Monster.t)
        (n : nat) (targetId : string) (target : MonsterData.t) :
  evolution_target dm m = Some targetId ->
  DataManager.get_monsters dm targetId = Some target ->
  1 <= Monster.level m ->
  0 <= Stats.hp (MonsterData.baseStats target) ->
  0 <= Stats.hp (Monster.ivs m) -> 0 <= Stats.hp (Monster.evs m) ->
  0 < Stats.hp (Monster.stats m) ->
  hp_invariant m ->
  exists e,
    evolveMonster dm rnd m n = Returned (e, n)
    /\ hp_invariant e
    /\ (Monster.currentHp m = 0 -> Monster.currentHp e = 0)
    /\ (Monster.currentHp m = Stats.hp (Monster.stats m) ->
        Monster.currentHp e = Stats.hp (Monster.stats e))
    /\ Monster.status e = None
    /\ Monster.abilities e = _getAbilitiesForLevel target (Monster.level m).
Proof.
  intros Htarget Hknown Hlevel Hb Hi He Hold [Hlo Hhi].
  destruct (evolveMonster_created dm rnd m n targetId target Htarget Hknown)
    as (e & Hrun & _ & _ & _ & _ & _ & _ & _ & _ & Hstats & Hcur & Habil
        & Hstatus & _); [lia|].
  exists e. split; [exact Hrun|].
  assert (Hnew : 0 <= Stats.hp (Monster.stats e)).
  { rewrite Hstats, hp_formula.
    assert (0 <= Stats.hp (Monster.evs m) / 4) by (apply Z.div_pos; lia).
    assert (0 <= (2 * Stats.hp (MonsterData.baseStats target)
                  + Stats.hp (Monster.ivs m) + Stats.hp (Monster.evs m) / 4)
                 * Monster.level m / 100).
    { apply Z.div_pos; [|lia]. apply Z.mul_nonneg_nonneg; lia. }
    lia. }
  split; [|split; [|split; [|split]]].
  - unfold hp_invariant. rewrite Hcur. apply evolved_hp_range; lia.
  - intros H0. rewrite Hcur. apply evolved_hp_zero. exact H0.
  - intros Hfull. rewrite Hcur, Hfull. apply evolved_hp_full. lia.
  - exact Hstatus.
  - exact Habil.
Qed.

Lemma evolveMonster_hp_witness :
  let m := (applyStatus (Sample.embercub_at 16) (Some "burn")).1 in
  exists e,
    evolveMonster Sample.dataManager Sample.half m 0%nat = Returned (e, 0%nat)
    /\ Monster.currentHp m = Stats.hp (Monster.stats m)
    /\ Monster.currentHp e = Stats.hp (Monster.stats e)
    /\ Monster.status m = Some "burn" /\ Monster.status e = None.
Proof.
  cbv zeta.
  destruct (evolveMonster_hp Sample.dataManager Sample.half
              (applyStatus (Sample.embercub_at 16) (Some "burn")).1 0%nat
              "monster-002" Sample.blazebear)
    as (e & Hrun & _ & _ & Hfull & Hstatus & _);
    try reflexivity; try (vm_compute; discriminate).
  - unfold hp_invariant. vm_compute. split; discriminate.
  - exists e. split; [exact Hrun|]. split; [reflexivity|].
    split; [apply Hfull; reflexivity|]. split; [reflexivity | exact Hstatus].
Defined.

(** * The next monster of a team *)

Lemma first_available_spec currentActive team :
  forall w,
    Forall (fun r => valid r w) team ->
    returns (first_available currentActive team) w
      (fun o w' =>
         w' = w
         /\ match o with
            | Some r =>
              exists i m,
                team !! i = Some r /\ Some r <> currentActive
                /\ World.heap w !! r = Some m /\ 0 < Monster.currentHp m
                /\ forall j r', (j < i)%nat -> team !! j = Some r' ->
                                unavailable w currentActive r'
            | None => forall r, r ∈ team -> unavailable w currentActive r
            end).
Proof.
  induction team as [|monster rest IH]; intros w Hteam.
  - apply returns_ret. split; [reflexivity|]. intros r Hr.
    by apply elem_of_nil in Hr.
  - inversion Hteam as [|? ? Hm Hrest]; subst. cbn [first_available].
    assert (Hskip :
              unavailable w currentActive monster ->
              returns (first_available currentActive rest) w
                (fun o w' =>
                   w' = w
                   /\ match o with
                      | Some r =>
                        exists i m,
                          (monster :: rest) !! i = Some r
                          /\ Some r <> currentActive
                          /\ World.heap w !! r = Some m
                          /\ 0 < Monster.currentHp m
                          /\ forall j r', (j < i)%nat ->
                                          (monster :: rest) !! j = Some r' ->
                                          unavailable w currentActive r'
                      | None => forall r, r ∈ monster :: rest ->
                                          unavailable w currentActive r
                      end)).
    { intros Hun. eapply returns_weaken; [apply IH; exact Hrest|].
      intros o w' [-> Ho]. split; [reflexivity|]. destruct o as [r|].
      - destruct Ho as (i & m & Hi & Hne & Hm' & Hhp & Hbefore).
        exists (S i), m. repeat split; try assumption.
        intros [|j] r' Hj Hr'.
        + injection Hr' as <-. exact Hun.
        + apply (Hbefore j); [lia | exact Hr'].
      - intros r Hr. apply elem_of_cons in Hr as [->|Hr]; auto. }
    destruct (bool_decide_reflect (Some monster = currentActive)) as [Heq|Hne].
    { apply Hskip. left. exact Heq. }
    apply returns_bind, returns_deref; [exact Hm|]. intros m Hlookup.
    destruct (Z.ltb_spec 0 (Monster.currentHp m)) as [Hpos|Hzero].
    + apply returns_ret. split; [reflexivity|].
      exists 0%nat, m. repeat split; try assumption. intros j r' Hj. lia.
    + apply Hskip. right. exists m. split; [exact Hlookup | lia].
Qed.

(** X13: [_getNextMonster] changes nothing and returns the first monster of the
    team, in team order, that is not the active one and has hit points left;
    it returns null exactly when every monster of the team is the active one
    or has none left. *)
Theorem getNextMonster_spec (team : string) (w : World.t) :
  wf w ->
  let s := BattleSystem._battleState (World.this w) in
  returns (_getNextMonster team) w
    (fun o w' =>
       w' = w
       /\ match o with
          | Some r =>
            exists i m,
              team_of team s !! i = Some r /\ Some r <> active_of team s
              /\ World.heap w !! r = Some m /\ 0 < Monster.currentHp m
              /\ forall j r', (j < i)%nat -> team_of team s !! j = Some r' ->
                              unavailable w (active_of team s) r'
          | None => forall r, r ∈ team_of team s ->
                              unavailable w (active_of team s) r
          end).
Proof.
  intros Hwf s. unfold _getNextMonster.
  apply returns_bind. unfold returns at 1, battleState. fold s.
  apply first_available_spec.
  unfold wf in Hwf. apply Forall_app in Hwf as [Hp He]. unfold team_of.
  destruct (String.eqb team "player"); assumption.
Qed.

Lemma getNextMonster_spec_witness :
  returns (_getNextMonster "player") Party.world
          (fun o w' => w' = Party.world)
  /\ _getNextMonster "player" Party.world = Returned (Some 2%nat, Party.world)
  /\ _getNextMonster "enemy" Party.world = Returned (None, Party.world).
Proof.
  split; [|split; reflexivity].
  eapply returns_weaken.
  - apply getNextMonster_spec. unfold wf. vm_compute. repeat constructor.
  - intros o w' [H _]. exact H.
Defined.

(** * Calls that never throw *)






















Lemma ready_teams w :
  ready w ->
  Forall (fun r => valid r w)
         (BattleState.playerTeam (BattleSystem._battleState (World.this w)))
  /\ Forall (fun r => valid r w)
            (BattleState.enemyTeam (BattleSystem._battleState (World.this w))).
Proof.
  intros (Hwf & _). unfold wf in Hwf. apply Forall_app in Hwf. exact Hwf.
Qed.











(** * Switching *)

(** X15: [_switchMonster] changes the battle only when it succeeds, and a
    successful switch puts a monster of the team in front that was not
    active and has hit points left; store and random source are never
    touched.  A team name other than player means the enemy's team. *)
Theorem switchMonster_spec team index w :
  ready w ->
  let s := BattleSystem._battleState (World.this w) in
  returns (_switchMonster team index) w
    (fun res w' =>
       World.heap w' = World.heap w /\ World.calls w' = World.calls w
       /\ if success res then
            exists chosen m,
              0 <= index
              /\ team_of team s !! Z.to_nat index = Some chosen
              /\ active_of team s <> Some chosen
              /\ World.heap w !! chosen = Some m
              /\ 0 < Monster.currentHp m
              /\ BattleSystem._battleState (World.this w')
                 = (if String.eqb team "player"
                    then BattleState.set_activePlayerMonster (Some chosen) s
                    else BattleState.set_activeEnemyMonster (Some chosen) s)
          else w' = w).
Proof.
  intros Hr s. unfold _switchMonster.
  apply returns_bind. unfold returns at 1, battleState. fold s.
  assert (Hteams := ready_teams w Hr). fold s in Hteams.
  destruct Hr as (_ & (p & Hp & Vp) & (e & He & Ve)). fold s in Hp, He.
  unfold team_of, active_of.
  set (teamArray := if String.eqb team "player" then BattleState.playerTeam s
                    else BattleState.enemyTeam s).
  set (currentActive :=
         if String.eqb team "player" then BattleState.activePlayerMonster s
         else BattleState.activeEnemyMonster s).
  assert (Hteam : Forall (fun r => valid r w) teamArray).
  { subst teamArray. destruct (String.eqb team "player"); apply Hteams. }
  assert (Hactive : exists a, currentActive = Some a /\ valid a w).
  { subst currentActive. destruct (String.eqb team "player"); eauto. }
  destruct (index <? 0) eqn:Hneg; [by apply returns_ret|].
  destruct (Z.of_nat (length teamArray) <=? index) eqn:Hlen;
    [by apply returns_ret|].
  cbn [orb]. apply Z.ltb_ge in Hneg. apply Z.leb_gt in Hlen.
  destruct (lookup_lt_is_Some_2 teamArray (Z.to_nat index)) as [chosen Hc];
    [lia|].
  rewrite Hc. cbn [nonnull]. apply returns_bind, returns_ret.
  assert (Vc : valid chosen w).
  { eapply Forall_lookup_1 in Hteam; [exact Hteam | exact Hc]. }
  destruct (bool_decide (currentActive = Some chosen)) eqn:Hsame;
    [by apply returns_ret|].
  apply bool_decide_eq_false in Hsame.
  apply returns_bind, returns_deref; [exact Vc|]. intros chosenM HchosenM.
  destruct (Monster.currentHp chosenM <=? 0) eqn:Hhp;
    [by apply returns_ret|].
  apply Z.leb_gt in Hhp.
  destruct Hactive as (a & Ha & Va).
  assert (Hdone :
            forall f name message,
              returns
                (update_battleState f ;;;
                 previousMonster <- nonnull currentActive ;;
                 previousM <- deref previousMonster ;;
                 ret (Switched name (Monster.name previousM)
                               (Monster.name chosenM) message)) w
                (fun res w' =>
                   World.heap w' = World.heap w
                   /\ World.calls w' = World.calls w
                   /\ success res = true
                   /\ BattleSystem._battleState (World.this w') = f s)).
  { intros f name message. rewrite Ha.
    unfold returns, bind, update_battleState, modify, nonnull, ret, deref.
    cbn [World.heap World.set_this].
    destruct (valid_lookup a w Va) as [am ->]. auto. }
  subst currentActive. destruct (String.eqb team "player").
  - eapply returns_weaken; [apply Hdone|].
    intros res w' (H1 & H2 & -> & H4). split; [exact H1|]. split; [exact H2|].
    exists chosen, chosenM. auto 10.
  - eapply returns_weaken; [apply Hdone|].
    intros res w' (H1 & H2 & -> & H4). split; [exact H1|]. split; [exact H2|].
    exists chosen, chosenM. auto 10.
Qed.

Lemma switchMonster_spec_witness :
  returns (_switchMonster "player" 2) Party.world
    (fun res w' =>
       World.heap w' = World.heap Party.world
       /\ World.calls w' = World.calls Party.world
       /\ if success res then
            exists chosen m,
              0 <= 2
              /\ team_of "player"
                   (BattleSystem._battleState (World.this Party.world))
                 !! Z.to_nat 2 = Some chosen
              /\ active_of "player"
                   (BattleSystem._battleState (World.this Party.world))
                 <> Some chosen
              /\ World.heap Party.world !! chosen = Some m
              /\ 0 < Monster.currentHp m
              /\ BattleSystem._battleState (World.this w')
                 = BattleState.set_activePlayerMonster
                     (Some chosen)
                     (BattleSystem._battleState (World.this Party.world))
          else w' = Party.world)
  /\ success (match _switchMonster "player" 2 Party.world with
              | Returned (res, _) => res
              | Thrown _ => Fail ""
              end) = true
  /\ success (match _switchMonster "player" 1 Party.world with
              | Returned (res, _) => res
              | Thrown _ => Fail ""
              end) = false.
Proof.
  split; [|split; reflexivity].
  apply (switchMonster_spec "player" 2 Party.world).
  split; [unfold wf; vm_compute; repeat constructor|].
  split; [exists 0%nat | exists 3%nat];
    (split; [reflexivity | unfold valid; vm_compute; lia]).
Defined.

(** * How a battle ends *)
















































(** * The damage of an ability, continued *)




















(** * The start of a turn *)

Lemma set_heap_same w : World.set_heap (World.heap w) w = w.
Proof. by destruct w. Qed.

Lemma apply_status_effect_returns r w m :
  World.heap w !! r = Some m ->
  apply_status_effect (Some r) w
  = Returned (tt, World.set_heap (<[r := after_status 1 m]> (World.heap w)) w).
Proof.
  intros Hm. unfold apply_status_effect, bind.
  rewrite (deref_returns _ _ _ Hm). unfold after_status, afflicted.
  assert (Hsame : Returned (tt, w)
                  = Returned (tt, World.set_heap (<[r := m]> (World.heap w)) w)
                    :> outcome (unit * World.t)).
  { rewrite list_insert_id by exact Hm. by rewrite set_heap_same. }
  destruct (Monster.status m) as [status|]; [|exact Hsame].
  assert (Hdamage :
            (applyDamage m (Math.max 1 (Math.floor
                                          (Stats.hp (Monster.stats m) / 8)))).1
            = Monster.set_currentHp
                (Z.max 0 (Monster.currentHp m
                          - 1 * Z.max 1 (Stats.hp (Monster.stats m) / 8))) m).
  { unfold applyDamage. cbn [fst]. rewrite (floor_div _ 8).
    unfold Math.max. f_equal. lia. }
  destruct (String.eqb status "burn").
  { rewrite (mutate_returns _ _ _ _ Hm), Hdamage. reflexivity. }
  destruct (String.eqb status "poison"); [|exact Hsame].
  rewrite (mutate_returns _ _ _ _ Hm), Hdamage. reflexivity.
Qed.

Lemma after_status_twice m :
  after_status 1 (after_status 1 m) = after_status 2 m.
Proof.
  unfold after_status. destruct (afflicted m) eqn:Ha; [|cbn [andb]; by rewrite Ha].
  cbn [andb Z.ltb Z.compare].
  replace (afflicted (Monster.set_currentHp _ m)) with true by done.
  cbn [andb]. destruct m. unfold Monster.set_currentHp. cbn. f_equal. lia.
Qed.

Lemma after_status_none m : after_status 0 m = m.
Proof. unfold after_status. by rewrite andb_false_r. Qed.

(** X18: [_startNewTurn] adds one to the turn counter and changes nothing
    else in the battle state: status damage never ends the battle and never
    replaces an active monster, even one it knocks out.  In the store only
    active monsters with burn or poison change: each loses an eighth of its
    maximum hit points, rounded down and at least 1, once for each of the
    two active places it stands in, and never drops below 0. *)
Theorem startNewTurn_spec w :
  ready w ->
  let s := BattleSystem._battleState (World.this w) in
  returns _startNewTurn w
    (fun _ w' =>
       BattleSystem._battleState (World.this w')
       = BattleState.set_turn (BattleState.turn s + 1) s
       /\ World.calls w' = World.calls w
       /\ forall r m,
           World.heap w !! r = Some m ->
           World.heap w' !! r = Some (after_status (slots s r) m)).
Proof.
  intros (_ & (p & Hp & Vp) & (e & He & Ve)) s. fold s in Hp, He.
  destruct (valid_lookup p w Vp) as [pm Hpm].
  unfold returns, _startNewTurn, _applyStatusEffects, _applyWeatherEffects.
  unfold bind at 1 2. unfold update_battleState, modify.
  unfold bind at 1. unfold battleState.
  cbn [World.this World.set_this BattleSystem._battleState
       BattleSystem.set_battleState BattleState.activePlayerMonster
       BattleState.activeEnemyMonster BattleState.set_turn].
  fold s. rewrite Hp, He.
  unfold bind at 1.
  rewrite (apply_status_effect_returns p _ pm) by exact Hpm.
  cbn [World.heap World.set_this World.set_heap].
  set (heap1 := <[p := after_status 1 pm]> (World.heap w)).
  assert (Hlen1 : length heap1 = length (World.heap w))
    by apply length_insert.
  assert (Ve1 : (e < length heap1)%nat) by (rewrite Hlen1; exact Ve).
  destruct (lookup_lt_is_Some_2 heap1 e Ve1) as [em Hem].
  unfold bind at 1.
  rewrite (apply_status_effect_returns e _ em) by exact Hem.
  cbn [World.heap World.set_this World.set_heap World.this World.calls ret
       bind BattleSystem._battleState BattleSystem.set_battleState].
  split; [reflexivity|]. split; [reflexivity|].
  intros r m Hm. unfold slots. fold s. rewrite Hp, He.
  destruct (decide (e = r)) as [->|Hne_e].
  - rewrite list_lookup_insert_eq by exact Ve1.
    rewrite (bool_decide_eq_true_2 (Some r = Some r)) by reflexivity.
    subst heap1. destruct (decide (p = r)) as [->|Hne_p].
    + rewrite list_lookup_insert_eq in Hem by exact Vp.
      rewrite (bool_decide_eq_true_2 (Some r = Some r)) by reflexivity.
      injection Hem as <-. assert (Some pm = Some m) as [= ->] by exact (eq_trans (eq_sym Hpm) Hm).
      by rewrite after_status_twice.
    + rewrite list_lookup_insert_ne in Hem by exact Hne_p.
      rewrite bool_decide_eq_false_2 by congruence.
      by assert (Some em = Some m) as [= ->] by exact (eq_trans (eq_sym Hem) Hm).
  - rewrite list_lookup_insert_ne by exact Hne_e.
    rewrite (bool_decide_eq_false_2 (Some e = Some r)) by congruence.
    subst heap1. destruct (decide (p = r)) as [->|Hne_p].
    + rewrite list_lookup_insert_eq by exact Vp.
      rewrite (bool_decide_eq_true_2 (Some r = Some r)) by reflexivity.
      by assert (Some pm = Some m) as [= ->] by exact (eq_trans (eq_sym Hpm) Hm).
    + rewrite list_lookup_insert_ne by exact Hne_p.
      rewrite bool_decide_eq_false_2 by congruence.
      by rewrite after_status_none.
Qed.

Lemma startNewTurn_spec_witness :
  returns _startNewTurn Scenario.last_stand
    (fun _ w' =>
       BattleSystem._battleState (World.this w')
       = BattleState.set_turn
           (BattleState.turn
              (BattleSystem._battleState (World.this Scenario.last_stand)) + 1)
           (BattleSystem._battleState (World.this Scenario.last_stand))
       /\ World.calls w' = World.calls Scenario.last_stand
       /\ forall r m,
           World.heap Scenario.last_stand !! r = Some m ->
           World.heap w' !! r
           = Some (after_status
                     (slots (BattleSystem._battleState
                               (World.this Scenario.last_stand)) r) m)).
Proof.
  apply startNewTurn_spec.
  split; [unfold wf; vm_compute; repeat constructor|].
  split; [exists 0%nat | exists 1%nat];
    (split; [reflexivity | unfold valid; vm_compute; lia]).
Defined.

(** * Items in battle *)

Lemma find_target_last targetId team :
  forall target w,
    Forall (fun r => valid r w) team ->
    find_target targetId team target w
    = Returned (match last (candidates w targetId team) with
                | Some r => Some r
                | None => target
                end, w).
Proof.
  induction team as [|monster rest IH]; intros target w Hteam.
  - reflexivity.
  - apply Forall_cons in Hteam as [Hm Hrest].
    destruct (valid_lookup monster w Hm) as [m Hlookup].
    cbn [find_target]. unfold bind. rewrite (deref_returns _ _ _ Hlookup).
    rewrite IH by exact Hrest. unfold candidates.
    rewrite filter_cons. rewrite Hlookup. cbn [fmap option_fmap option_map].
    destruct (String.eqb_spec (Monster.id m) targetId) as [->|Hne].
    + rewrite decide_True by reflexivity.
      destruct (filter _ rest) as [|r0 l] eqn:E; [reflexivity|].
      rewrite last_cons_cons.
      destruct (last (r0 :: l)) eqn:E2; [reflexivity|].
      by apply last_None in E2.
    + rewrite decide_False by congruence. reflexivity.
Qed.

(** X19: A potion used in battle heals one monster of the player's team
    and touches nothing else.  Without a target id it is the active
    monster; with one it is the last team member of that species, so an
    earlier member of the same species can never be chosen, and with no
    member of that species the call fails and changes nothing.  The amount
    is the item's [effect.amount], or 20 when that is missing or 0. *)
Theorem useItem_potion dm rnd itemId targetId item w :
  ready w ->
  DataManager.get_items dm itemId = Some item ->
  ItemData.type item = ITEM_TYPES.POTION ->
  let s := BattleSystem._battleState (World.this w) in
  let target :=
    if truthy_ostr targetId
    then last (candidates w (default "" targetId) (BattleState.playerTeam s))
    else BattleState.activePlayerMonster s in
  let amount :=
    match ItemEffect.amount (ItemData.effect item) with
    | Some n => if n =? 0 then 20 else n
    | None => 20
    end in
  returns (_useItem dm rnd itemId targetId) w
    (fun res w' =>
       match target with
       | None => res = Fail "Target monster not found" /\ w' = w
       | Some t =>
         exists m,
           World.heap w !! t = Some m
           /\ w' = World.set_heap
                     (<[t := (healMonster m (Some amount)).1]> (World.heap w))
                     w
           /\ exists message,
               res = Healed (Monster.name m)
                            (HealResult.healAmount
                               (healMonster m (Some amount)).2)
                            message
       end).
Proof.
  intros Hr Hitem Htype s target amount. unfold _useItem. rewrite Hitem.
  apply returns_bind. unfold returns at 1, battleState. fold s.
  assert (Hteams := ready_teams w Hr). fold s in Hteams.
  destruct Hteams as [Hteam _].
  destruct Hr as (_ & (p & Hp & Vp) & _). fold s in Hp.
  rewrite Htype. rewrite String.eqb_refl.
  assert (Hamount : num_or (ItemEffect.amount (ItemData.effect item)) 20
                    = amount).
  { subst amount. unfold num_or, truthy_num.
    destruct (ItemEffect.amount _) as [n|]; [|reflexivity].
    by destruct (n =? 0). }
  rewrite Hamount.
  assert (Hfound :
            returns
              (if truthy_ostr targetId
               then find_target (default "" targetId)
                                (BattleState.playerTeam s) None
               else ret (BattleState.activePlayerMonster s)) w
              (fun o w1 => w1 = w /\ o = target
                           /\ from_option (fun r => valid r w) True o)).
  { subst target. destruct (truthy_ostr targetId).
    - unfold returns. rewrite find_target_last by exact Hteam.
      split; [reflexivity|].
      destruct (last _) as [r|] eqn:Hlast; split; try done.
      cbn. apply last_Some_elem_of in Hlast.
      unfold candidates in Hlast. apply list_elem_of_filter in Hlast as [_ Hin].
      rewrite Forall_forall in Hteam. apply Hteam, Hin.
    - apply returns_ret. rewrite Hp. cbn. auto. }
  apply returns_bind. eapply returns_weaken; [exact Hfound|].
  intros o w1 (-> & -> & Hvalid).
  destruct target as [t|]; [|by apply returns_ret].
  cbn in Hvalid. destruct (valid_lookup t w Hvalid) as [m Hm].
  unfold returns, bind. rewrite (mutate_returns _ _ _ _ Hm).
  unfold deref. cbn [World.heap World.set_heap].
  rewrite list_lookup_insert_eq by exact Hvalid.
  exists m. split; [exact Hm|]. split; [reflexivity|].
  eexists. unfold healMonster. cbn. reflexivity.
Qed.

Lemma useItem_potion_witness :
  returns (_useItem Bag.dataManager Sample.half "potion"
                    (Some "monster-001")) Party.world
    (fun res w' =>
       exists m,
         World.heap Party.world !! 2%nat = Some m
         /\ w' = World.set_heap
                   (<[2%nat := (healMonster m (Some 20)).1]>
                      (World.heap Party.world)) Party.world
         /\ exists message,
             res = Healed (Monster.name m)
                          (HealResult.healAmount (healMonster m (Some 20)).2)
                          message).
Proof.
  apply (useItem_potion Bag.dataManager Sample.half "potion"
                        (Some "monster-001") Bag.potion Party.world).
  - split; [unfold wf; vm_compute; repeat constructor|].
    split; [exists 0%nat | exists 3%nat];
      (split; [reflexivity | unfold valid; vm_compute; lia]).
  - reflexivity.
  - reflexivity.
Defined.

(** * A battle without an enemy *)

(** X20: [startBattle] accepts an empty or missing enemy team and leaves
    the active enemy monster null; a run action in such a wild battle does
    not return a failure record but throws a TypeError, when the speed of
    the missing enemy is read. *)
Theorem run_without_enemy_throws dm rnd options action w p rest :
  StartOptions.playerTeam options = Some (p :: rest) ->
  valid p w ->
  (StartOptions.enemyTeam options = None
   \/ StartOptions.enemyTeam options = Some (TeamArray [])) ->
  (StartOptions.battleType options = None
   \/ StartOptions.battleType options = Some "wild") ->
  Action.type action = "run" ->
  returns (startBattle options) w
          (fun s w' =>
             BattleState.active s = true
             /\ BattleState.activeEnemyMonster s = None
             /\ BattleSystem._battleState (World.this w') = s)
  /\ exists e,
      (startBattle options ;;; executePlayerAction dm rnd action) w = Thrown e
      /\ JsError.name e = "TypeError".
Proof.
  intros Hteam Hp Henemy Htype Hrun.
  destruct (valid_lookup p w Hp) as [pm Hpm].
  destruct options as [playerTeam enemyTeam battleType trainer].
  destruct action as [type targetId abilityId itemId switchIndex].
  cbn in Hteam, Henemy, Htype, Hrun. subst playerTeam type.
  assert (Hrunning :
            forall s,
              BattleState.battleType s = "wild" ->
              BattleState.activePlayerMonster s = Some p ->
              BattleState.activeEnemyMonster s = None ->
              exists e,
                _attemptRun rnd
                  (World.set_this
                     (BattleSystem.set_battleState s (World.this w)) w)
                = Thrown e
                /\ JsError.name e = "TypeError").
  { intros s Hwild Hplayer Hnone. eexists.
    unfold _attemptRun, bind, battleState.
    cbn [World.this World.set_this BattleSystem._battleState
         BattleSystem.set_battleState].
    rewrite Hwild, Hplayer, Hnone.
    change (String.eqb "wild" "wild") with true. cbn [negb nonnull].
    unfold ret at 1. cbv beta iota.
    erewrite deref_returns by exact Hpm. split; reflexivity. }
  split.
  - destruct Henemy as [-> | ->]; cbn; auto.
  - unfold startBattle, executePlayerAction, bind, update_battleState, modify,
      ret, battleState.
    cbn [World.this World.set_this BattleSystem._battleState
         BattleSystem.set_battleState BattleState.active negb
         BattleState.activePlayerMonster BattleState.activeEnemyMonster
         StartOptions.playerTeam StartOptions.enemyTeam
         StartOptions.battleType StartOptions.trainer
         default from_option id head Action.type].
    change (String.eqb "run" "ability") with false.
    change (String.eqb "run" "item") with false.
    change (String.eqb "run" "switch") with false.
    change (String.eqb "run" "run") with true. cbv iota.
    match goal with
    | |- context [_attemptRun rnd
                    (World.set_this (BattleSystem.set_battleState ?s _) _)] =>
      destruct (Hrunning s) as (e & -> & He)
    end.
    + by destruct Htype as [-> | ->].
    + reflexivity.
    + by destruct Henemy as [-> | ->].
    + exists e. auto.
Qed.

Lemma run_without_enemy_throws_witness :
  exists e,
    (startBattle (StartOptions.mk (Some [0%nat]) None None None) ;;;
     executePlayerAction Sample.dataManager Sample.half
                         (Action.mk "run" None "" "" 0))
      (World.mk Scenario.system [Sample.embercub_at 5] 0%nat) = Thrown e
    /\ JsError.name e = "TypeError".
Proof.
  eapply (run_without_enemy_throws
            Sample.dataManager Sample.half
            (StartOptions.mk (Some [0%nat]) None None None)
            (Action.mk "run" None "" "" 0)
            (World.mk Scenario.system [Sample.embercub_at 5] 0%nat)
            0%nat []).
  - reflexivity.
  - unfold valid. vm_compute. lia.
  - left. reflexivity.
  - left. reflexivity.
  - reflexivity.
Defined.

(** * The enemy's move *)





(** * The inventory *)

Lemma findIndex_Some {A} (p : A -> bool) l i :
  findIndex p l = Some i ->
  exists x, l !! i = Some x /\ p x = true.
Proof.
  revert i. induction l as [|y l IH]; intros i; [discriminate|].
  cbn [findIndex]. destruct (p y) eqn:Hy.
  - intros [= <-]. eauto.
  - destruct (findIndex p l) as [j|]; [|discriminate].
    intros [= <-]. apply IH. reflexivity.
Qed.

Lemma findIndex_None {A} (p : A -> bool) l :
  findIndex p l = None -> Forall (fun x => p x = false) l.
Proof.
  induction l as [|y l IH]; [constructor|].
  cbn [findIndex]. destruct (p y) eqn:Hy; [discriminate|].
  destruct (findIndex p l); [discriminate|]. auto.
Qed.

Lemma findIndex_elem itemId items :
  is_Some (findIndex (fun item => String.eqb (InventoryItem.id item) itemId)
                     items)
  <-> itemId ∈ ids items.
Proof.
  unfold ids. split.
  - intros [i Hi]. apply findIndex_Some in Hi as (x & Hx & Hid).
    apply String.eqb_eq in Hid. subst itemId.
    apply list_elem_of_fmap. exists x. split; [reflexivity|].
    eapply list_elem_of_lookup_2. exact Hx.
  - intros Hin. apply list_elem_of_fmap in Hin as (x & -> & Hx).
    destruct (findIndex _ items) eqn:E; [eauto|].
    apply findIndex_None in E. rewrite Forall_forall in E.
    specialize (E x Hx). cbn in E. rewrite String.eqb_refl in E. discriminate.
Qed.

Lemma held_app itemId l l' :
  held itemId (l ++ l') = held itemId l + held itemId l'.
Proof.
  induction l as [|x l IH]; [reflexivity|]. cbn [app held foldr] in *.
  fold (held itemId (l ++ l')). fold (held itemId l). lia.
Qed.

Lemma held_alter itemId f l i x :
  l !! i = Some x ->
  held itemId (alter f i l) = held itemId l - piece itemId x + piece itemId (f x).
Proof.
  revert i. induction l as [|y l IH]; intros i Hx; [done|].
  destruct i as [|i].
  - injection Hx as ->. cbn. fold (held itemId l). lia.
  - cbn in Hx. cbn. fold (held itemId l). fold (held itemId (alter f i l)).
    rewrite (IH i Hx). lia.
Qed.

Lemma held_delete itemId l i x :
  l !! i = Some x ->
  held itemId (delete i l) = held itemId l - piece itemId x.
Proof.
  revert i. induction l as [|y l IH]; intros i Hx; [done|].
  destruct i as [|i].
  - injection Hx as ->. cbn. fold (held itemId l). lia.
  - cbn in Hx. change (delete (S i) (y :: l)) with (y :: delete i l).
    change (held itemId (y :: delete i l))
      with (piece itemId y + held itemId (delete i l)).
    change (held itemId (y :: l)) with (piece itemId y + held itemId l).
    rewrite (IH i Hx). lia.
Qed.

Lemma ids_alter f l i :
  (forall x, InventoryItem.id (f x) = InventoryItem.id x) ->
  ids (alter f i l) = ids l.
Proof.
  intros Hf. unfold ids. revert i. induction l as [|y l IH]; intros i; [done|].
  destruct i as [|i]; cbn; [by rewrite Hf|]. f_equal. apply IH.
Qed.

Lemma ids_delete l i : ids (delete i l) = delete i (ids l).
Proof.
  unfold ids. revert i. induction l as [|y l IH]; intros i; [done|].
  destruct i as [|i]; cbn; [done|]. f_equal. apply IH.
Qed.

(** X22: [addItem] succeeds exactly when the lookup of the item id is not
    null and the inventory either lists the item already or has room for
    another kind: a full inventory still takes more pieces of a kind it
    holds.  The lookup is not null for an item of the game data and also for
    an id that names a member of [Object.prototype], such as constructor,
    which is then listed like an item.  A refused call changes nothing; an
    accepted one adds the quantity, 1 when none is given, to the pieces held
    of that item and leaves every other item as it was, with a new kind
    listed last. *)
Theorem addItem_spec dm itemId quantity this :
  let items := InventorySystem._items this in
  exists ok this',
    addItem dm itemId quantity this = Returned (ok, this')
    /\ (ok = true <->
        DataManager.get dm DataManager.items itemId <> DataManager.Null
        /\ (itemId ∈ ids items
            \/ Z.of_nat (length items) < InventorySystem._capacity this))
    /\ (ok = false -> this' = this)
    /\ (ok = true ->
        InventorySystem._capacity this' = InventorySystem._capacity this
        /\ ids (InventorySystem._items this')
           = (if decide (itemId ∈ ids items) then ids items
              else ids items ++ [itemId])
        /\ forall other,
            held other (InventorySystem._items this')
            = held other items
              + (if String.eqb itemId other then default 1 quantity else 0)).
Proof.
  intros items. unfold addItem.
  assert (Hin := findIndex_elem itemId items).
  destruct (DataManager.get dm DataManager.items itemId) as [data| |] eqn:Hdata.
  3:{ exists false, this. split; [reflexivity|].
      split; [|split; [reflexivity | discriminate]].
      split; [discriminate|]. intros [[] _]. reflexivity. }
  all: unfold bind, get_state, put_state, ret; fold items.
  all: destruct (findIndex _ items) as [i|] eqn:Hfind.
  all: try (assert (Helem : itemId ∈ ids items) by (apply Hin; eauto);
            destruct (findIndex_Some _ _ _ Hfind) as (x & Hx & Hid);
            apply String.eqb_eq in Hid;
            eexists true, _; split; [reflexivity|];
            split; [split; [split; [discriminate | auto] | reflexivity]|];
            split; [discriminate|]; intros _; split; [reflexivity|];
            cbn [InventorySystem._items InventorySystem.set_items];
            split;
            [ rewrite decide_True by exact Helem; by apply ids_alter
            | intros other; rewrite (held_alter _ _ _ _ _ Hx); unfold piece;
              cbn; rewrite Hid; destruct (String.eqb itemId other); lia ]).
  all: assert (Hnot : itemId ∉ ids items)
    by (intros Helem; apply Hin in Helem as [? [=]]).
  all: destruct (InventorySystem._capacity this <=? Z.of_nat (length items))
                eqn:Hfull;
    [ apply Z.leb_le in Hfull;
      exists false, this; split; [reflexivity|];
      split; [|split; [reflexivity | discriminate]];
      split; [discriminate|]; intros [_ [Helem | Hroom]]; [done | lia]
    | apply Z.leb_gt in Hfull;
      eexists true, _; split; [reflexivity|];
      split; [split; [split; [discriminate | auto] | reflexivity]|];
      split; [discriminate|]; intros _; split; [reflexivity|];
      cbn [InventorySystem._items InventorySystem.set_items];
      split;
      [ rewrite decide_False by exact Hnot; unfold ids; by rewrite fmap_app
      | intros other; rewrite held_app; cbn; unfold piece; cbn;
        destruct (String.eqb itemId other); lia ] ].
Qed.

Lemma addItem_spec_witness :
  let this := new_InventorySystem in
  exists ok this',
    addItem Bag.dataManager "constructor" None this = Returned (ok, this')
    /\ ok = true
    /\ ids (InventorySystem._items this') = ["constructor"]
    /\ held "constructor" (InventorySystem._items this') = 1.
Proof.
  cbv zeta.
  destruct (addItem_spec Bag.dataManager "constructor" None
                         new_InventorySystem)
    as (ok & this' & Hrun & Hok & _ & Hnew).
  assert (E : ok = true).
  { apply Hok. split; [discriminate|]. right. vm_compute. reflexivity. }
  destruct (Hnew E) as (_ & Hids & Hheld).
  exists ok, this'. split; [exact Hrun|]. split; [exact E|].
  split; [exact Hids|]. rewrite Hheld. reflexivity.
Defined.

Lemma delete_alter {A} (f : A -> A) (l : list A) (i : nat) :
  delete i (alter f i l) = delete i l.
Proof.
  revert i. induction l as [|y l IH]; intros i; [done|].
  destruct i as [|i]; [done|].
  change (y :: delete i (alter f i l) = y :: delete i l). by rewrite IH.
Qed.

Lemma useItem_returns dm itemId targetId this i x :
  findIndex (fun item => String.eqb (InventoryItem.id item) itemId)
            (InventorySystem._items this) = Some i ->
  InventorySystem._items this !! i = Some x ->
  DataManager.get dm DataManager.items itemId <> DataManager.Null ->
  useItem dm itemId targetId this
  = Returned
      (UseResult.mk true
         ("Used " +:+ default "undefined"
                        (found_name itemId
                           (DataManager.get dm DataManager.items itemId))),
       InventorySystem.set_items
         (if InventoryItem.quantity x - 1 <=? 0
          then delete i (InventorySystem._items this)
          else alter (fun item =>
                        InventoryItem.set_quantity
                          (InventoryItem.quantity item - 1) item)
                     i (InventorySystem._items this))
         this).
Proof.
  intros Hfind Hx Hdata. unfold useItem, bind, get_state, put_state, ret.
  rewrite Hfind.
  destruct (DataManager.get dm DataManager.items itemId) as [data| |];
    [| |done].
  all: rewrite list_lookup_alter, decide_True by reflexivity.
  all: rewrite Hx; cbn.
  all: destruct (InventoryItem.quantity x - 1 <=? 0); [|reflexivity].
  all: by rewrite delete_alter.
Qed.

Lemma useItem_missing dm itemId targetId this i :
  findIndex (fun item => String.eqb (InventoryItem.id item) itemId)
            (InventorySystem._items this) = Some i ->
  DataManager.get dm DataManager.items itemId = DataManager.Null ->
  useItem dm itemId targetId this
  = Returned (UseResult.mk false "Item data not found", this).
Proof.
  intros Hfind Hdata. unfold useItem, bind, get_state.
  by rewrite Hfind, Hdata.
Qed.

(** X23: Over an inventory whose entries hold at least one piece each,
    [useItem] succeeds exactly when the item is listed and the lookup of its
    id is not null, as it is for an item of the game data and for an id that
    names a member of [Object.prototype].  A refused call changes nothing,
    so a listed item whose lookup is null is not used up.  An accepted call
    takes one piece of that item and none of any other; the entry goes when
    its last piece is taken, and the entries that stay hold at least one
    piece. *)
Theorem useItem_spec dm itemId targetId this :
  let items := InventorySystem._items this in
  Forall (fun item => 1 <= InventoryItem.quantity item) items ->
  exists res this',
    useItem dm itemId targetId this = Returned (res, this')
    /\ (UseResult.success res = true <->
        itemId ∈ ids items
        /\ DataManager.get dm DataManager.items itemId <> DataManager.Null)
    /\ (UseResult.success res = false -> this' = this)
    /\ (UseResult.success res = true ->
        InventorySystem._capacity this' = InventorySystem._capacity this
        /\ ids (InventorySystem._items this') `sublist_of` ids items
        /\ Forall (fun item => 1 <= InventoryItem.quantity item)
                  (InventorySystem._items this')
        /\ forall other,
            held other (InventorySystem._items this')
            = held other items - (if String.eqb itemId other then 1 else 0)).
Proof.
  intros items Hpos.
  assert (Hin := findIndex_elem itemId items).
  destruct (findIndex (fun item => String.eqb (InventoryItem.id item) itemId)
                      items) as [i|] eqn:Hfind.
  2:{ exists (UseResult.mk false "Item not found in inventory"), this.
      split; [unfold useItem, bind, get_state; fold items; by rewrite Hfind|].
      split; [|split; [reflexivity | discriminate]].
      split; [discriminate|]. intros [Helem _].
      apply Hin in Helem as [? [=]]. }
  assert (Helem : itemId ∈ ids items) by (apply Hin; eauto).
  assert (Hnull : DataManager.get dm DataManager.items itemId = DataManager.Null
                  \/ DataManager.get dm DataManager.items itemId
                     <> DataManager.Null)
    by (destruct (DataManager.get dm DataManager.items itemId);
        [right | right | left]; done).
  destruct Hnull as [Hdata|Hdata].
  { exists (UseResult.mk false "Item data not found"), this.
    split; [eapply useItem_missing; eassumption|].
    split; [|split; [reflexivity | discriminate]].
    split; [discriminate|]. intros [_ H]. contradiction. }
  destruct (findIndex_Some _ _ _ Hfind) as (x & Hx & Hid).
  apply String.eqb_eq in Hid.
  assert (Hq : 1 <= InventoryItem.quantity x).
  { rewrite Forall_forall in Hpos. apply Hpos.
    eapply list_elem_of_lookup_2. exact Hx. }
  eexists _, _. split; [eapply useItem_returns; eassumption|].
  cbn [UseResult.success].
  split; [split; [auto | reflexivity]|].
  split; [discriminate|]. intros _. split; [reflexivity|].
  cbn [InventorySystem._items InventorySystem.set_items]. fold items.
  destruct (InventoryItem.quantity x - 1 <=? 0) eqn:Hlast.
  - apply Z.leb_le in Hlast.
    split; [rewrite ids_delete; apply sublist_delete|].
    split; [by apply Forall_delete|].
    intros other. rewrite (held_delete _ _ _ _ Hx). unfold piece.
    rewrite Hid. destruct (String.eqb itemId other); lia.
  - apply Z.leb_gt in Hlast.
    split; [by rewrite ids_alter|].
    split.
    + apply Forall_alter; [exact Hpos|]. intros y Hy _.
      assert (Some y = Some x) as [= ->] by exact (eq_trans (eq_sym Hy) Hx).
      cbn. lia.
    + intros other. rewrite (held_alter _ _ _ _ _ Hx). unfold piece. cbn.
      rewrite Hid. destruct (String.eqb itemId other); lia.
Qed.

Lemma useItem_spec_witness :
  exists res this',
    useItem Bag.dataManager "potion" None two_potions = Returned (res, this')
    /\ (UseResult.success res = true <->
        "potion" ∈ ids (InventorySystem._items two_potions)
        /\ DataManager.get Bag.dataManager DataManager.items "potion"
           <> DataManager.Null)
    /\ (UseResult.success res = false -> this' = two_potions)
    /\ (UseResult.success res = true ->
        InventorySystem._capacity this'
        = InventorySystem._capacity two_potions
        /\ ids (InventorySystem._items this')
             `sublist_of` ids (InventorySystem._items two_potions)
        /\ Forall (fun item => 1 <= InventoryItem.quantity item)
                  (InventorySystem._items this')
        /\ forall other,
            held other (InventorySystem._items this')
            = held other (InventorySystem._items two_potions)
              - (if String.eqb "potion" other then 1 else 0)).
Proof.
  apply (useItem_spec Bag.dataManager "potion" None two_potions).
  vm_compute. repeat constructor. discriminate.
Defined.

(** A member of [Object.prototype] that was listed is used up like an
    item. *)
Example useItem_constructor :
  returns (addItem Bag.dataManager "constructor" None ;;;
           useItem Bag.dataManager "constructor" None)
          new_InventorySystem
          (fun res this' =>
             res = UseResult.mk true "Used Object"
             /\ InventorySystem._items this' = []).
Proof. vm_compute. split; reflexivity. Qed.

Lemma tidy_addItem dm itemId quantity this ok this' :
  tidy this -> 1 <= default 1 quantity ->
  addItem dm itemId quantity this = Returned (ok, this') ->
  tidy this'.
Proof.
  intros (Hdup & Hpos & Hcap) Hq. unfold addItem.
  assert (Hin := findIndex_elem itemId (InventorySystem._items this)).
  destruct (DataManager.get dm DataManager.items itemId) as [data| |];
    [| |by intros [= <- <-]].
  all: unfold bind, get_state, put_state, ret.
  all: destruct (findIndex _ _) as [i|] eqn:Hfind.
  all: try (intros [= <- <-]; unfold tidy; cbn;
            split; [by rewrite ids_alter|];
            split; [|by rewrite length_alter];
            apply Forall_alter; [exact Hpos|]; intros y _ Hy; cbn; lia).
  all: destruct (_ <=? _) eqn:Hfull; [by intros [= <- <-]|].
  all: apply Z.leb_gt in Hfull; intros [= <- <-]; unfold tidy; cbn.
  all: split;
    [ unfold ids; rewrite fmap_app; apply NoDup_app;
      split; [exact Hdup|]; split; [|apply NoDup_singleton];
      intros y Hy Hy'; apply list_elem_of_singleton in Hy'; subst y;
      apply Hin in Hy as [? [=]]
    | split; [|rewrite length_app; cbn; lia];
      apply Forall_app; split; [exact Hpos|]; by constructor ].
Qed.

Lemma tidy_useItem dm itemId targetId this res this' :
  tidy this ->
  useItem dm itemId targetId this = Returned (res, this') ->
  tidy this'.
Proof.
  intros (Hdup & Hpos & Hcap).
  destruct (findIndex (fun item => String.eqb (InventoryItem.id item) itemId)
                      (InventorySystem._items this)) as [i|] eqn:Hfind.
  2:{ unfold useItem, bind, get_state. rewrite Hfind. by intros [= <- <-]. }
  assert (Hnull : DataManager.get dm DataManager.items itemId = DataManager.Null
                  \/ DataManager.get dm DataManager.items itemId
                     <> DataManager.Null)
    by (destruct (DataManager.get dm DataManager.items itemId);
        [right | right | left]; done).
  destruct Hnull as [Hdata|Hdata].
  { rewrite (useItem_missing _ _ _ _ _ Hfind Hdata). by intros [= <- <-]. }
  destruct (findIndex_Some _ _ _ Hfind) as (x & Hx & Hid).
  rewrite (useItem_returns _ _ _ _ _ _ Hfind Hx Hdata).
  intros [= <- <-]. unfold tidy. cbn.
  destruct (InventoryItem.quantity x - 1 <=? 0) eqn:Hlast.
  - split; [|split].
    + rewrite ids_delete. eapply sublist_NoDup; [exact Hdup|].
      apply sublist_delete.
    + by apply Forall_delete.
    + rewrite length_delete by eauto. lia.
  - apply Z.leb_gt in Hlast. split; [by rewrite ids_alter|].
    split; [|by rewrite length_alter].
    apply Forall_alter; [exact Hpos|]. intros y Hy _.
    assert (Some y = Some x) as [= ->] by exact (eq_trans (eq_sym Hy) Hx).
    cbn. lia.
Qed.

Lemma addItem_capacity dm itemId quantity this ok this' :
  addItem dm itemId quantity this = Returned (ok, this') ->
  InventorySystem._capacity this' = InventorySystem._capacity this.
Proof.
  unfold addItem.
  destruct (DataManager.get dm DataManager.items itemId);
    [| |by intros [= <- <-]].
  all: unfold bind, get_state, put_state, ret.
  all: destruct (findIndex _ _); [by intros [= <- <-]|].
  all: destruct (_ <=? _); by intros [= <- <-].
Qed.

Lemma useItem_capacity dm itemId targetId this res this' :
  useItem dm itemId targetId this = Returned (res, this') ->
  InventorySystem._capacity this' = InventorySystem._capacity this.
Proof.
  unfold useItem, bind, get_state, put_state, ret.
  destruct (findIndex _ _); [|by intros [= <- <-]].
  destruct (DataManager.get dm DataManager.items itemId);
    by intros [= <- <-].
Qed.

(** X24: Whatever [addItem] and [useItem] calls are made on a new
    inventory, as long as no call adds less than one piece, the inventory
    lists every kind of item once, every entry holds at least one piece, and
    there are never more than 20 kinds. *)
Theorem inventory_tidy dm calls :
  Forall sound_call calls ->
  let this := foldl (after_call dm) new_InventorySystem calls in
  tidy this /\ InventorySystem._capacity this = 20
  /\ (length (InventorySystem._items this) <= 20)%nat.
Proof.
  intros Hcalls. cbv zeta.
  assert (H : tidy (foldl (after_call dm) new_InventorySystem calls)
              /\ InventorySystem._capacity
                   (foldl (after_call dm) new_InventorySystem calls) = 20).
  { induction calls as [|call calls IH] using rev_ind.
    - split; [|reflexivity]. split; [constructor|]. split; [constructor|].
      cbn. lia.
    - rewrite foldl_snoc. apply Forall_app in Hcalls as [Hcalls Hcall].
      apply Forall_inv in Hcall.
      destruct (IH Hcalls) as [Htidy Hcap].
      set (this := foldl (after_call dm) new_InventorySystem calls) in *.
      unfold after_call. destruct call as [itemId quantity|itemId targetId].
      + cbn in Hcall.
        destruct (addItem dm itemId quantity this) as [[ok this']|e] eqn:E;
          [|auto].
        split; [eapply tidy_addItem; eassumption|].
        by rewrite (addItem_capacity _ _ _ _ _ _ E).
      + destruct (useItem dm itemId targetId this) as [[res this']|e] eqn:E;
          [|auto].
        split; [eapply tidy_useItem; eassumption|].
        by rewrite (useItem_capacity _ _ _ _ _ _ E). }
  destruct H as [Htidy Hcap]. split; [exact Htidy|]. split; [exact Hcap|].
  destruct Htidy as (_ & _ & Hlen). lia.
Qed.

Lemma inventory_tidy_witness :
  tidy two_potions /\ InventorySystem._capacity two_potions = 20
  /\ (length (InventorySystem._items two_potions) <= 20)%nat.
Proof.
  apply (inventory_tidy Bag.dataManager
                        [AddItem "potion" None; AddItem "potion" None]).
  repeat constructor; cbn; lia.
Defined.

(** * A monster met in the wild *)

Lemma awardExperience_settled dm m data :
  DataManager.get_monsters dm (Monster.id m) = Some data ->
  Monster.experience m < Monster.nextLevelExperience m ->
  awardExperience dm m 0 = (m, AwardResult.Award false 0 [] false None).
Proof.
  intros Hdata Hexp. unfold awardExperience. rewrite Hdata.
  assert (Hsame : Monster.set_experience (Monster.experience m + 0) m = m).
  { destruct m. unfold Monster.set_experience. cbn. by rewrite Z.add_0_r. }
  rewrite Hsame.
  assert (Hloop : forall k, levelUpLoop k data m false [] = (m, false, [])).
  { intros [|k]; [reflexivity|]. rewrite levelUpLoop_step. unfold loop_guard.
    replace (Monster.nextLevelExperience m <=? Monster.experience m)
      with false by (symmetry; apply Z.leb_gt; lia).
    reflexivity. }
  rewrite Hloop. cbn [andb]. by rewrite Z.sub_diag.
Qed.

(** X25: [createMonster] without options, for a species stored under its
    own id with a non-negative HP base stat, a level of 1 or more and draws
    in [0, 1): six draws are made, the EVs are all 0, the instance has the
    derived stats and the abilities of its level, stands at full hit points
    of at least level + 10 and so has not fainted, and is settled at its
    level: awarding it 0 experience changes nothing and reports no
    level-up. *)
Theorem createMonster_fresh dm rnd monsterId level n data :
  DataManager.get_monsters dm monsterId = Some data ->
  MonsterData.id data = monsterId ->
  1 <= level ->
  0 <= Stats.hp (MonsterData.baseStats data) ->
  (forall k, (0 <= rnd k)%Q /\ (rnd k < 1)%Q) ->
  exists m,
    createMonster dm rnd monsterId level CreateOptions.empty n
    = Returned (Some m, (n + 6)%nat)
    /\ Monster.evs m = _generateEVs
    /\ Monster.abilities m = _getAbilitiesForLevel data level
    /\ derived_stats m
    /\ Monster.currentHp m = Stats.hp (Monster.stats m)
    /\ level + 10 <= Monster.currentHp m
    /\ awardExperience dm m 0 = (m, AwardResult.Award false 0 [] false None).
Proof.
  intros Hdata Hid Hlevel Hbase Hrnd.
  assert (Hiv : 0 <= Math.floor (rnd n * 32)).
  { destruct (Hrnd n) as [H0 H1]. change 32%Q with (inject_Z 32).
    pose proof (floor_scaled_range (rnd n) 32 H0 H1). lia. }
  assert (Ht : truthy_num level = true).
  { unfold truthy_num. apply negb_true_iff. apply Z.eqb_neq. lia. }
  eexists. split.
  { unfold createMonster. rewrite (get_monsters_Entry _ _ _ Hdata), Ht.
    unfold CreateOptions.empty, bind, _generateIVs, Math_random_call, ret.
    cbn [CreateOptions.ivs CreateOptions.evs CreateOptions.abilities
         from_option id bind].
    replace (n + 6)%nat with (S (S (S (S (S (S n)))))) by lia. reflexivity. }
  cbn [Monster.evs Monster.abilities Monster.currentHp Monster.stats
       from_option id].
  split; [reflexivity|]. split; [reflexivity|].
  split.
  { unfold derived_stats.
    cbn [Monster.stats Monster.baseStats Monster.level Monster.ivs
         Monster.evs Stats.hp _generateEVs].
    split; [reflexivity|]. split; [exact Hbase|]. split; [exact Hiv | lia]. }
  split; [reflexivity|].
  split.
  { rewrite hp_formula. cbn [Stats.hp _generateEVs].
    assert (0 <= (2 * Stats.hp (MonsterData.baseStats data)
                  + Math.floor (rnd n * 32) + 0 / 4) * level / 100).
    { apply Z.div_pos; [|lia]. change (0 / 4) with 0. nia. }
    lia. }
  apply (awardExperience_settled dm _ data).
  - cbn [Monster.id]. by rewrite Hid.
  - cbn [Monster.experience Monster.nextLevelExperience].
    apply levelExperience_increasing. exact Hlevel.
Qed.

Lemma createMonster_fresh_witness :
  exists m,
    createMonster Sample.dataManager Sample.half "monster-001" 5
                  CreateOptions.empty 0%nat
    = Returned (Some m, 6%nat)
    /\ Monster.evs m = _generateEVs
    /\ Monster.abilities m = _getAbilitiesForLevel Sample.embercub 5
    /\ derived_stats m
    /\ Monster.currentHp m = Stats.hp (Monster.stats m)
    /\ 5 + 10 <= Monster.currentHp m
    /\ awardExperience Sample.dataManager m 0
       = (m, AwardResult.Award false 0 [] false None).
Proof.
  apply (createMonster_fresh Sample.dataManager Sample.half "monster-001" 5
                             0%nat Sample.embercub).
  - reflexivity.
  - reflexivity.
  - lia.
  - vm_compute. discriminate.
  - intros k. unfold Sample.half. split; [discriminate | reflexivity].
Defined.

(** * Catching in battle *)



(** * The experience of the victor *)


















(** * The type chart, continued *)

Lemma typeChart_literal_written :
  forallb (fun row => forallb (fun cell => cell_written row.1 cell.1 cell.2)
                              row.2)
          typeChart_literal = true.
Proof. vm_compute. reflexivity. Qed.

Lemma eval_object_other {A B} (eval : A -> outcome B) props :
  forall acc m k,
    eval_object eval props acc = Returned m ->
    k ∉ props.*1 ->
    m !! k = acc !! k.
Proof.
  induction props as [|[k' a] rest IH]; intros acc m k Heval Hk.
  - by injection Heval as <-.
  - cbn [eval_object] in Heval. destruct (eval a) as [b|e]; [|done].
    rewrite fmap_cons in Hk. cbn [fst] in Hk.
    apply not_elem_of_cons in Hk as [Hne Hk].
    rewrite (IH _ _ _ Heval Hk). by rewrite lookup_insert_ne.
Qed.

Lemma eval_object_lookup_In {A B} (eval : A -> outcome B) props :
  forall acc m k a,
    NoDup props.*1 ->
    eval_object eval props acc = Returned m ->
    In (k, a) props ->
    exists b, eval a = Returned b /\ m !! k = Some b.
Proof.
  induction props as [|[k' a'] rest IH]; intros acc m k a Hdup Heval Hin;
    [done|].
  cbn [eval_object] in Heval. destruct (eval a') as [b'|e] eqn:Ea; [|done].
  rewrite fmap_cons in Hdup. cbn [fst] in Hdup.
  apply NoDup_cons in Hdup as [Hfresh Hdup].
  destruct Hin as [[= -> ->]|Hin].
  - exists b'. split; [exact Ea|].
    rewrite (eval_object_other _ _ _ _ _ Heval Hfresh).
    by rewrite lookup_insert_eq.
  - eapply IH; eassumption.
Qed.

(** X28: In a scope that binds [A] to a number, the constructor completes
    and the chart depends on the scope in one cell only: fighting against
    water has the value of [A].  For two type names of which none names a
    member of [Object.prototype] (constructor, toString, ...), every other
    pair has one of the multipliers 0, 0.5, 1 and 2, and a pair with a type
    that is not one of the fifteen rows has 1.  (Under a name of such a
    member the lookup finds the member, which is not a number.) *)
Theorem typeEffectiveness_in_scope scope v :
  scope !! "A" = Some v ->
  exists this,
    new_BattleSystem scope = Returned this
    /\ _calculateTypeEffectiveness this "fighting" "water" = v
    /\ (forall attackType defenderType,
           Object_prototype.has attackType = false ->
           Object_prototype.has defenderType = false ->
           let q := _calculateTypeEffectiveness this attackType defenderType in
           chart_multiplier q
           \/ (attackType = "fighting" /\ defenderType = "water" /\ q = v))
    /\ (forall attackType defenderType,
           Object_prototype.has attackType = false ->
           Object_prototype.has defenderType = false ->
           attackType ∉ typeChart_literal.*1
           \/ defenderType ∉ typeChart_literal.*1 ->
           _calculateTypeEffectiveness this attackType defenderType = 1%Q).
Proof.
  intros HA.
  assert (Hthis : exists chart,
             eval_typeChart scope = Returned chart
             /\ new_BattleSystem scope
                = Returned (BattleSystem.mk chart BattleState.initial)).
  { unfold new_BattleSystem.
    destruct (typeChart_in_scope scope v HA) as (this & Hnew & _).
    unfold new_BattleSystem in Hnew.
    destruct (eval_typeChart scope) as [chart|e]; [|discriminate].
    eauto. }
  destruct Hthis as (chart & Hchart & Hnew). rewrite Hnew.
  eexists. split; [reflexivity|].
  assert (Hwritten := typeChart_literal_written).
  rewrite forallb_forall in Hwritten.
  assert (Hcell :
            forall attackType defenderType row q,
              chart !! attackType = Some row ->
              row !! defenderType = Some q ->
              exists cells cell,
                In (attackType, cells) typeChart_literal
                /\ In (defenderType, cell) cells
                /\ eval_cell scope cell = Returned q).
  { intros attackType defenderType row q Hrow Hq.
    destruct (eval_object_lookup _ _ _ _ _ _ Hchart Hrow)
      as [Hempty|(cells & Hin & Hcellsv)].
    { rewrite lookup_empty in Hempty. done. }
    destruct (eval_object_lookup _ _ _ _ _ _ Hcellsv Hq)
      as [Hempty|(cell & Hin' & Hcell)].
    { rewrite lookup_empty in Hempty. done. }
    eauto. }
  split; [|split].
  - unfold _calculateTypeEffectiveness. cbn [BattleSystem._typeChart].
    assert (Hrows : NoDup typeChart_literal.*1)
      by (apply (bool_decide_unpack _); vm_compute; exact I).
    assert (Hrow : exists cells,
               In ("fighting", cells) typeChart_literal
               /\ In ("water", Ident "A") cells
               /\ NoDup cells.*1).
    { eexists. split; [|split].
      - do 6 right. left. reflexivity.
      - do 2 right. left. reflexivity.
      - apply (bool_decide_unpack _). vm_compute. exact I. }
    destruct Hrow as (cells & Hin & Hin' & Hcols).
    destruct (eval_object_lookup_In _ _ _ _ _ _ Hrows Hchart Hin)
      as (row & Hrow & ->).
    destruct (eval_object_lookup_In _ _ _ _ _ _ Hcols Hrow Hin')
      as (q & Hq & ->).
    cbn [eval_cell] in Hq. rewrite HA in Hq. by injection Hq as ->.
  - intros attackType defenderType _ _. cbv zeta.
    unfold _calculateTypeEffectiveness. cbn [BattleSystem._typeChart].
    destruct (chart !! attackType) as [row|] eqn:Hrow;
      [|left; unfold chart_multiplier; auto].
    destruct (row !! defenderType) as [q|] eqn:Hq;
      [|left; unfold chart_multiplier; auto].
    destruct (Hcell _ _ _ _ Hrow Hq) as (cells & cell & Hin & Hin' & Heval).
    specialize (Hwritten _ Hin). cbn [fst snd] in Hwritten.
    rewrite forallb_forall in Hwritten. specialize (Hwritten _ Hin').
    cbn [fst snd] in Hwritten. destruct cell as [q'|x].
    + left. cbn [cell_written] in Hwritten.
      destruct (cell_ok_value scope (Num q') q Hwritten Heval)
        as [H|H]; [exact H|].
      cbn [eval_cell] in Heval. injection Heval as ->.
      unfold cell_ok in Hwritten.
      rewrite !orb_true_iff, !bool_decide_eq_true in Hwritten.
      destruct q as [n d]. cbn in Hwritten. unfold chart_multiplier.
      destruct Hwritten as [[[[-> ->]|[-> ->]]|[-> ->]]|[-> ->]]; auto.
    + right. cbn [cell_written] in Hwritten.
      rewrite !andb_true_iff in Hwritten.
      destruct Hwritten as [[Hx Ha] Hd].
      apply String.eqb_eq in Hx, Ha, Hd. subst x.
      cbn [eval_cell] in Heval. rewrite HA in Heval.
      injection Heval as ->. auto.
  - intros attackType defenderType _ _ Hnot.
    unfold _calculateTypeEffectiveness. cbn [BattleSystem._typeChart].
    destruct (chart !! attackType) as [row|] eqn:Hrow; [|reflexivity].
    destruct (row !! defenderType) as [q|] eqn:Hq; [|reflexivity].
    destruct (Hcell _ _ _ _ Hrow Hq) as (cells & cell & Hin & Hin' & _).
    exfalso. destruct Hnot as [Hnot | Hnot]; apply Hnot.
    + apply list_elem_of_fmap. exists (attackType, cells).
      split; [reflexivity|]. by apply list_elem_of_In.
    + assert (Hcols :
                forallb (fun row =>
                           forallb (fun cell =>
                                      bool_decide
                                        (cell.1 ∈ typeChart_literal.*1))
                                   row.2)
                        typeChart_literal = true) by (vm_compute; reflexivity).
      rewrite forallb_forall in Hcols. specialize (Hcols _ Hin).
      cbn [snd] in Hcols. rewrite forallb_forall in Hcols.
      specialize (Hcols _ Hin'). cbn [fst] in Hcols.
      by apply bool_decide_eq_true in Hcols.
Qed.

Lemma typeEffectiveness_in_scope_witness :
  exists this,
    new_BattleSystem {["A" := 1%Q]} = Returned this
    /\ _calculateTypeEffectiveness this "fighting" "water" = 1%Q
    /\ _calculateTypeEffectiveness this "fire" "fairy" = 1%Q.
Proof.
  destruct (typeEffectiveness_in_scope {["A" := 1%Q]} 1%Q)
    as (this & Hnew & Hcell & _ & Hother).
  - reflexivity.
  - exists this. split; [exact Hnew|]. split; [exact Hcell|].
    apply Hother; [reflexivity | reflexivity|].
    right. apply (bool_decide_unpack _). vm_compute. exact I.
Defined.

(** * The grid *)

Lemma each_x_returns collisionTiles grid y row xs :
  grid !! Z.to_nat y = Some row ->
  forall this,
  exists this',
    each_x collisionTiles grid y xs this = Returned (tt, this')
    /\ GridMovement._currentMap this' = GridMovement._currentMap this
    /\ forall x' y',
        _hasCollision this' x' y' = true <->
        (y' = y /\ x' ∈ xs
         /\ exists tileType, row !! Z.to_nat x' = Some tileType
                             /\ tileType ∈ collisionTiles)
        \/ _hasCollision this x' y' = true.
Proof.
  intros Hrow. induction xs as [|x rest IH]; intros this.
  - exists this. split; [reflexivity|]. split; [reflexivity|].
    intros x' y'. split; [auto|].
    intros [(_ & Hin & _)|H]; [by apply elem_of_nil in Hin | exact H].
  - cbn [each_x]. rewrite Hrow. unfold bind.
    set (hit := exists tileType, row !! Z.to_nat x = Some tileType
                                 /\ tileType ∈ collisionTiles).
    assert (Hstep :
              exists this1,
                (match row !! Z.to_nat x with
                 | Some tileType =>
                   if bool_decide (tileType ∈ collisionTiles)
                   then _setCollision x y true
                   else ret tt
                 | None => ret tt
                 end) this = Returned (tt, this1)
                /\ GridMovement._currentMap this1
                   = GridMovement._currentMap this
                /\ forall x' y',
                    _hasCollision this1 x' y' = true <->
                    (y' = y /\ x' = x /\ hit)
                    \/ _hasCollision this x' y' = true).
    { destruct (row !! Z.to_nat x) as [tileType|] eqn:Hcell.
      - destruct (bool_decide (tileType ∈ collisionTiles)) eqn:Hin.
        + apply bool_decide_eq_true in Hin.
          eexists. split; [reflexivity|]. split; [reflexivity|].
          intros x' y'. unfold _hasCollision. cbn.
          rewrite !bool_decide_eq_true.
          destruct (decide ((x, y) = (x', y'))) as [[= <- <-]|Hne].
          * rewrite lookup_insert_eq. split; [|reflexivity]. intros _.
            left. split; [reflexivity|]. split; [reflexivity|].
            exists tileType. auto.
          * rewrite lookup_insert_ne by exact Hne. split; [auto|].
            intros [(-> & -> & _)|H]; [done | exact H].
        + apply bool_decide_eq_false in Hin.
          exists this. split; [reflexivity|]. split; [reflexivity|].
          intros x' y'. split; [auto|].
          intros [(_ & _ & t & [= <-] & Ht)|H]; [done | exact H].
      - exists this. split; [reflexivity|]. split; [reflexivity|].
        intros x' y'. split; [auto|].
        intros [(_ & _ & t & [=] & _)|H]. exact H. }
    destruct Hstep as (this1 & -> & Hmap1 & Hcol1).
    destruct (IH this1) as (this' & -> & Hmap' & Hcol').
    exists this'. split; [reflexivity|]. split; [congruence|].
    intros x' y'. rewrite Hcol', Hcol1. rewrite elem_of_cons. subst hit.
    split.
    + intros [H|[(-> & -> & H)|H]]; [|left|right; exact H].
      * left. destruct H as (H1 & H2 & H3). auto.
      * auto.
    + intros [(-> & [->|Hin] & H)|H]; [right; left| left |right; right]; auto.
Qed.

Lemma each_y_returns collisionTiles grid width ys :
  Forall (fun y => 0 <= y /\ (Z.to_nat y < length grid)%nat) ys ->
  forall this,
  exists this',
    each_y collisionTiles grid width ys this = Returned (tt, this')
    /\ GridMovement._currentMap this' = GridMovement._currentMap this
    /\ forall x' y',
        _hasCollision this' x' y' = true <->
        (y' ∈ ys /\ 0 <= x' < width
         /\ exists tileType, tile grid x' y' = Some tileType
                             /\ tileType ∈ collisionTiles)
        \/ _hasCollision this x' y' = true.
Proof.
  induction 1 as [|y rest [Hy Hrow] _ IH]; intros this.
  - exists this. split; [reflexivity|]. split; [reflexivity|].
    intros x' y'. split; [auto|].
    intros [(Hin & _)|H]; [by apply elem_of_nil in Hin | exact H].
  - cbn [each_y]. unfold bind.
    apply lookup_lt_is_Some_2 in Hrow as [row Hrow].
    destruct (each_x_returns collisionTiles grid y row (seqZ 0 width)
                             Hrow this)
      as (this1 & -> & Hmap1 & Hcol1).
    destruct (IH this1) as (this' & -> & Hmap' & Hcol').
    exists this'. split; [reflexivity|]. split; [congruence|].
    intros x' y'. rewrite Hcol', Hcol1. rewrite elem_of_cons.
    rewrite elem_of_seqZ. unfold tile.
    split.
    + intros [H|[(-> & Hx & H)|H]]; [|left|right; exact H].
      * left. destruct H as (H1 & H2 & H3). auto.
      * split; [auto|]. split; [lia|]. rewrite Hrow. exact H.
    + intros [([->|Hin] & Hx & H)|H]; [right; left| left |right; right];
        auto.
      split; [reflexivity|]. split; [lia|]. rewrite Hrow in H. exact H.
Qed.

(** X29: [setMap] builds the collision map anew from the grid of the map:
    when the grid has a row for every y below the height, the call returns,
    and a place has a collision afterwards exactly when it lies on the map
    and its tile is of a blocking type, one of the map's [collisions] or
    the wall type when the map lists none; what the collision map held
    before is gone.  [canMove] then allows a step exactly when the place
    stepped on lies on the map and is not blocked.  When a row is missing
    and the width is positive, the call throws a TypeError. *)
Theorem setMap_spec this mapData tilemap grid :
  MapData.tilemap mapData = Some tilemap ->
  Tilemap.grid tilemap = Some grid ->
  if decide (Z.to_nat (MapData.height mapData) <= length grid)%nat
  then
    exists this',
      setMap (Some mapData) this = Returned (tt, this')
      /\ GridMovement._currentMap this' = Some mapData
      /\ (forall x y,
             _hasCollision this' x y = true <-> blocked mapData tilemap grid x y)
      /\ (forall x y direction,
             canMove this' x y direction = true <->
             on_map mapData (x + Direction.x direction)
                    (y + Direction.y direction)
             /\ ~ blocked mapData tilemap grid (x + Direction.x direction)
                          (y + Direction.y direction))
  else
    0 < MapData.width mapData ->
    exists e, setMap (Some mapData) this = Thrown e
              /\ JsError.name e = "TypeError".
Proof.
  intros Htilemap Hgrid. unfold setMap. rewrite Htilemap, Hgrid.
  unfold bind at 1, put_state.
  destruct (decide _) as [Hrows|Hrows].
  - destruct (each_y_returns
                (default [TILE_TYPES.WALL] (Tilemap.collisions tilemap))
                grid (MapData.width mapData)
                (seqZ 0 (MapData.height mapData)))
      with (this := GridMovement.mk ∅ (Some mapData))
      as (this' & -> & Hmap & Hcol).
    { apply Forall_forall. intros y Hy. apply elem_of_seqZ in Hy. lia. }
    cbn [GridMovement._currentMap] in Hmap.
    assert (Hblocked :
              forall x y, _hasCollision this' x y = true
                          <-> blocked mapData tilemap grid x y).
    { intros x y. rewrite Hcol. rewrite elem_of_seqZ.
      unfold blocked, on_map, _hasCollision. cbn.
      rewrite lookup_empty, bool_decide_eq_true. split.
      - intros [(Hy & Hx & H)|H]; [|done]. split; [lia | exact H].
      - intros ((Hx & Hy) & H). left. split; [lia|]. split; [lia | exact H]. }
    exists this'. split; [reflexivity|]. split; [exact Hmap|].
    split; [exact Hblocked|].
    intros x y direction. unfold canMove. rewrite Hmap.
    set (newX := x + Direction.x direction).
    set (newY := y + Direction.y direction).
    unfold on_map.
    destruct (newX <? 0) eqn:H1;
      [apply Z.ltb_lt in H1; cbn [orb]; split;
       [done | intros [[[? ?] [? ?]] _]; lia]|].
    destruct (MapData.width mapData <=? newX) eqn:H2;
      [apply Z.leb_le in H2; cbn [orb]; split;
       [done | intros [[[? ?] [? ?]] _]; lia]|].
    destruct (newY <? 0) eqn:H3;
      [apply Z.ltb_lt in H3; cbn [orb]; split;
       [done | intros [[[? ?] [? ?]] _]; lia]|].
    destruct (MapData.height mapData <=? newY) eqn:H4;
      [apply Z.leb_le in H4; cbn [orb]; split;
       [done | intros [[[? ?] [? ?]] _]; lia]|].
    cbn [orb]. apply Z.ltb_ge in H1, H3. apply Z.leb_gt in H2, H4.
    destruct (_hasCollision this' newX newY) eqn:Hc.
    + apply Hblocked in Hc. split; [done|]. intros [_ Hn]. done.
    + split; [|done]. intros _. split; [lia|].
      intros Hb. apply Hblocked in Hb. congruence.
  - intros Hwidth.
    assert (Hthrows :
              forall ys this0,
                Forall (fun y => 0 <= y) ys ->
                (exists y, y ∈ ys /\ (length grid <= Z.to_nat y)%nat) ->
                exists e,
                  each_y (default [TILE_TYPES.WALL]
                                  (Tilemap.collisions tilemap))
                         grid (MapData.width mapData) ys this0 = Thrown e
                  /\ JsError.name e = "TypeError").
    { induction ys as [|y rest IH]; intros this0 Hpos (y0 & Hin & Hy0).
      { by apply elem_of_nil in Hin. }
      apply Forall_cons in Hpos as [Hy Hpos].
      cbn [each_y]. unfold bind.
      destruct (grid !! Z.to_nat y) as [row|] eqn:Hrow.
      - destruct (each_x_returns
                    (default [TILE_TYPES.WALL] (Tilemap.collisions tilemap))
                    grid y row (seqZ 0 (MapData.width mapData)) Hrow this0)
          as (this1 & -> & _).
        apply IH; [exact Hpos|]. exists y0. split; [|exact Hy0].
        apply elem_of_cons in Hin as [->|Hin]; [|exact Hin].
        apply lookup_lt_Some in Hrow. lia.
      - rewrite seqZ_cons by lia. cbn [each_x]. rewrite Hrow.
        eexists. split; reflexivity. }
    apply Hthrows.
    + apply Forall_forall. intros y Hy. apply elem_of_seqZ in Hy. lia.
    + exists (Z.of_nat (length grid)). split; [|lia].
      apply elem_of_seqZ. lia.
Qed.

Lemma setMap_spec_witness :
  exists this',
    setMap (Some meadow) (GridMovement.mk ∅ None) = Returned (tt, this')
    /\ GridMovement._currentMap this' = Some meadow
    /\ (forall x y,
           _hasCollision this' x y = true <->
           blocked meadow
                   {| Tilemap.grid := Some [[0; 1; 0]; [0; 2; 0]];
                      Tilemap.collisions := None;
                      Tilemap.encounters := None |}
                   [[0; 1; 0]; [0; 2; 0]] x y)
    /\ (forall x y direction,
           canMove this' x y direction = true <->
           on_map meadow (x + Direction.x direction)
                  (y + Direction.y direction)
           /\ ~ blocked meadow
                        {| Tilemap.grid := Some [[0; 1; 0]; [0; 2; 0]];
                           Tilemap.collisions := None;
                           Tilemap.encounters := None |}
                        [[0; 1; 0]; [0; 2; 0]]
                        (x + Direction.x direction)
                        (y + Direction.y direction)).
Proof.
  exact (setMap_spec (GridMovement.mk ∅ None) meadow
                     {| Tilemap.grid := Some [[0; 1; 0]; [0; 2; 0]];
                        Tilemap.collisions := None;
                        Tilemap.encounters := None |}
                     [[0; 1; 0]; [0; 2; 0]] eq_refl eq_refl).
Defined.

(** X30: On a map whose grid has a row for every y below the height,
    [isEncounterZone] returns, and it says yes exactly when the place lies
    on the map, its tile type is not 0, and the type is one of the map's
    [encounters], or is grass when the map lists none.  A floor tile, of
    type 0, is never an encounter zone, even on a map that lists 0 among
    its encounter tiles. *)
Theorem isEncounterZone_spec this mapData tilemap grid x y :
  GridMovement._currentMap this = Some mapData ->
  MapData.tilemap mapData = Some tilemap ->
  Tilemap.grid tilemap = Some grid ->
  (Z.to_nat (MapData.height mapData) <= length grid)%nat ->
  exists answer,
    isEncounterZone this x y = Returned answer
    /\ (answer = true <->
        on_map mapData x y
        /\ exists tileType,
            tile grid x y = Some tileType
            /\ tileType <> TILE_TYPES.FLOOR
            /\ match Tilemap.encounters tilemap with
               | Some encounters => tileType ∈ encounters
               | None => tileType = TILE_TYPES.GRASS
               end).
Proof.
  intros Hmap Htilemap Hgrid Hrows.
  unfold isEncounterZone, getTileAt, on_map.
  rewrite Hmap, Htilemap, Hgrid.
  destruct (x <? 0) eqn:H1;
    [apply Z.ltb_lt in H1; eexists; split; [reflexivity|];
     split; [done | intros [[[? ?] [? ?]] _]; lia]|].
  destruct (MapData.width mapData <=? x) eqn:H2;
    [apply Z.leb_le in H2; eexists; split; [reflexivity|];
     split; [done | intros [[[? ?] [? ?]] _]; lia]|].
  destruct (y <? 0) eqn:H3;
    [apply Z.ltb_lt in H3; eexists; split; [reflexivity|];
     split; [done | intros [[[? ?] [? ?]] _]; lia]|].
  destruct (MapData.height mapData <=? y) eqn:H4;
    [apply Z.leb_le in H4; eexists; split; [reflexivity|];
     split; [done | intros [[[? ?] [? ?]] _]; lia]|].
  cbn [orb]. apply Z.ltb_ge in H1, H3. apply Z.leb_gt in H2, H4.
  destruct (lookup_lt_is_Some_2 grid (Z.to_nat y)) as [row Hrow]; [lia|].
  unfold tile. rewrite Hrow.
  destruct (row !! Z.to_nat x) as [tileType|] eqn:Hcell.
  2:{ eexists. split; [reflexivity|]. split; [done|].
      intros (_ & t & [=] & _). }
  cbn [truthy_onum]. unfold truthy_num.
  destruct (tileType =? 0) eqn:Hfloor.
  { apply Z.eqb_eq in Hfloor. eexists. split; [reflexivity|].
    split; [done|]. intros (_ & t & [= <-] & Hne & _). done. }
  apply Z.eqb_neq in Hfloor. cbn [negb from_option id].
  destruct (Tilemap.encounters tilemap) as [encounters|].
  - eexists. split; [reflexivity|]. rewrite bool_decide_eq_true. split.
    + intros Hin. split; [lia|]. exists tileType. auto.
    + intros (_ & t & [= <-] & _ & Hin). exact Hin.
  - eexists. split; [reflexivity|]. rewrite Z.eqb_eq. split.
    + intros Hg. split; [lia|]. exists tileType. auto.
    + intros (_ & t & [= <-] & _ & Hg). exact Hg.
Qed.

Lemma isEncounterZone_spec_witness :
  exists answer,
    isEncounterZone (GridMovement.mk ∅ (Some meadow)) 1 1 = Returned answer
    /\ (answer = true <->
        on_map meadow 1 1
        /\ exists tileType,
            tile [[0; 1; 0]; [0; 2; 0]] 1 1 = Some tileType
            /\ tileType <> TILE_TYPES.FLOOR
            /\ tileType = TILE_TYPES.GRASS).
Proof.
  apply (isEncounterZone_spec
           (GridMovement.mk ∅ (Some meadow)) meadow
           {| Tilemap.grid := Some [[0; 1; 0]; [0; 2; 0]];
              Tilemap.collisions := None;
              Tilemap.encounters := None |}
           [[0; 1; 0]; [0; 2; 0]] 1 1).
  - reflexivity.
  - reflexivity.
  - reflexivity.
  - cbn. lia.
Defined.
